(** * CombatGame: gesture classifier and combat simulator

    A shallow embedding of the game logic of [components/CombatGame.tsx]
    (with the entity declarations of [types.ts]) and the properties of its
    per-frame tick.

    Numbers.  JavaScript numbers are modelled as exact rationals ([Q]);
    timestamps returned by [Date.now()] are integers ([Z]).  Every
    [Math.sqrt] of the source ends in a comparison with a non-negative
    constant, so a square root is carried as its radicand (type [Root]),
    and compared through squares.

    Effects.  The functions of the source mutate one shared [state] object
    and may raise a [TypeError] when a property is read from [undefined]
    (an absent landmark).  They are embedded in a state-and-exception monad
    [M] over [GameState].  [Date.now()] is an input: each function that
    reads the clock takes the reading as an argument. *)

From Stdlib Require Import ZArith QArith Qminmax Qabs Qround.
From Stdlib Require Import List String Bool Lia Lqa.
Import ListNotations.

Open Scope Q_scope.

(* ------------------------------------------------------------------ *)
(** ** Numbers *)

Definition Qltb (a b : Q) : bool := negb (Qle_bool b a).
Definition Qgtb (a b : Q) : bool := Qltb b a.
Definition Qgeb (a b : Q) : bool := Qle_bool b a.

Infix "<?" := Qltb (at level 70, no associativity) : Q_scope.
Infix ">?" := Qgtb (at level 70, no associativity) : Q_scope.
Infix "<=?" := Qle_bool (at level 70, no associativity) : Q_scope.
Infix ">=?" := Qgeb (at level 70, no associativity) : Q_scope.

(** [Math.round]: the nearest integer, halves rounded up. *)
Definition Math_round (q : Q) : Z := Qfloor (q + (1 # 2)).

(** The value [Math.sqrt radicand]. *)
Record Root : Type := mkRoot { radicand : Q }.

(** A non-negative constant [c] seen as the root of its square. *)
Definition root_of (c : Q) : Root := mkRoot (c * c).
Definition Math_sqrt (q : Q) : Root := mkRoot q.
Definition root_ltb (a b : Root) : bool := radicand a <? radicand b.
Definition root_gtb (a b : Root) : bool := radicand a >? radicand b.
Definition root_max (a b : Root) : Root := mkRoot (Qmax (radicand a) (radicand b)).
Definition root_div (a b : Root) : Root := mkRoot (radicand a / radicand b).

(* ------------------------------------------------------------------ *)
(** ** Constants *)

Definition MAX_HP : Q := 100.
Definition PUNCH_COOLDOWN : Z := 400.
Definition PROJECTILE_SPEED : Q := 15.
Definition SPECIAL_SPEED : Q := 10.
Definition EXTENSION_THRESHOLD : Q := 8 # 10.
Definition PUNCH_SPEED_THRESHOLD : Q := 4 # 100.
Definition SHIELD_THRESHOLD : Q := 25 # 100.
Definition SPECIAL_CHARGE_TIME : Z := 1500.
Definition CHARGE_GRACE_PERIOD : Z := 500.
Definition SWORD_ACTIVATION_DIST : Q := 15 # 100.
Definition SWORD_HEIGHT_THRESHOLD : Q := 5 # 10.
Definition SWORD_SWING_THRESHOLD : Q := 4 # 100.
Definition SWORD_COOLDOWN : Z := 800.
Definition DAMAGE_STANDARD : Q := 2.
Definition DAMAGE_SPECIAL : Q := 10.
Definition DAMAGE_SPECIAL_BLOCK : Q := 3.
Definition DAMAGE_SWORD : Q := 3.
Definition DAMAGE_SWORD_BLOCK : Q := 1.

Definition CANVAS_WIDTH : Q := 1280.
Definition CANVAS_HEIGHT : Q := 720.

(** [p.width] and [p.height] of the sketch, fixed by [p.setup]. *)
Definition width : Q := CANVAS_WIDTH.
Definition height : Q := CANVAS_HEIGHT.

(* ------------------------------------------------------------------ *)
(** ** Entities ([types.ts]) *)

Inductive Side : Type := sideLeft | sideRight.

Definition Side_eqb (a b : Side) : bool :=
  match a, b with
  | sideLeft, sideLeft | sideRight, sideRight => true
  | _, _ => false
  end.

Inductive AttackType : Type := standard | special | sword.

Definition AttackType_eqb (a b : AttackType) : bool :=
  match a, b with
  | standard, standard | special, special | sword, sword => true
  | _, _ => false
  end.

Record Point : Type := mkPoint { pt_x : Q; pt_y : Q }.

Record Landmark : Type := mkLandmark {
  lm_x : Q;
  lm_y : Q;
  lm_z : Q;
  lm_visibility : option Q
}.

Record BoundingBox : Type := mkBox {
  minX : Q;
  minY : Q;
  maxX : Q;
  maxY : Q
}.

Record Wrists : Type := mkWrists { w_left : Point; w_right : Point }.

Record PlayerState : Type := mkPlayer {
  id : Side;
  hp : Q;
  isAI : bool;
  color : string;
  lastPunchTime : Z;
  detected : bool;
  isShielding : bool;
  isCharging : bool;
  chargeStartTime : Z;
  chargeLevel : Q;
  hasSword : bool;
  prevSwordY : Q;
  lastSwordFireTime : Z;
  lastPoseTime : Z;
  boundingBox : option BoundingBox;
  prevWrists : Wrists
}.

(** The [id] of a projectile or of a floating text is a fresh random string
    ([Math.random().toString(36)]) that no function of the game reads; the
    records below carry the fields the logic uses. *)
Record Projectile : Type := mkProjectile {
  type : AttackType;
  damage : Q;
  blockDamage : Q;
  x : Q;
  y : Q;
  vx : Q;
  vy : Q;
  owner : Side;
  active : bool
}.

(** The three forms of the hit label: [-n], [Blocked!] and [Block! -n]. *)
Inductive HitText : Type :=
| txtHit (n : Z)
| txtBlocked
| txtBlock (n : Z).

Record FloatingText : Type := mkFloatingText {
  ft_x : Q;
  ft_y : Q;
  ft_text : HitText;
  ft_color : string;
  ft_life : Z;
  ft_maxLife : Z;
  ft_vy : Q
}.

(** One detected body: its landmark array. *)
Definition Pose : Type := list Landmark.

Record GameState : Type := mkState {
  leftPlayer : PlayerState;
  rightPlayer : PlayerState;
  projectiles : list Projectile;
  floatingTexts : list FloatingText;
  poseResults : option (list Pose);
  virtualTargetY : Q;
  virtualTargetSpeed : Q;
  isGameOver : bool
}.

(* ------------------------------------------------------------------ *)
(** ** Field assignment *)

(** [set_f v r] is the record [r] after the assignment [r.f = v]. *)

Definition set_hp (v : Q) (p : PlayerState) : PlayerState :=
  mkPlayer
    (id p) v (isAI p) (color p) (lastPunchTime p) (detected p)
    (isShielding p) (isCharging p) (chargeStartTime p) (chargeLevel p)
    (hasSword p) (prevSwordY p) (lastSwordFireTime p) (lastPoseTime p)
    (boundingBox p) (prevWrists p).

Definition set_isAI (v : bool) (p : PlayerState) : PlayerState :=
  mkPlayer
    (id p) (hp p) v (color p) (lastPunchTime p) (detected p)
    (isShielding p) (isCharging p) (chargeStartTime p) (chargeLevel p)
    (hasSword p) (prevSwordY p) (lastSwordFireTime p) (lastPoseTime p)
    (boundingBox p) (prevWrists p).

Definition set_lastPunchTime (v : Z) (p : PlayerState) : PlayerState :=
  mkPlayer
    (id p) (hp p) (isAI p) (color p) v (detected p) (isShielding p)
    (isCharging p) (chargeStartTime p) (chargeLevel p) (hasSword p)
    (prevSwordY p) (lastSwordFireTime p) (lastPoseTime p) (boundingBox p)
    (prevWrists p).

Definition set_detected (v : bool) (p : PlayerState) : PlayerState :=
  mkPlayer
    (id p) (hp p) (isAI p) (color p) (lastPunchTime p) v (isShielding p)
    (isCharging p) (chargeStartTime p) (chargeLevel p) (hasSword p)
    (prevSwordY p) (lastSwordFireTime p) (lastPoseTime p) (boundingBox p)
    (prevWrists p).

Definition set_isShielding (v : bool) (p : PlayerState) : PlayerState :=
  mkPlayer
    (id p) (hp p) (isAI p) (color p) (lastPunchTime p) (detected p) v
    (isCharging p) (chargeStartTime p) (chargeLevel p) (hasSword p)
    (prevSwordY p) (lastSwordFireTime p) (lastPoseTime p) (boundingBox p)
    (prevWrists p).

Definition set_isCharging (v : bool) (p : PlayerState) : PlayerState :=
  mkPlayer
    (id p) (hp p) (isAI p) (color p) (lastPunchTime p) (detected p)
    (isShielding p) v (chargeStartTime p) (chargeLevel p) (hasSword p)
    (prevSwordY p) (lastSwordFireTime p) (lastPoseTime p) (boundingBox p)
    (prevWrists p).

Definition set_chargeStartTime (v : Z) (p : PlayerState) : PlayerState :=
  mkPlayer
    (id p) (hp p) (isAI p) (color p) (lastPunchTime p) (detected p)
    (isShielding p) (isCharging p) v (chargeLevel p) (hasSword p)
    (prevSwordY p) (lastSwordFireTime p) (lastPoseTime p) (boundingBox p)
    (prevWrists p).

Definition set_chargeLevel (v : Q) (p : PlayerState) : PlayerState :=
  mkPlayer
    (id p) (hp p) (isAI p) (color p) (lastPunchTime p) (detected p)
    (isShielding p) (isCharging p) (chargeStartTime p) v (hasSword p)
    (prevSwordY p) (lastSwordFireTime p) (lastPoseTime p) (boundingBox p)
    (prevWrists p).

Definition set_hasSword (v : bool) (p : PlayerState) : PlayerState :=
  mkPlayer
    (id p) (hp p) (isAI p) (color p) (lastPunchTime p) (detected p)
    (isShielding p) (isCharging p) (chargeStartTime p) (chargeLevel p) v
    (prevSwordY p) (lastSwordFireTime p) (lastPoseTime p) (boundingBox p)
    (prevWrists p).

Definition set_prevSwordY (v : Q) (p : PlayerState) : PlayerState :=
  mkPlayer
    (id p) (hp p) (isAI p) (color p) (lastPunchTime p) (detected p)
    (isShielding p) (isCharging p) (chargeStartTime p) (chargeLevel p)
    (hasSword p) v (lastSwordFireTime p) (lastPoseTime p) (boundingBox p)
    (prevWrists p).

Definition set_lastSwordFireTime (v : Z) (p : PlayerState) : PlayerState :=
  mkPlayer
    (id p) (hp p) (isAI p) (color p) (lastPunchTime p) (detected p)
    (isShielding p) (isCharging p) (chargeStartTime p) (chargeLevel p)
    (hasSword p) (prevSwordY p) v (lastPoseTime p) (boundingBox p)
    (prevWrists p).

Definition set_lastPoseTime (v : Z) (p : PlayerState) : PlayerState :=
  mkPlayer
    (id p) (hp p) (isAI p) (color p) (lastPunchTime p) (detected p)
    (isShielding p) (isCharging p) (chargeStartTime p) (chargeLevel p)
    (hasSword p) (prevSwordY p) (lastSwordFireTime p) v (boundingBox p)
    (prevWrists p).

Definition set_boundingBox (v : option BoundingBox) (p : PlayerState) : PlayerState :=
  mkPlayer
    (id p) (hp p) (isAI p) (color p) (lastPunchTime p) (detected p)
    (isShielding p) (isCharging p) (chargeStartTime p) (chargeLevel p)
    (hasSword p) (prevSwordY p) (lastSwordFireTime p) (lastPoseTime p) v
    (prevWrists p).

Definition set_prevWrists (v : Wrists) (p : PlayerState) : PlayerState :=
  mkPlayer
    (id p) (hp p) (isAI p) (color p) (lastPunchTime p) (detected p)
    (isShielding p) (isCharging p) (chargeStartTime p) (chargeLevel p)
    (hasSword p) (prevSwordY p) (lastSwordFireTime p) (lastPoseTime p)
    (boundingBox p) v.

Definition set_leftPlayer (v : PlayerState) (s : GameState) : GameState :=
  mkState
    v (rightPlayer s) (projectiles s) (floatingTexts s) (poseResults s)
    (virtualTargetY s) (virtualTargetSpeed s) (isGameOver s).

Definition set_rightPlayer (v : PlayerState) (s : GameState) : GameState :=
  mkState
    (leftPlayer s) v (projectiles s) (floatingTexts s) (poseResults s)
    (virtualTargetY s) (virtualTargetSpeed s) (isGameOver s).

Definition set_projectiles (v : list Projectile) (s : GameState) : GameState :=
  mkState
    (leftPlayer s) (rightPlayer s) v (floatingTexts s) (poseResults s)
    (virtualTargetY s) (virtualTargetSpeed s) (isGameOver s).

Definition set_floatingTexts (v : list FloatingText) (s : GameState) : GameState :=
  mkState
    (leftPlayer s) (rightPlayer s) (projectiles s) v (poseResults s)
    (virtualTargetY s) (virtualTargetSpeed s) (isGameOver s).

Definition set_poseResults (v : option (list Pose)) (s : GameState) : GameState :=
  mkState
    (leftPlayer s) (rightPlayer s) (projectiles s) (floatingTexts s) v
    (virtualTargetY s) (virtualTargetSpeed s) (isGameOver s).

Definition set_virtualTargetY (v : Q) (s : GameState) : GameState :=
  mkState
    (leftPlayer s) (rightPlayer s) (projectiles s) (floatingTexts s)
    (poseResults s) v (virtualTargetSpeed s) (isGameOver s).

Definition set_virtualTargetSpeed (v : Q) (s : GameState) : GameState :=
  mkState
    (leftPlayer s) (rightPlayer s) (projectiles s) (floatingTexts s)
    (poseResults s) (virtualTargetY s) v (isGameOver s).

Definition set_isGameOver (v : bool) (s : GameState) : GameState :=
  mkState
    (leftPlayer s) (rightPlayer s) (projectiles s) (floatingTexts s)
    (poseResults s) (virtualTargetY s) (virtualTargetSpeed s) v.

Definition set_pos (nx ny : Q) (pr : Projectile) : Projectile :=
  mkProjectile (type pr) (damage pr) (blockDamage pr) nx ny (vx pr) (vy pr)
    (owner pr) (active pr).

Definition set_wrist (handSide : Side) (v : Point) (w : Wrists) : Wrists :=
  match handSide with
  | sideLeft => mkWrists v (w_right w)
  | sideRight => mkWrists (w_left w) v
  end.

Definition wrist_of (handSide : Side) (w : Wrists) : Point :=
  match handSide with
  | sideLeft => w_left w
  | sideRight => w_right w
  end.

(* ------------------------------------------------------------------ *)
(** ** The state-and-exception monad *)

Inductive Outcome (A : Type) : Type :=
| Ok (a : A) (s : GameState)
| TypeError.

Arguments Ok {A} a s.
Arguments TypeError {A}.

Definition M (A : Type) : Type := GameState -> Outcome A.

Definition ret {A} (a : A) : M A := fun s => Ok a s.

Definition bind {A B} (m : M A) (k : A -> M B) : M B :=
  fun s => match m s with
           | Ok a s' => k a s'
           | TypeError => TypeError
           end.

Definition throw {A} : M A := fun _ => TypeError.

Notation "v <- m ;; k" := (bind m (fun v => k))
  (at level 61, m at next level, right associativity).
Notation "m ;; k" := (bind m (fun _ => k))
  (at level 61, right associativity).

Definition get : M GameState := fun s => Ok s s.

Definition opponent (side : Side) : Side :=
  match side with
  | sideLeft => sideRight
  | sideRight => sideLeft
  end.

(** [side === 'left' ? state.leftPlayer : state.rightPlayer] *)
Definition player (side : Side) (s : GameState) : PlayerState :=
  match side with
  | sideLeft => leftPlayer s
  | sideRight => rightPlayer s
  end.

Definition set_player (side : Side) (v : PlayerState) (s : GameState)
  : GameState :=
  match side with
  | sideLeft => set_leftPlayer v s
  | sideRight => set_rightPlayer v s
  end.

Definition getPlayer (side : Side) : M PlayerState :=
  fun s => Ok (player side s) s.

(** An assignment to fields of the player object of [side]. *)
Definition assign (side : Side) (f : PlayerState -> PlayerState) : M unit :=
  fun s => Ok tt (set_player side (f (player side s)) s).

(** [state.projectiles.push(pr)] *)
Definition push_projectile (pr : Projectile) : M unit :=
  fun s => Ok tt (set_projectiles (projectiles s ++ [pr]) s).

(** [state.floatingTexts.push(ft)] *)
Definition push_floatingText (ft : FloatingText) : M unit :=
  fun s => Ok tt (set_floatingTexts (floatingTexts s ++ [ft]) s).

(** [landmarks[i]]: [None] is [undefined]. *)
Definition at_index (landmarks : Pose) (i : nat) : option Landmark :=
  nth_error landmarks i.

(** Reading a property of a landmark: a [TypeError] on [undefined]. *)
Definition deref (l : option Landmark) : M Landmark :=
  match l with
  | Some v => ret v
  | None => throw
  end.

(** The clock readings of one call of [processPlayer]: [detectSpecial],
    [detectSword] and the two calls of [checkHand] each read [Date.now()]. *)
Record Clock : Type := mkClock {
  nowSpecial : Z;
  nowSword : Z;
  nowLeftHand : Z;
  nowRightHand : Z
}.

(* ------------------------------------------------------------------ *)
(** ** Helpers *)

Definition getDist (a b : Landmark) : Root :=
  Math_sqrt ((lm_x a - lm_x b) ^ 2 + (lm_y a - lm_y b) ^ 2).

Definition resetPlayerAction (p : PlayerState) : PlayerState :=
  set_hasSword false
    (set_chargeLevel 0 (set_isCharging false (set_isShielding false p))).

Definition dir (side : Side) : Q :=
  match side with
  | sideLeft => 1
  | sideRight => -1
  end.

(* ------------------------------------------------------------------ *)
(** ** Gesture classifier *)

Definition detectShield (side : Side) (landmarks : Pose) : M unit :=
  leftWrist <- deref (at_index landmarks 15) ;;
  rightWrist <- deref (at_index landmarks 16) ;;
  leftShoulder <- deref (at_index landmarks 11) ;;
  rightShoulder <- deref (at_index landmarks 12) ;;
  let distLeftToLeftShoulder := getDist leftWrist leftShoulder in
  let distLeftToRightShoulder := getDist leftWrist rightShoulder in
  let distRightToRightShoulder := getDist rightWrist rightShoulder in
  let distRightToLeftShoulder := getDist rightWrist leftShoulder in
  let isLeftHandUp :=
    root_ltb distLeftToLeftShoulder (root_of SHIELD_THRESHOLD)
    || root_ltb distLeftToRightShoulder (root_of SHIELD_THRESHOLD) in
  let isRightHandUp :=
    root_ltb distRightToRightShoulder (root_of SHIELD_THRESHOLD)
    || root_ltb distRightToLeftShoulder (root_of SHIELD_THRESHOLD) in
  if isLeftHandUp && isRightHandUp then
    assign side (set_isShielding true) ;;
    assign side (set_hasSword false)
  else
    assign side (set_isShielding false).

Definition swordProjectile (side : Side) (startX startY : Q) : Projectile :=
  mkProjectile sword DAMAGE_SWORD DAMAGE_SWORD_BLOCK startX startY
    (dir side * PROJECTILE_SPEED * (12 # 10)) 0 side true.

Definition detectSword (side : Side) (landmarks : Pose) (now : Z) : M unit :=
  playerState <- getPlayer side ;;
  if isShielding playerState || isCharging playerState then
    assign side (set_hasSword false)
  else
    leftWrist <- deref (at_index landmarks 15) ;;
    rightWrist <- deref (at_index landmarks 16) ;;
    let currentHandY := (lm_y leftWrist + lm_y rightWrist) / 2 in
    let handDist := getDist leftWrist rightWrist in
    let isInStance :=
      root_ltb handDist (root_of SWORD_ACTIVATION_DIST)
      && (currentHandY >? SWORD_HEIGHT_THRESHOLD) in
    (if isInStance then
       assign side (set_hasSword true) ;;
       if negb (Qeq_bool (prevSwordY playerState) 0) then
         let dy := currentHandY - prevSwordY playerState in
         if (Qabs dy >? SWORD_SWING_THRESHOLD)
            && (now - lastSwordFireTime playerState >? SWORD_COOLDOWN)%Z
         then
           assign side (set_lastSwordFireTime now) ;;
           let centerX := (lm_x leftWrist + lm_x rightWrist) / 2 in
           let startX := (1 - centerX) * width in
           let startY := currentHandY * height in
           push_projectile (swordProjectile side startX startY)
         else ret tt
       else ret tt
     else
       assign side (set_hasSword false)) ;;
    assign side (set_prevSwordY currentHandY).

Definition specialProjectile (side : Side) (startX startY : Q) : Projectile :=
  mkProjectile special DAMAGE_SPECIAL DAMAGE_SPECIAL_BLOCK startX startY
    (dir side * SPECIAL_SPEED) 0 side true.

Definition fireSpecial (side : Side) (landmarks : Pose) : M unit :=
  leftWrist <- deref (at_index landmarks 15) ;;
  rightWrist <- deref (at_index landmarks 16) ;;
  let centerX := (lm_x leftWrist + lm_x rightWrist) / 2 in
  let centerY := (lm_y leftWrist + lm_y rightWrist) / 2 in
  let startX := (1 - centerX) * width in
  let startY := centerY * height in
  push_projectile (specialProjectile side startX startY).

(** [isSpecialPoseRaw] of [detectSpecial]. *)
Definition isSpecialPoseRaw
  (leftWrist rightWrist leftShoulder rightShoulder : Landmark) : bool :=
  let leftHandUp := lm_y leftWrist <? lm_y leftShoulder in
  let leftHandDown := lm_y leftWrist >? lm_y leftShoulder in
  let rightHandUp := lm_y rightWrist <? lm_y rightShoulder in
  let rightHandDown := lm_y rightWrist >? lm_y rightShoulder in
  (leftHandUp && rightHandDown) || (rightHandUp && leftHandDown).

Definition detectSpecial (side : Side) (landmarks : Pose) (now : Z) : M unit :=
  playerState <- getPlayer side ;;
  leftWrist <- deref (at_index landmarks 15) ;;
  rightWrist <- deref (at_index landmarks 16) ;;
  leftShoulder <- deref (at_index landmarks 11) ;;
  rightShoulder <- deref (at_index landmarks 12) ;;
  let isHoldingPose :=
    isSpecialPoseRaw leftWrist rightWrist leftShoulder rightShoulder
    && negb (isShielding playerState) && negb (hasSword playerState) in
  if isHoldingPose then
    (if negb (isCharging playerState) then
       assign side (set_isCharging true) ;;
       assign side (set_chargeStartTime now)
     else ret tt) ;;
    assign side (set_lastPoseTime now) ;;
    assign side (fun p =>
      let elapsed := (now - chargeStartTime p)%Z in
      set_chargeLevel
        (Qmin 1 (inject_Z elapsed / inject_Z SPECIAL_CHARGE_TIME)) p)
  else
    if isCharging playerState then
      if chargeLevel playerState >=? 1 then
        fireSpecial side landmarks ;;
        assign side (set_isCharging false) ;;
        assign side (set_chargeLevel 0)
      else
        if (now - lastPoseTime playerState >? CHARGE_GRACE_PERIOD)%Z then
          assign side (set_isCharging false) ;;
          assign side (set_chargeLevel 0)
        else ret tt
    else ret tt.

Definition standardProjectile (side : Side) (startX startY : Q) : Projectile :=
  mkProjectile standard DAMAGE_STANDARD 0 startX startY
    (dir side * PROJECTILE_SPEED) 0 side true.

Definition checkHand (side handSide : Side)
  (wrist shoulder hip : option Landmark) (scale : Root) (now : Z) : M unit :=
  playerState <- getPlayer side ;;
  if isShielding playerState || isCharging playerState || hasSword playerState
  then ret tt
  else
    if (now - lastPunchTime playerState <? PUNCH_COOLDOWN)%Z then ret tt
    else
      shoulder <- deref shoulder ;;
      hip <- deref hip ;;
      wrist <- deref wrist ;;
      let chestHighBound := lm_y shoulder - (1 # 10) in
      let chestLowBound := lm_y hip - (1 # 10) in
      if (lm_y wrist <? chestHighBound) || (lm_y wrist >? chestLowBound)
      then ret tt
      else
        let relX := lm_x wrist - lm_x shoulder in
        let relY := lm_y wrist - lm_y shoulder in
        let prevWrist := wrist_of handSide (prevWrists playerState) in
        let dx := relX - pt_x prevWrist in
        let dy := relY - pt_y prevWrist in
        let speed := Math_sqrt (dx * dx + dy * dy) in
        assign side (fun p =>
          set_prevWrists
            (set_wrist handSide (mkPoint relX relY) (prevWrists p)) p) ;;
        let ext := getDist wrist shoulder in
        let extensionRatio := root_div ext scale in
        if root_gtb speed (root_of PUNCH_SPEED_THRESHOLD)
           && root_gtb extensionRatio (root_of EXTENSION_THRESHOLD)
        then
          assign side (set_lastPunchTime now) ;;
          let startX := (1 - lm_x wrist) * width in
          let startY := lm_y wrist * height in
          push_projectile (standardProjectile side startX startY)
        else ret tt.

Definition detectPunch (side : Side) (landmarks : Pose)
  (nowLeft nowRight : Z) : M unit :=
  let leftWrist := at_index landmarks 15 in
  let rightWrist := at_index landmarks 16 in
  let leftShoulder := at_index landmarks 11 in
  let rightShoulder := at_index landmarks 12 in
  let leftHip := at_index landmarks 23 in
  let rightHip := at_index landmarks 24 in
  ls <- deref leftShoulder ;;
  rs <- deref rightShoulder ;;
  lh <- deref leftHip ;;
  let shoulderDist := getDist ls rs in
  let torsoHeight := getDist ls lh in
  let scale :=
    root_max (root_max shoulderDist torsoHeight) (root_of (1 # 10)) in
  checkHand side sideLeft leftWrist leftShoulder leftHip scale nowLeft ;;
  checkHand side sideRight rightWrist rightShoulder rightHip scale nowRight.

(** [drawSkeleton] only paints, but it reads landmarks: the shield effect
    reads the hips and shoulders, the sword and charge effects the wrists;
    the bone and wrist markers test their landmarks before use. *)
Definition drawSkeleton (landmarks : Pose) (playerState : PlayerState)
  : M unit :=
  (if isShielding playerState
      && match boundingBox playerState with Some _ => true | None => false end
   then
     _ <- deref (at_index landmarks 23) ;;
     _ <- deref (at_index landmarks 24) ;;
     _ <- deref (at_index landmarks 11) ;;
     _ <- deref (at_index landmarks 12) ;;
     ret tt
   else ret tt) ;;
  (if hasSword playerState then
     _ <- deref (at_index landmarks 15) ;;
     _ <- deref (at_index landmarks 16) ;;
     ret tt
   else ret tt) ;;
  (if isCharging playerState then
     _ <- deref (at_index landmarks 15) ;;
     _ <- deref (at_index landmarks 16) ;;
     ret tt
   else ret tt).

(** The hitbox loop of [processPlayer]. *)
Definition hitboxStep (acc : Q * Q * Q * Q) (lm : Landmark) : Q * Q * Q * Q :=
  let '(minX, minY, maxX, maxY) := acc in
  let minX := if lm_x lm <? minX then lm_x lm else minX in
  let maxX := if lm_x lm >? maxX then lm_x lm else maxX in
  let minY := if lm_y lm <? minY then lm_y lm else minY in
  let maxY := if lm_y lm >? maxY then lm_y lm else maxY in
  (minX, minY, maxX, maxY).

Definition processPlayer (side : Side) (landmarks : Pose) (clk : Clock)
  : M unit :=
  assign side (set_detected true) ;;
  let '(minX, minY, maxX, maxY) :=
    fold_left hitboxStep landmarks (1, 1, 0, 0) in
  assign side (set_boundingBox (Some
    (mkBox ((1 - maxX) * width) (minY * height)
           ((1 - minX) * width) (maxY * height)))) ;;
  detectShield side landmarks ;;
  detectSpecial side landmarks (nowSpecial clk) ;;
  detectSword side landmarks (nowSword clk) ;;
  player0 <- getPlayer side ;;
  (if negb (isShielding player0) && negb (isCharging player0)
      && negb (hasSword player0)
   then detectPunch side landmarks (nowLeftHand clk) (nowRightHand clk)
   else ret tt) ;;
  player1 <- getPlayer side ;;
  drawSkeleton landmarks player1.

(* ------------------------------------------------------------------ *)
(** ** Combat simulator *)

Definition updateAI : M unit :=
  fun state =>
    let vty := virtualTargetY state + virtualTargetSpeed state in
    let state := set_virtualTargetY vty state in
    let state :=
      if (vty >? 7 # 10) || (vty <? 3 # 10)
      then set_virtualTargetSpeed (virtualTargetSpeed state * -1) state
      else state in
    let xPos := width * (85 # 100) in
    let yPos := virtualTargetY state * height in
    let size := 120 in
    Ok tt (set_rightPlayer
             (set_boundingBox
                (Some (mkBox (xPos - size / 2) (yPos - size / 2)
                             (xPos + size / 2) (yPos + size / 2)))
                (rightPlayer state))
             state).

(** [proj.x += proj.vx; proj.y += proj.vy] *)
Definition advance (proj : Projectile) : Projectile :=
  set_pos (x proj + vx proj) (y proj + vy proj) proj.

Definition outOfBounds (proj : Projectile) : bool :=
  (x proj <? -100) || (x proj >? width + 100).

Definition hitPadding (proj : Projectile) : Q :=
  if AttackType_eqb (type proj) special then 100 else 20.

Definition overlaps (proj : Projectile) (bbox : BoundingBox) : bool :=
  (x proj >? minX bbox - hitPadding proj)
  && (x proj <? maxX bbox + hitPadding proj)
  && (y proj >? minY bbox - hitPadding proj)
  && (y proj <? maxY bbox + hitPadding proj).

(** [actualDamage] of a hit on [target]. *)
Definition actualDamage (proj : Projectile) (target : PlayerState) : Q :=
  if isShielding target then blockDamage proj else damage proj.

Definition hitColor (target : PlayerState) : string :=
  if isShielding target then "#FFD700"%string else "#ff2222"%string.

Definition hitText (proj : Projectile) (target : PlayerState) : HitText :=
  if isShielding target then
    if Qeq_bool (blockDamage proj) 0 then txtBlocked
    else txtBlock (Math_round (blockDamage proj))
  else txtHit (Math_round (damage proj)).

(** One iteration of the loop of [updateProjectiles] on the projectile at
    index [i]: the result is the projectile left at that index, [None] when
    it was spliced out. *)
Definition updateProjectile (proj : Projectile) : M (option Projectile) :=
  let proj := advance proj in
  if outOfBounds proj then ret None
  else
    target <- getPlayer (opponent (owner proj)) ;;
    match boundingBox target with
    | Some bbox =>
        if overlaps proj bbox then
          (if actualDamage proj target >? 0 then
             assign (opponent (owner proj))
               (fun t => set_hp (hp t - actualDamage proj target) t)
           else ret tt) ;;
          push_floatingText
            (mkFloatingText (x proj) (y proj) (hitText proj target)
               (hitColor target) 40 40 (-3)) ;;
          ret None
        else ret (Some proj)
    | None => ret (Some proj)
    end.

(** The loop runs from the last index down to the first. *)
Fixpoint updateProjectilesLoop (l : list Projectile) : M (list Projectile) :=
  match l with
  | [] => ret []
  | proj :: rest =>
      rest' <- updateProjectilesLoop rest ;;
      r <- updateProjectile proj ;;
      ret (match r with
           | Some proj' => proj' :: rest'
           | None => rest'
           end)
  end.

Definition updateProjectiles : M unit :=
  state <- get ;;
  l <- updateProjectilesLoop (projectiles state) ;;
  fun state' => Ok tt (set_projectiles l state').

Definition updateFloatingText : M unit :=
  fun state =>
    let moved :=
      map (fun ft =>
             mkFloatingText (ft_x ft) (ft_y ft + ft_vy ft) (ft_text ft)
               (ft_color ft) (ft_life ft - 1) (ft_maxLife ft) (ft_vy ft))
          (floatingTexts state) in
    Ok tt (set_floatingTexts
             (filter (fun ft => negb (ft_life ft <=? 0)%Z) moved) state).

(* ------------------------------------------------------------------ *)
(** ** Frame orchestrator *)

(** [results.landmarks.map(l => ({landmarks: l, centerX: ...}))] *)
Fixpoint mapPoses (ls : list Pose) : M (list (Pose * Q)) :=
  match ls with
  | [] => ret []
  | l :: rest =>
      l11 <- deref (at_index l 11) ;;
      l12 <- deref (at_index l 12) ;;
      rest' <- mapPoses rest ;;
      ret ((l, (lm_x l11 + lm_x l12) / 2) :: rest')
  end.

(** [poses.forEach(...)]: the result is the pair
    [(detectedLeft, detectedRight)]; the pose at index [i] is processed
    under the clock readings [clock i]. *)
Fixpoint forEachPose (poses : list (Pose * Q)) (clock : nat -> Clock)
  (i : nat) (det : bool * bool) : M (bool * bool) :=
  match poses with
  | [] => ret det
  | (landmarks, centerX) :: rest =>
      let isPlayer1 := centerX >? 5 # 10 in
      if isPlayer1 then
        processPlayer sideLeft landmarks (clock i) ;;
        forEachPose rest clock (S i) (true, snd det)
      else
        processPlayer sideRight landmarks (clock i) ;;
        forEachPose rest clock (S i) (fst det, true)
  end.

(** [p.draw], without the painting and the periodic export of hp and
    player count to the overlay. *)
Definition draw (clock : nat -> Clock) : M unit :=
  state <- get ;;
  if isGameOver state then ret tt
  else
    det <- match poseResults state with
           | Some ((_ :: _) as landmarks) =>
               poses <- mapPoses landmarks ;;
               forEachPose poses clock 0 (false, false)
           | _ => ret (false, false)
           end ;;
    let '(detectedLeft, detectedRight) := det in
    (if negb detectedLeft then
       assign sideLeft (set_detected false) ;;
       assign sideLeft (set_boundingBox None) ;;
       assign sideLeft resetPlayerAction
     else ret tt) ;;
    (if negb detectedRight then
       rightPlayer0 <- getPlayer sideRight ;;
       if negb (isAI rightPlayer0) then
         assign sideRight (set_detected false) ;;
         assign sideRight (set_boundingBox None) ;;
         assign sideRight resetPlayerAction
       else ret tt
     else assign sideRight (set_isAI false)) ;;
    (if detectedLeft && negb detectedRight then
       assign sideRight (set_isAI true)
     else ret tt) ;;
    rightPlayer1 <- getPlayer sideRight ;;
    (if isAI rightPlayer1 then updateAI else ret tt) ;;
    updateProjectiles ;;
    updateFloatingText ;;
    state' <- get ;;
    if (hp (leftPlayer state') <=? 0) || (hp (rightPlayer state') <=? 0)
    then fun s => Ok tt (set_isGameOver true s)
    else ret tt.

(** [resetGame], on the game state. *)
Definition resetGame (s : GameState) : GameState :=
  let s := set_leftPlayer (set_hp MAX_HP (leftPlayer s)) s in
  let s := set_rightPlayer (set_hp MAX_HP (rightPlayer s)) s in
  let s := set_leftPlayer (set_isCharging false (leftPlayer s)) s in
  let s := set_leftPlayer (set_chargeLevel 0 (leftPlayer s)) s in
  let s := set_rightPlayer (set_isCharging false (rightPlayer s)) s in
  let s := set_rightPlayer (set_chargeLevel 0 (rightPlayer s)) s in
  let s := set_projectiles [] s in
  let s := set_floatingTexts [] s in
  set_isGameOver false s.

Definition zeroWrists : Wrists := mkWrists (mkPoint 0 0) (mkPoint 0 0).

(** The initial value of [gameStateRef]. *)
Definition initialState : GameState :=
  mkState
    (mkPlayer sideLeft MAX_HP false "#3b82f6" 0 false false false 0 0
       false 0 0 0 None zeroWrists)
    (mkPlayer sideRight MAX_HP true "#ef4444" 0 false false false 0 0
       false 0 0 0 None zeroWrists)
    [] [] None (5 # 10) (5 # 1000) false.

(* ------------------------------------------------------------------ *)
(** ** Summaries used in the statements and proofs *)

(** What one iteration does with a projectile. *)
Inductive Verdict : Type := Gone | Struck | Flying.

Definition verdict (proj : Projectile) (s : GameState) : Verdict :=
  let proj := advance proj in
  if outOfBounds proj then Gone
  else match boundingBox (player (opponent (owner proj)) s) with
       | Some bbox => if overlaps proj bbox then Struck else Flying
       | None => Flying
       end.

(** The state after the (already advanced) projectile [proj] struck. *)
Definition strike (proj : Projectile) (s : GameState) : GameState :=
  let side := opponent (owner proj) in
  let target := player side s in
  let s1 :=
    if actualDamage proj target >? 0
    then set_player side (set_hp (hp target - actualDamage proj target) target) s
    else s in
  set_floatingTexts
    (floatingTexts s1 ++
       [mkFloatingText (x proj) (y proj) (hitText proj target)
          (hitColor target) 40 40 (-3)]) s1.

(** The loop as a function: survivors and final state. *)
Fixpoint sweep (l : list Projectile) (s : GameState)
  : list Projectile * GameState :=
  match l with
  | [] => ([], s)
  | proj :: rest =>
      let r := sweep rest s in
      match verdict proj (snd r) with
      | Gone => r
      | Struck => (fst r, strike (advance proj) (snd r))
      | Flying => (advance proj :: fst r, snd r)
      end
  end.

(** The projectiles whose target is the player of [side]. *)
Definition aimedAt (side : Side) (proj : Projectile) : bool :=
  Side_eqb (opponent (owner proj)) side.

Definition inBoundsNext (proj : Projectile) : bool :=
  negb (outOfBounds (advance proj)).

(* ------------------------------------------------------------------ *)
(** ** The classifier seen from one player

    A classifier function called for [side] changes the player record of
    that side and appends projectiles, nothing else.  [commit side p l s0]
    is the state [s0] with the record of [side] replaced by [p] and the
    projectiles [l] pushed; [wp] is the weakest precondition of a
    computation over such states, with [e] the verdict on a [TypeError]. *)

Definition commit (side : Side) (p : PlayerState) (l : list Projectile)
  (s0 : GameState) : GameState :=
  set_projectiles (projectiles s0 ++ l) (set_player side p s0).

Definition wp {A : Type} (e : Prop) (side : Side) (s0 : GameState)
  (m : M A) (Q : A -> PlayerState -> list Projectile -> Prop)
  (p : PlayerState) (l : list Projectile) : Prop :=
  match m (commit side p l s0) with
  | Ok a s' => exists p' l', s' = commit side p' l' s0 /\ Q a p' l'
  | TypeError => e
  end.

Definition with_opt (e : Prop) (o : option Landmark) (k : Landmark -> Prop)
  : Prop :=
  match o with
  | Some v => k v
  | None => e
  end.

(** The landmarks the game reads: shoulders, wrists and hips. *)
Definition expectedIndices : list nat := [11; 12; 15; 16; 23; 24]%nat.

Definition hasExpected (landmarks : Pose) : bool :=
  forallb (fun i => match at_index landmarks i with
                    | Some _ => true
                    | None => false
                    end) expectedIndices.

(** The condition of [detectShield]. *)
Definition isShieldPose
  (leftWrist rightWrist leftShoulder rightShoulder : Landmark) : bool :=
  (root_ltb (getDist leftWrist leftShoulder) (root_of SHIELD_THRESHOLD)
   || root_ltb (getDist leftWrist rightShoulder) (root_of SHIELD_THRESHOLD))
  && (root_ltb (getDist rightWrist rightShoulder) (root_of SHIELD_THRESHOLD)
      || root_ltb (getDist rightWrist leftShoulder)
           (root_of SHIELD_THRESHOLD)).

(** The player record after [detectShield]. *)
Definition shieldP (lw rw ls rs : Landmark) (p : PlayerState) : PlayerState :=
  if isShieldPose lw rw ls rs
  then set_hasSword false (set_isShielding true p)
  else set_isShielding false p.

(** The conditions and the outcome of [detectSpecial]. *)
Definition isHoldingPose (lw rw ls rs : Landmark) (p : PlayerState) : bool :=
  isSpecialPoseRaw lw rw ls rs && negb (isShielding p) && negb (hasSword p).

Definition chargeLevelAt (now start : Z) : Q :=
  Qmin 1 (inject_Z (now - start) / inject_Z SPECIAL_CHARGE_TIME).

Definition midX (lw rw : Landmark) : Q := (lm_x lw + lm_x rw) / 2.
Definition midY (lw rw : Landmark) : Q := (lm_y lw + lm_y rw) / 2.

Definition discharged (p : PlayerState) : PlayerState :=
  set_chargeLevel 0 (set_isCharging false p).

Definition specialP (side : Side) (lw rw ls rs : Landmark) (now : Z)
  (p : PlayerState) : PlayerState * list Projectile :=
  if isHoldingPose lw rw ls rs p then
    let p1 := if negb (isCharging p)
              then set_chargeStartTime now (set_isCharging true p)
              else p in
    let p2 := set_lastPoseTime now p1 in
    (set_chargeLevel (chargeLevelAt now (chargeStartTime p2)) p2, [])
  else if isCharging p then
    if chargeLevel p >=? 1 then
      (discharged p,
       [specialProjectile side ((1 - midX lw rw) * width)
          (midY lw rw * height)])
    else if (now - lastPoseTime p >? CHARGE_GRACE_PERIOD)%Z
         then (discharged p, [])
         else (p, [])
  else (p, []).

(** The conditions and the outcome of [detectSword] past its guard. *)
Definition isInStance (lw rw : Landmark) : bool :=
  root_ltb (getDist lw rw) (root_of SWORD_ACTIVATION_DIST)
  && (midY lw rw >? SWORD_HEIGHT_THRESHOLD).

Definition isSwing (lw rw : Landmark) (now : Z) (p : PlayerState) : bool :=
  negb (Qeq_bool (prevSwordY p) 0)
  && ((Qabs (midY lw rw - prevSwordY p) >? SWORD_SWING_THRESHOLD)
      && (now - lastSwordFireTime p >? SWORD_COOLDOWN)%Z).

Definition swordP (side : Side) (lw rw : Landmark) (now : Z)
  (p : PlayerState) : PlayerState * list Projectile :=
  if isInStance lw rw then
    if isSwing lw rw now p then
      (set_prevSwordY (midY lw rw)
         (set_lastSwordFireTime now (set_hasSword true p)),
       [swordProjectile side ((1 - midX lw rw) * width)
          (midY lw rw * height)])
    else (set_prevSwordY (midY lw rw) (set_hasSword true p), [])
  else (set_prevSwordY (midY lw rw) (set_hasSword false p), []).

(** The conditions and the outcome of [checkHand] past its two guards. *)
Definition handBusy (p : PlayerState) : bool :=
  isShielding p || isCharging p || hasSword p.

Definition coolingDown (now : Z) (p : PlayerState) : bool :=
  (now - lastPunchTime p <? PUNCH_COOLDOWN)%Z.

Definition outsideChestBand (wrist shoulder hip : Landmark) : bool :=
  (lm_y wrist <? lm_y shoulder - (1 # 10))
  || (lm_y wrist >? lm_y hip - (1 # 10)).

Definition relativeWrist (wrist shoulder : Landmark) : Point :=
  mkPoint (lm_x wrist - lm_x shoulder) (lm_y wrist - lm_y shoulder).

(** The speed [checkHand] computes against the baseline [prev]. *)
Definition punchSpeed (wrist shoulder : Landmark) (prev : Point) : Root :=
  let dx := lm_x wrist - lm_x shoulder - pt_x prev in
  let dy := lm_y wrist - lm_y shoulder - pt_y prev in
  Math_sqrt (dx * dx + dy * dy).

Definition punchTrigger (wrist shoulder : Landmark) (scale : Root)
  (prev : Point) : bool :=
  root_gtb (punchSpeed wrist shoulder prev) (root_of PUNCH_SPEED_THRESHOLD)
  && root_gtb (root_div (getDist wrist shoulder) scale)
       (root_of EXTENSION_THRESHOLD).

Definition punchFrom (side : Side) (wrist : Landmark) : Projectile :=
  standardProjectile side ((1 - lm_x wrist) * width) (lm_y wrist * height).

Definition handP (side handSide : Side) (wrist shoulder hip : Landmark)
  (scale : Root) (now : Z) (p : PlayerState)
  : PlayerState * list Projectile :=
  if outsideChestBand wrist shoulder hip then (p, [])
  else
    let p1 := set_prevWrists
                (set_wrist handSide (relativeWrist wrist shoulder)
                   (prevWrists p)) p in
    if punchTrigger wrist shoulder scale (wrist_of handSide (prevWrists p))
    then (set_lastPunchTime now p1, [punchFrom side wrist])
    else (p1, []).

(** [scale] of [detectPunch]. *)
Definition bodyScale (ls rs lh : Landmark) : Root :=
  root_max (root_max (getDist ls rs) (getDist ls lh)) (root_of (1 # 10)).

(** The hitbox [processPlayer] assigns. *)
Definition hitbox (landmarks : Pose) : BoundingBox :=
  let '(minX, minY, maxX, maxY) :=
    fold_left hitboxStep landmarks (1, 1, 0, 0) in
  mkBox ((1 - maxX) * width) (minY * height)
        ((1 - minX) * width) (maxY * height).

Definition boxed (landmarks : Pose) (p : PlayerState) : PlayerState :=
  set_boundingBox (Some (hitbox landmarks)) (set_detected true p).

(** The player record and the projectiles after the three detections
    [detectShield], [detectSpecial], [detectSword] of [processPlayer]. *)
Definition gestureP (side : Side) (lw rw ls rs : Landmark) (clk : Clock)
  (p : PlayerState) : PlayerState * list Projectile :=
  let p1 := shieldP lw rw ls rs p in
  let r2 := specialP side lw rw ls rs (nowSpecial clk) p1 in
  let r3 := if isShielding (fst r2) || isCharging (fst r2)
            then (set_hasSword false (fst r2), [])
            else swordP side lw rw (nowSword clk) (fst r2) in
  (fst r3, snd r2 ++ snd r3).

(** What the punch detection may change in a player record: the punch
    cooldown stamp and the wrist history. *)
Definition punchFrame (p p' : PlayerState) : Prop :=
  p' = set_prevWrists (prevWrists p') (set_lastPunchTime (lastPunchTime p') p).

Definition standardBy (side : Side) (pr : Projectile) : Prop :=
  exists sx sy, pr = standardProjectile side sx sy.

(** The punch phase of [processPlayer] from the record [p]: it ends in
    [p'] having pushed [lnew]; nothing happens when a gesture claimed the
    player. *)
Definition punchOutcome (side : Side) (p p' : PlayerState)
  (lnew : list Projectile) : Prop :=
  punchFrame p p' /\ Forall (standardBy side) lnew
  /\ (handBusy p = true -> p' = p /\ lnew = []).

(* ------------------------------------------------------------------ *)
(** ** The stages of a tick *)

(** The pose loop of [draw]: the result is [(detectedLeft, detectedRight)]. *)
Definition posePhase (clock : nat -> Clock) : M (bool * bool) :=
  fun state =>
    match poseResults state with
    | Some ((_ :: _) as landmarks) =>
        (poses <- mapPoses landmarks ;;
         forEachPose poses clock 0 (false, false)) state
    | _ => Ok (false, false) state
    end.

(** The record of a side that has no body in the frame. *)
Definition lost (p : PlayerState) : PlayerState :=
  resetPlayerAction (set_boundingBox None (set_detected false p)).

Definition markUndetected (det : bool * bool) (s : GameState) : GameState :=
  let s := if negb (fst det)
           then set_leftPlayer (lost (leftPlayer s)) s else s in
  let s := if negb (snd det)
           then if negb (isAI (rightPlayer s))
                then set_rightPlayer (lost (rightPlayer s)) s else s
           else set_rightPlayer (set_isAI false (rightPlayer s)) s in
  if fst det && negb (snd det)
  then set_rightPlayer (set_isAI true (rightPlayer s)) s else s.

Definition aiStage (s : GameState) : GameState :=
  if isAI (rightPlayer s)
  then match updateAI s with Ok _ s' => s' | TypeError => s end
  else s.

Definition projectileStage (s : GameState) : GameState :=
  set_projectiles (fst (sweep (projectiles s) s))
    (snd (sweep (projectiles s) s)).

Definition textStage (s : GameState) : GameState :=
  match updateFloatingText s with Ok _ s' => s' | TypeError => s end.

Definition gameOverStage (s : GameState) : GameState :=
  if (hp (leftPlayer s) <=? 0) || (hp (rightPlayer s) <=? 0)
  then set_isGameOver true s else s.

(** The state at the end of a tick whose pose loop ended in [s] with the
    detection flags [det]. *)
Definition finishTick (det : bool * bool) (s : GameState) : GameState :=
  gameOverStage
    (textStage (projectileStage (aiStage (markUndetected det s)))).

(* ------------------------------------------------------------------ *)
(** ** The bodies of a frame *)

(** [results.landmarks], empty when there is no result. *)
Definition frame (s : GameState) : list Pose :=
  match poseResults s with
  | Some ls => ls
  | None => []
  end.

(** [centerX] of a body; the default is never used on a body that
    [mapPoses] accepted. *)
Definition centerXOf (l : Pose) : Q :=
  match at_index l 11, at_index l 12 with
  | Some l11, Some l12 => (lm_x l11 + lm_x l12) / 2
  | _, _ => 0
  end.

(** The slot a body is assigned to: [isPlayer1] is the left player. *)
Definition sideOfCenter (centerX : Q) : Side :=
  if centerX >? 5 # 10 then sideLeft else sideRight.

Definition sideOfPose (l : Pose) : Side := sideOfCenter (centerXOf l).

Definition assignedTo (side : Side) (l : Pose) : bool :=
  Side_eqb (sideOfPose l) side.

Definition withCenter (l : Pose) : Pose * Q := (l, centerXOf l).

(** The detection flags after a body was assigned to [side]. *)
Definition mark (side : Side) (det : bool * bool) : bool * bool :=
  match side with
  | sideLeft => (true, snd det)
  | sideRight => (fst det, true)
  end.

Definition flagOf (side : Side) (det : bool * bool) : bool :=
  match side with
  | sideLeft => fst det
  | sideRight => snd det
  end.

Definition ownedBy (side : Side) (pr : Projectile) : bool :=
  Side_eqb (owner pr) side.

(** The body shows the asymmetric pose without the shield geometry. *)
Definition holdsChargePose (l : Pose) : bool :=
  match at_index l 15, at_index l 16, at_index l 11, at_index l 12 with
  | Some lw, Some rw, Some ls, Some rs =>
      isSpecialPoseRaw lw rw ls rs && negb (isShieldPose lw rw ls rs)
  | _, _, _, _ => false
  end.

(* ------------------------------------------------------------------ *)
(** ** Invariants of a player record *)

(** The action state of a player. *)
Definition action (p : PlayerState) : bool * bool * Z * Q * bool * Z :=
  (isShielding p, isCharging p, chargeStartTime p, chargeLevel p,
   hasSword p, lastPoseTime p).

(** The sword stance excludes the shield and the charge; shield and charge
    coexist only below full charge. *)
Definition flags_ok (p : PlayerState) : Prop :=
  (hasSword p = true -> isShielding p = false /\ isCharging p = false)
  /\ (isShielding p = true -> isCharging p = true -> chargeLevel p < 1).

(** The charge level is the clamped share of the charge window that elapsed
    between the start of the charge and the last tick the pose was held;
    [t] bounds the clock readings so far. *)
Definition charge_ok (t : Z) (p : PlayerState) : Prop :=
  (isCharging p = false -> chargeLevel p = 0)
  /\ (isCharging p = true ->
        (chargeStartTime p <= lastPoseTime p)%Z
        /\ chargeLevel p
           = chargeLevelAt (lastPoseTime p) (chargeStartTime p))
  /\ (lastPoseTime p <= t)%Z.

(* ------------------------------------------------------------------ *)
(** ** The damage table and the reachable states *)

(** The damage table as the specification words it: kind to direct and
    blocked damage, standard 2/0, special 10/3, sword 3/1. *)
Definition directDamage (k : AttackType) : Q :=
  match k with
  | standard => 2
  | special => 10
  | sword => 3
  end.

Definition blockedDamage (k : AttackType) : Q :=
  match k with
  | standard => 0
  | special => 3
  | sword => 1
  end.

Definition fromTable (pr : Projectile) : Prop :=
  damage pr = directDamage (type pr)
  /\ blockDamage pr = blockedDamage (type pr).

(** [Date.now()] does not go backwards: the readings of a tick start at or
    after [t], follow the order of the calls, and end at or before [t']. *)
Definition clock_from (t t' : Z) (clock : nat -> Clock) : Prop :=
  forall i,
    (t <= nowSpecial (clock i)
     /\ nowSpecial (clock i) <= nowSword (clock i)
     /\ nowSword (clock i) <= nowLeftHand (clock i)
     /\ nowLeftHand (clock i) <= nowRightHand (clock i)
     /\ nowRightHand (clock i) <= nowSpecial (clock (S i))
     /\ nowRightHand (clock i) <= t')%Z.

(** The states of a session: the pose subsystem overwrites the result
    slot, the reset button is pressed, or a frame is drawn.  The index is a
    bound on the clock readings so far. *)
Inductive reachable : Z -> GameState -> Prop :=
| reach_init (t : Z) :
    (0 <= t)%Z -> reachable t initialState
| reach_pose (t : Z) (s : GameState) (results : option (list Pose)) :
    reachable t s -> reachable t (set_poseResults results s)
| reach_reset (t : Z) (s : GameState) :
    reachable t s -> reachable t (resetGame s)
| reach_draw (t t' : Z) (clock : nat -> Clock) (s s' : GameState) :
    reachable t s -> clock_from t t' clock -> draw clock s = Ok tt s' ->
    reachable t' s'.

(** What holds of every reachable state; inside the pose loop the clause on
    the AI flag is kept only while no body was assigned to the right. *)
Definition loop_ok (t : Z) (det : bool * bool) (s : GameState) : Prop :=
  (forall side, flags_ok (player side s) /\ charge_ok t (player side s))
  /\ (snd det = false -> isAI (rightPlayer s) = true ->
      isCharging (rightPlayer s) = false)
  /\ Forall fromTable (projectiles s).

Definition state_ok (t : Z) (s : GameState) : Prop :=
  loop_ok t (false, false) s.

(** The states on which the simulator runs: a reachable state after the
    pose loop, the undetected handling and the AI update of a tick. *)
Definition atSimulation (s2 : GameState) : Prop :=
  exists t t' clock s det s1,
    reachable t s /\ clock_from t t' clock /\ isGameOver s = false
    /\ posePhase clock s = Ok det s1
    /\ s2 = aiStage (markUndetected det s1).

(** The entry of the damage table that applies to a hit. *)
Definition tableDamage (k : AttackType) (shielding : bool) : Q :=
  if shielding then blockedDamage k else directDamage k.

(* ------------------------------------------------------------------ *)
(** ** Sample data *)

(** A punch of the left player in flight, and one about to leave the
    canvas on the right. *)
Definition punchInFlight : Projectile := standardProjectile sideLeft 640 360.
Definition punchLeaving : Projectile := standardProjectile sideLeft 1375 360.

Definition stateInFlight : GameState :=
  set_projectiles [punchInFlight; punchLeaving] initialState.

(** Bodies of the left player (shoulder midpoint right of the centre of the
    camera image), at 33 landmarks each. *)
Definition landmarkAt (a b : Q) : Landmark := mkLandmark a b 0 None.

Definition filler : Landmark := landmarkAt (1 # 2) (1 # 2).

Definition body (ls rs lw rw lh rh : Landmark) : Pose :=
  repeat filler 11 ++ [ls; rs] ++ repeat filler 2 ++ [lw; rw]
  ++ repeat filler 6 ++ [lh; rh] ++ repeat filler 8.

Definition leftShoulderAt : Landmark := landmarkAt (7 # 10) (3 # 10).
Definition rightShoulderAt : Landmark := landmarkAt (6 # 10) (3 # 10).
Definition leftHipAt : Landmark := landmarkAt (7 # 10) (6 # 10).
Definition rightHipAt : Landmark := landmarkAt (6 # 10) (6 # 10).

Definition torso (lw rw : Landmark) : Pose :=
  body leftShoulderAt rightShoulderAt lw rw leftHipAt rightHipAt.

(** Left wrist raised, right wrist lowered, both far from the shoulders. *)
Definition chargePose : Pose :=
  torso (landmarkAt (9 # 10) (1 # 10)) (landmarkAt (5 # 10) (7 # 10)).

(** Both wrists just below the shoulders. *)
Definition shieldPose : Pose :=
  torso (landmarkAt (7 # 10) (35 # 100)) (landmarkAt (6 # 10) (35 # 100)).

(** A clock that does not advance during the tick. *)
Definition steady (t : Z) : nat -> Clock := fun _ => mkClock t t t t.

(** The state after the pose subsystem delivered [frame] and one frame was
    drawn at time [t]. *)
Definition runTick (t : Z) (frame : list Pose) (s : GameState) : GameState :=
  match draw (steady t) (set_poseResults (Some frame) s) with
  | Ok _ s' => s'
  | TypeError => s
  end.

Definition afterCharge : GameState :=
  Eval vm_compute in runTick 1000 [chargePose] initialState.

Definition afterShield : GameState :=
  Eval vm_compute in runTick 1016 [shieldPose] afterCharge.

(** C1 as stated: at most one of the three flags is true. *)
Definition exclusiveFlags (p : PlayerState) : Prop :=
  (isShielding p = true -> isCharging p = false /\ hasSword p = false)
  /\ (isCharging p = true -> hasSword p = false).

(** Both arms stretched sideways at chest height. *)
Definition leftFist : Landmark := landmarkAt 1 (35 # 100).
Definition rightFist : Landmark := landmarkAt (3 # 10) (35 # 100).
Definition punchPose : Pose := torso leftFist rightFist.

(** Whether a hand meets the height band, velocity and extension
    conditions of [checkHand]. *)
Definition handFires (handSide : Side) (wrist shoulder hip : Landmark)
  (scale : Root) (p : PlayerState) : bool :=
  negb (outsideChestBand wrist shoulder hip)
  && punchTrigger wrist shoulder scale (wrist_of handSide (prevWrists p)).

(** Both wrists lowered at the sides. *)
Definition restPose : Pose :=
  torso (landmarkAt (8 # 10) (7 # 10)) (landmarkAt (5 # 10) (7 # 10)).

(** The charge pose held from 1000 ms to 2600 ms. *)
Definition fullCharge : GameState :=
  Eval vm_compute in runTick 2600 [chargePose] afterCharge.

(** The pose [detectSpecial] counts as held: the asymmetric pose, without
    the shield geometry of this tick and without the sword stance. *)
Definition chargeHeld (lw rw ls rs : Landmark) (p : PlayerState) : bool :=
  isSpecialPoseRaw lw rw ls rs && negb (isShieldPose lw rw ls rs)
  && negb (hasSword p).

(** The charge held from 1000 ms to 2600 ms, then no body in the frame at
    2616 ms. *)
Definition afterLoss : GameState :=
  Eval vm_compute in runTick 2616 [] fullCharge.

(** The charge pose cut after the right wrist (the hips are missing), and
    cut after the left shoulder. *)
Definition partialPose : Pose := firstn 17 chargePose.
Definition stubPose : Pose := firstn 12 chargePose.

(** Both arms stretched sideways, the wrists a hundredth below the chest
    band on one tick and on its lower edge on the next. *)
Definition lowFist : Landmark := landmarkAt 1 (51 # 100).
Definition lowFistPose : Pose := torso lowFist (landmarkAt (3 # 10) (51 # 100)).
Definition chestFist : Landmark := landmarkAt 1 (50 # 100).
Definition chestFistPose : Pose :=
  torso chestFist (landmarkAt (3 # 10) (50 # 100)).

Definition afterLowFist : GameState :=
  Eval vm_compute in runTick 1000 [lowFistPose] initialState.

(* ------------------------------------------------------------------ *)
(** ** Further notions: health, match end and the scripted target *)

(** The test that ends the match at the end of [draw]. *)
Definition someoneDown (s : GameState) : bool :=
  (hp (leftPlayer s) <=? 0) || (hp (rightPlayer s) <=? 0).

(** The hurtbox [updateAI] gives the scripted target at height [vty]. *)
Definition aiBox (vty : Q) : BoundingBox :=
  mkBox (width * (85 # 100) - 120 / 2) (vty * height - 120 / 2)
        (width * (85 # 100) + 120 / 2) (vty * height + 120 / 2).

(** The sweep of the scripted target: within half a step of the band
    [0.3, 0.7], at the fixed speed, heading back once past a bound. *)
Definition sweep_ok (s : GameState) : Prop :=
  (295 # 1000 <= virtualTargetY s /\ virtualTargetY s <= 705 # 1000)
  /\ (virtualTargetSpeed s == 5 # 1000
      \/ virtualTargetSpeed s == - (5 # 1000))
  /\ (7 # 10 < virtualTargetY s -> virtualTargetSpeed s < 0)
  /\ (virtualTargetY s < 3 # 10 -> 0 < virtualTargetSpeed s).

(** The fields of the state outside the player records and the projectile
    list. *)
Definition scenery (s : GameState)
  : list FloatingText * option (list Pose) * Q * Q * bool :=
  (floatingTexts s, poseResults s, virtualTargetY s, virtualTargetSpeed s,
   isGameOver s).


(** The horizontal speed each kind of projectile is launched with. *)
Definition vxOf (side : Side) (k : AttackType) : Q :=
  match k with
  | standard => dir side * PROJECTILE_SPEED
  | special => dir side * SPECIAL_SPEED
  | sword => dir side * PROJECTILE_SPEED * (12 # 10)
  end.

(** A projectile as the three launch sites make it. *)
Definition inFlight (pr : Projectile) : Prop :=
  active pr = true /\ vy pr = 0 /\ vx pr = vxOf (owner pr) (type pr).

(** A projectile that survives, respectively strikes, in the state [s]. *)
Definition flies (s : GameState) (pr : Projectile) : bool :=
  match verdict pr s with Flying => true | _ => false end.

Definition strikes (s : GameState) (pr : Projectile) : bool :=
  match verdict pr s with Struck => true | _ => false end.

(** The damage the projectiles of [l] that strike do to the player of
    [side], by the table. *)
Definition damageTo (side : Side) (s : GameState) (l : list Projectile) : Q :=
  fold_right Qplus 0
    (map (fun pr => tableDamage (type pr) (isShielding (player side s)))
       (filter (fun pr => strikes s pr && aimedAt side pr) l)).

(** A floating text as a strike makes it, and one on screen. *)
Definition freshText (ft : FloatingText) : Prop :=
  ft_life ft = 40%Z /\ ft_maxLife ft = 40%Z /\ ft_vy ft = -3.

Definition shownText (ft : FloatingText) : Prop :=
  (0 < ft_life ft <= 39)%Z /\ ft_maxLife ft = 40%Z /\ ft_vy ft = -3.

Definition isKind (k : AttackType) (pr : Projectile) : bool :=
  AttackType_eqb (type pr) k.

(** One call of [checkHand] on the record [p]: it returns at a guard, or
    it reads its three landmarks and does what [handP] says. *)
Definition handStep (side : Side) (landmarks : Pose) (handSide : Side)
  (iw ish ihi : nat) (scale : Root) (now : Z) (p p' : PlayerState)
  (l : list Projectile) : Prop :=
  (handBusy p || coolingDown now p = true /\ p' = p /\ l = [])
  \/ (handBusy p = false /\ coolingDown now p = false
      /\ exists wr sh hi,
           at_index landmarks iw = Some wr
           /\ at_index landmarks ish = Some sh
           /\ at_index landmarks ihi = Some hi
           /\ p' = fst (handP side handSide wr sh hi scale now p)
           /\ l = snd (handP side handSide wr sh hi scale now p)).

(** One call of [detectPunch]: the left hand, then the right. *)
Definition punchSteps (side : Side) (landmarks : Pose) (nowLeft nowRight : Z)
  (p p' : PlayerState) (l : list Projectile) : Prop :=
  exists ls rs lh p1 l1 l2,
    at_index landmarks 11 = Some ls /\ at_index landmarks 12 = Some rs
    /\ at_index landmarks 23 = Some lh
    /\ handStep side landmarks sideLeft 15 11 23 (bodyScale ls rs lh)
         nowLeft p p1 l1
    /\ handStep side landmarks sideRight 16 12 24 (bodyScale ls rs lh)
         nowRight p1 p' l2
    /\ l = l1 ++ l2.

(** The punch phase of [processPlayer] from the record [g] the three
    detections leave. *)
Definition punchPhase (side : Side) (landmarks : Pose) (clk : Clock)
  (g p' : PlayerState) (l : list Projectile) : Prop :=
  (handBusy g = true /\ p' = g /\ l = [])
  \/ (handBusy g = false
      /\ punchSteps side landmarks (nowLeftHand clk) (nowRightHand clk)
           g p' l).

(** The hurtbox of [side] after the bodies [ls] were processed in order,
    from the hurtbox [b]: each body assigned to the side overwrites it. *)
Definition boxAfter (side : Side) (ls : list Pose) (b : option BoundingBox)
  : option BoundingBox :=
  fold_left (fun b l => if assignedTo side l then Some (hitbox l) else b) ls b.

(** The last body of the frame assigned to [side]. *)
Definition lastAssigned (side : Side) (ls : list Pose) : option Pose :=
  fold_left (fun acc l => if assignedTo side l then Some l else acc) ls None.

(** The landmarks every call of [processPlayer] reads. *)
Definition hasUpperBody (l : Pose) : bool :=
  forallb (fun i => match at_index l i with
                    | Some _ => true
                    | None => false
                    end) [11; 12; 15; 16]%nat.

(* ------------------------------------------------------------------ *)
(** ** Further sample data *)

(** The record after one call of [processPlayer]. *)
Definition runPlayer (side : Side) (landmarks : Pose) (clk : Clock)
  (s : GameState) : GameState :=
  match processPlayer side landmarks clk s with
  | Ok _ s' => s'
  | TypeError => s
  end.

(** A session played from a script of frames with their times. *)
Fixpoint play (script : list (Z * list Pose)) (t : Z) (s : GameState)
  : option (Z * GameState) :=
  match script with
  | [] => Some (t, s)
  | (t', f) :: rest =>
      if (t <=? t')%Z then
        match draw (steady t') (set_poseResults (Some f) s) with
        | Ok _ s' => play rest t' s'
        | TypeError => None
        end
      else None
  end.

(** The left arm stretched across the body at chest height: the punch
    starts next to the scripted target. *)
Definition reachPose : Pose :=
  torso (landmarkAt (2 # 10) (5 # 10)) (landmarkAt (3 # 10) (5 # 10)).

Definition releasePose : Pose :=
  torso (landmarkAt (1 # 10) (5 # 10)) (landmarkAt (3 # 10) (5 # 10)).

Definition afterHit : GameState :=
  Eval vm_compute in runTick 1000 [reachPose] initialState.

Definition afterPunch : GameState :=
  Eval vm_compute in runTick 1000 [chestFistPose] initialState.

Definition shot : Projectile :=
  Eval vm_compute in hd punchInFlight (projectiles afterPunch).

Definition hitMark : FloatingText :=
  Eval vm_compute in
    hd (mkFloatingText 0 0 txtBlocked "" 0 0 0) (floatingTexts afterHit).

(** The sword stance, and the same with the hands a tenth lower. *)
Definition stancePose : Pose :=
  torso (landmarkAt (65 # 100) (6 # 10)) (landmarkAt (62 # 100) (6 # 10)).
Definition swingPose : Pose :=
  torso (landmarkAt (65 # 100) (7 # 10)) (landmarkAt (62 # 100) (7 # 10)).

Definition afterStance : GameState :=
  Eval vm_compute in runTick 1000 [stancePose] initialState.

Definition afterSwing : GameState :=
  Eval vm_compute in
    runPlayer sideLeft swingPose (steady 1816 0%nat) afterStance.

Definition processedCharge : GameState :=
  Eval vm_compute in
    runPlayer sideLeft chargePose (steady 1000 0%nat) initialState.

Definition processedRelease : GameState :=
  Eval vm_compute in
    runPlayer sideLeft restPose (steady 2616 0%nat) fullCharge.

Definition releasedShot : Projectile :=
  Eval vm_compute in hd punchInFlight (projectiles processedRelease).

Definition beam : Projectile :=
  Eval vm_compute in hd punchInFlight (projectiles afterSwing).

Definition processedPunch : GameState :=
  Eval vm_compute in
    runPlayer sideLeft punchPose (steady 1000 0%nat) initialState.

Definition processedRest : GameState :=
  Eval vm_compute in
    runPlayer sideLeft restPose (steady 1016 0%nat) afterCharge.

Definition punched : GameState :=
  Eval vm_compute in
    match detectPunch sideLeft punchPose 1000 1000 initialState with
    | Ok _ s' => s'
    | TypeError => initialState
    end.

(** Ten rounds of charging for 1.5 s and releasing next to the target. *)
Definition chargeRound (t : Z) : list (Z * list Pose) :=
  [(t, [chargePose]); (t + 1500, [chargePose]);
   (t + 1516, [releasePose])]%Z.

Fixpoint rounds (n : nat) (t : Z) : list (Z * list Pose) :=
  match n with
  | O => []
  | S n => chargeRound t ++ rounds n (t + 2000)
  end.

Definition afterMatch : GameState :=
  Eval vm_compute in
    match play (rounds 10 1000) 0 initialState with
    | Some (_, s) => s
    | None => initialState
    end.

(** The shield raised 16 ms into a charge. *)
Definition processedShield : GameState :=
  Eval vm_compute in
    runPlayer sideLeft shieldPose (steady 1016 0%nat) afterCharge.

(** A body of the right player in the shield geometry. *)
Definition guardPose : Pose :=
  body (landmarkAt (3 # 10) (3 # 10)) (landmarkAt (2 # 10) (3 # 10))
       (landmarkAt (3 # 10) (35 # 100)) (landmarkAt (2 # 10) (35 # 100))
       (landmarkAt (3 # 10) (6 # 10)) (landmarkAt (2 # 10) (6 # 10)).

(** The charge pose held from 1000 ms to 2500 ms: a full charge. *)
Definition charged : GameState :=
  Eval vm_compute in
    match play [(1000%Z, [chargePose]); (2500%Z, [chargePose])]
            0 initialState with
    | Some (_, s) => s
    | None => initialState
    end.

(** The release at 2516 ms next to the scripted target, and the same
    release with a shielding body in the right slot: the state after the
    pose loop and the state after the frame. *)
Definition openFrame : GameState :=
  set_poseResults (Some [releasePose]) charged.

Definition guardedFrame : GameState :=
  set_poseResults (Some [releasePose; guardPose]) charged.

Definition posedOpen : GameState :=
  Eval vm_compute in
    match posePhase (steady 2516) openFrame with
    | Ok _ s1 => s1
    | TypeError => charged
    end.

Definition posedGuarded : GameState :=
  Eval vm_compute in
    match posePhase (steady 2516) guardedFrame with
    | Ok _ s1 => s1
    | TypeError => charged
    end.

Definition afterOpenHit : GameState :=
  Eval vm_compute in runTick 2516 [releasePose] charged.

Definition afterGuardedHit : GameState :=
  Eval vm_compute in runTick 2516 [releasePose; guardPose] charged.

(* ------------------------------------------------------------------ *)
(** ** Properties: numbers *)

Lemma Qltb_lt (a b : Q) : (a <? b) = true <-> a < b.
Proof.
  unfold Qltb. rewrite negb_true_iff, <- not_true_iff_false, Qle_bool_iff.
  split; [apply Qnot_le_lt | apply Qlt_not_le].
Qed.

Lemma Qltb_ge (a b : Q) : (a <? b) = false <-> b <= a.
Proof.
  unfold Qltb. rewrite negb_false_iff. apply Qle_bool_iff.
Qed.

Lemma Qgtb_gt (a b : Q) : (a >? b) = true <-> b < a.
Proof. apply Qltb_lt. Qed.

Lemma Qgtb_le (a b : Q) : (a >? b) = false <-> a <= b.
Proof. apply Qltb_ge. Qed.

Lemma Qgeb_ge (a b : Q) : (a >=? b) = true <-> b <= a.
Proof. apply Qle_bool_iff. Qed.

Lemma Qgeb_lt (a b : Q) : (a >=? b) = false <-> a < b.
Proof.
  unfold Qgeb. rewrite <- not_true_iff_false, Qle_bool_iff.
  split; [apply Qnot_le_lt | apply Qlt_not_le].
Qed.

(* ------------------------------------------------------------------ *)
(** ** Properties: the projectile loop *)

Lemma updateProjectile_verdict (proj : Projectile) (s : GameState) :
  updateProjectile proj s =
  match verdict proj s with
  | Gone => Ok None s
  | Struck => Ok None (strike (advance proj) s)
  | Flying => Ok (Some (advance proj)) s
  end.
Proof.
  unfold updateProjectile, verdict.
  destruct (outOfBounds (advance proj)); [reflexivity|].
  unfold bind at 1. unfold getPlayer at 1.
  destruct (boundingBox (player (opponent (owner (advance proj))) s))
    as [bbox|]; [|reflexivity].
  destruct (overlaps (advance proj) bbox); [|reflexivity].
  unfold strike, bind, assign, push_floatingText, ret.
  destruct (actualDamage (advance proj)
              (player (opponent (owner (advance proj))) s) >? 0);
    reflexivity.
Qed.

(** Fields a strike leaves alone. *)
Lemma strike_frame (proj : Projectile) (s : GameState) :
  projectiles (strike proj s) = projectiles s
  /\ (forall side,
        player side (strike proj s)
        = set_hp (hp (player side (strike proj s))) (player side s))
  /\ hp (player (owner proj) (strike proj s)) = hp (player (owner proj) s).
Proof.
  unfold strike.
  destruct (actualDamage proj (player (opponent (owner proj)) s) >? 0).
  - repeat split.
    + destruct (owner proj); reflexivity.
    + intros side. destruct side, (owner proj), s as [[] [] ? ? ? ? ? ?];
        reflexivity.
    + destruct (owner proj); reflexivity.
  - repeat split. intros side.
    destruct side, s as [[] [] ? ? ? ? ? ?]; reflexivity.
Qed.

Lemma set_hp_boundingBox (v : Q) (p : PlayerState) :
  boundingBox (set_hp v p) = boundingBox p.
Proof. reflexivity. Qed.

Lemma strike_boundingBox (proj : Projectile) (s : GameState) (side : Side) :
  boundingBox (player side (strike proj s)) = boundingBox (player side s).
Proof.
  destruct (strike_frame proj s) as (_ & H & _). rewrite (H side).
  reflexivity.
Qed.

Lemma verdict_strike (proj q : Projectile) (s : GameState) :
  verdict proj (strike q s) = verdict proj s.
Proof.
  unfold verdict. rewrite strike_boundingBox. reflexivity.
Qed.

Lemma updateProjectilesLoop_sweep (l : list Projectile) (s : GameState) :
  updateProjectilesLoop l s = Ok (fst (sweep l s)) (snd (sweep l s)).
Proof.
  induction l as [|proj rest IH]; [reflexivity|].
  cbn [updateProjectilesLoop sweep]. unfold bind at 1. rewrite IH.
  unfold bind at 1. rewrite updateProjectile_verdict.
  destruct (verdict proj (snd (sweep rest s))); reflexivity.
Qed.

Lemma updateProjectiles_sweep (s : GameState) :
  updateProjectiles s
  = Ok tt (set_projectiles (fst (sweep (projectiles s) s))
             (snd (sweep (projectiles s) s))).
Proof.
  unfold updateProjectiles, bind, get.
  rewrite updateProjectilesLoop_sweep. reflexivity.
Qed.

Lemma set_hp_trans (p q r : PlayerState) :
  q = set_hp (hp q) p -> r = set_hp (hp r) q -> r = set_hp (hp r) p.
Proof. intros H1 H2. rewrite H2 at 1. rewrite H1 at 1. reflexivity. Qed.

Lemma sweep_player (l : list Projectile) (s : GameState) (side : Side) :
  player side (snd (sweep l s))
  = set_hp (hp (player side (snd (sweep l s)))) (player side s).
Proof.
  induction l as [|proj rest IH]; cbn [sweep].
  - cbn [snd]. destruct (player side s); reflexivity.
  - destruct (verdict proj (snd (sweep rest s))); cbn [snd]; try exact IH.
    destruct (strike_frame (advance proj) (snd (sweep rest s)))
      as (_ & H & _).
    exact (set_hp_trans _ _ _ IH (H side)).
Qed.

Lemma sweep_boundingBox (l : list Projectile) (s : GameState) (side : Side) :
  boundingBox (player side (snd (sweep l s))) = boundingBox (player side s).
Proof. rewrite sweep_player. reflexivity. Qed.

Lemma verdict_sweep (proj : Projectile) (l : list Projectile) (s : GameState) :
  verdict proj (snd (sweep l s)) = verdict proj s.
Proof. unfold verdict. rewrite sweep_boundingBox. reflexivity. Qed.

Lemma sweep_projectiles (l : list Projectile) (s : GameState) :
  projectiles (snd (sweep l s)) = projectiles s.
Proof.
  induction l as [|proj rest IH]; cbn [sweep]; [reflexivity|].
  destruct (verdict proj (snd (sweep rest s))); cbn [snd]; try exact IH.
  destruct (strike_frame (advance proj) (snd (sweep rest s))) as (H & _).
  now rewrite H.
Qed.

(** The loop does not read [state.projectiles] beyond the index it is at. *)
Lemma strike_set_projectiles (q : Projectile) (l : list Projectile)
  (s : GameState) :
  strike q (set_projectiles l s) = set_projectiles l (strike q s).
Proof.
  unfold strike.
  replace (player (opponent (owner q)) (set_projectiles l s))
    with (player (opponent (owner q)) s) by (destruct (owner q); reflexivity).
  destruct (actualDamage q (player (opponent (owner q)) s) >? 0);
    [destruct (owner q)|]; reflexivity.
Qed.

Lemma sweep_set_projectiles (l l0 : list Projectile) (s : GameState) :
  sweep l (set_projectiles l0 s)
  = (fst (sweep l s), set_projectiles l0 (snd (sweep l s))).
Proof.
  induction l as [|proj rest IH]; cbn [sweep]; [reflexivity|].
  rewrite IH. cbn [fst snd].
  replace (verdict proj (set_projectiles l0 (snd (sweep rest s))))
    with (verdict proj (snd (sweep rest s)))
    by (unfold verdict; destruct (owner (advance proj)); reflexivity).
  destruct (verdict proj (snd (sweep rest s))); cbn [fst snd];
    try reflexivity.
  now rewrite strike_set_projectiles.
Qed.

Lemma set_projectiles_twice (l l0 : list Projectile) (s : GameState) :
  set_projectiles l (set_projectiles l0 s) = set_projectiles l s.
Proof. reflexivity. Qed.

(** Survivors are advanced projectiles of the list that stayed in bounds. *)
Lemma sweep_survivors (l : list Projectile) (s : GameState) (q : Projectile) :
  In q (fst (sweep l s)) ->
  exists proj, In proj l /\ q = advance proj /\ verdict proj s = Flying.
Proof.
  induction l as [|proj rest IH]; cbn [sweep]; [intros []|].
  destruct (verdict proj (snd (sweep rest s))) eqn:V; cbn [fst];
    rewrite verdict_sweep in V.
  - intros H. destruct (IH H) as (p & Hp & E). exists p. split; [now right|exact E].
  - intros H. destruct (IH H) as (p & Hp & E). exists p. split; [now right|exact E].
  - intros [H|H].
    + exists proj. repeat split; [now left|now symmetry|exact V].
    + destruct (IH H) as (p & Hp & E). exists p. split; [now right|exact E].
Qed.

Lemma verdict_Flying_inbounds (proj : Projectile) (s : GameState) :
  verdict proj s = Flying -> outOfBounds (advance proj) = false.
Proof.
  unfold verdict. destruct (outOfBounds (advance proj)); [discriminate|reflexivity].
Qed.

Lemma verdict_Gone (proj : Projectile) (s : GameState) :
  outOfBounds (advance proj) = true -> verdict proj s = Gone.
Proof. unfold verdict. now intros ->. Qed.

(** A projectile that leaves the canvas counts for nothing in the loop. *)
Lemma sweep_drop_gone (l1 l2 : list Projectile) (proj : Projectile)
  (s : GameState) :
  outOfBounds (advance proj) = true ->
  sweep (l1 ++ proj :: l2) s = sweep (l1 ++ l2) s.
Proof.
  intros H. induction l1 as [|q l1 IH]; cbn [app sweep].
  - now rewrite (verdict_Gone _ _ H).
  - now rewrite IH.
Qed.

Lemma sweep_complete (l : list Projectile) (s : GameState) (proj : Projectile) :
  In proj l -> verdict proj s = Flying -> In (advance proj) (fst (sweep l s)).
Proof.
  intros Hin V. induction l as [|q rest IH]; [destruct Hin|].
  cbn [sweep]. destruct Hin as [->|Hin].
  - rewrite verdict_sweep, V. now left.
  - destruct (verdict q (snd (sweep rest s))); cbn [fst]; auto. right; auto.
Qed.

(** C4.  Each tick moves a projectile by exactly its velocity; the
    projectiles left in the list are the advanced ones that stayed within
    the margin of the canvas, and every advanced projectile that neither
    left the canvas nor struck is kept; a projectile that crosses the margin
    is spliced out by an iteration that changes nothing else (no damage, no
    floating text), and the tick ends in the very state it would have
    reached without that projectile. *)
Theorem projectile_motion_and_bounds (s : GameState) :
  exists s',
    updateProjectiles s = Ok tt s'
    /\ (forall q, In q (projectiles s') ->
          exists proj, In proj (projectiles s) /\ q = advance proj
                       /\ x q = x proj + vx proj /\ y q = y proj + vy proj
                       /\ outOfBounds q = false)
    /\ (forall proj, In proj (projectiles s) -> verdict proj s = Flying ->
          In (advance proj) (projectiles s'))
    /\ (forall l1 proj l2,
          projectiles s = l1 ++ proj :: l2 ->
          outOfBounds (advance proj) = true ->
          (forall s0, updateProjectile proj s0 = Ok None s0)
          /\ updateProjectiles (set_projectiles (l1 ++ l2) s) = Ok tt s').
Proof.
  eexists. split; [apply updateProjectiles_sweep|]. split; [|split].
  - cbn [projectiles set_projectiles]. intros q Hq.
    destruct (sweep_survivors _ _ _ Hq) as (proj & Hin & -> & V).
    exists proj. repeat split; trivial.
    exact (verdict_Flying_inbounds _ _ V).
  - cbn [projectiles set_projectiles]. apply sweep_complete.
  - intros l1 proj l2 E Hout. split.
    + intros s0. rewrite updateProjectile_verdict.
      now rewrite (verdict_Gone _ _ Hout).
    + rewrite updateProjectiles_sweep. cbn [projectiles set_projectiles].
      rewrite sweep_set_projectiles. cbn [fst snd].
      rewrite set_projectiles_twice, E.
      now rewrite (sweep_drop_gone _ _ _ _ Hout).
Qed.

Lemma projectile_motion_and_bounds_witness :
  exists s',
    updateProjectiles stateInFlight = Ok tt s'
    /\ In (advance punchInFlight) (projectiles s')
    /\ updateProjectiles (set_projectiles [punchInFlight] stateInFlight)
       = Ok tt s'.
Proof.
  destruct (projectile_motion_and_bounds stateInFlight)
    as (s' & Hrun & _ & Hkept & Hgone).
  exists s'. split; [exact Hrun|]. split.
  - apply Hkept; [now left | reflexivity].
  - apply (Hgone [punchInFlight] punchLeaving []); reflexivity.
Defined.

(* ------------------------------------------------------------------ *)
(** ** Properties: a player without a hurtbox *)

Lemma aimedAt_advance (side : Side) (proj : Projectile) :
  aimedAt side (advance proj) = aimedAt side proj.
Proof. reflexivity. Qed.

Lemma aimedAt_true (side : Side) (proj : Projectile) :
  aimedAt side proj = true -> opponent (owner proj) = side.
Proof. unfold aimedAt. destruct (owner proj), side; now cbn. Qed.

Lemma aimedAt_false (side : Side) (proj : Projectile) :
  aimedAt side proj = false -> owner proj = side.
Proof. unfold aimedAt. destruct (owner proj), side; now cbn. Qed.

Lemma verdict_no_box (side : Side) (proj : Projectile) (s : GameState) :
  boundingBox (player side s) = None ->
  aimedAt side proj = true ->
  verdict proj s = if outOfBounds (advance proj) then Gone else Flying.
Proof.
  intros Hbox Haim. unfold verdict.
  destruct (outOfBounds (advance proj)); [reflexivity|].
  change (owner (advance proj)) with (owner proj).
  now rewrite (aimedAt_true _ _ Haim), Hbox.
Qed.

Lemma sweep_no_box_state (side : Side) (l : list Projectile) (s : GameState) :
  boundingBox (player side s) = None ->
  snd (sweep l s)
  = snd (sweep (filter (fun proj => negb (aimedAt side proj)) l) s).
Proof.
  intros Hbox. induction l as [|proj rest IH]; [reflexivity|].
  cbn [sweep filter]. rewrite verdict_sweep.
  destruct (aimedAt side proj) eqn:Haim; cbn [negb].
  - rewrite (verdict_no_box _ _ _ Hbox Haim).
    destruct (outOfBounds (advance proj)); exact IH.
  - cbn [sweep]. rewrite verdict_sweep.
    destruct (verdict proj s); cbn [snd]; now rewrite IH.
Qed.

Lemma sweep_no_box_kept (side : Side) (l : list Projectile) (s : GameState) :
  boundingBox (player side s) = None ->
  filter (aimedAt side) (fst (sweep l s))
  = map advance (filter inBoundsNext (filter (aimedAt side) l)).
Proof.
  intros Hbox. induction l as [|proj rest IH]; [reflexivity|].
  cbn [sweep filter]. rewrite verdict_sweep.
  destruct (aimedAt side proj) eqn:Haim.
  - rewrite (verdict_no_box _ _ _ Hbox Haim). cbn [filter].
    unfold inBoundsNext at 1.
    destruct (outOfBounds (advance proj)); cbn [negb fst filter map].
    + exact IH.
    + rewrite aimedAt_advance, Haim. now rewrite IH.
  - destruct (verdict proj s); cbn [fst filter]; try exact IH.
    now rewrite aimedAt_advance, Haim.
Qed.

Lemma sweep_no_box_hp (side : Side) (l : list Projectile) (s : GameState) :
  boundingBox (player side s) = None ->
  hp (player side (snd (sweep l s))) = hp (player side s).
Proof.
  intros Hbox. induction l as [|proj rest IH]; [reflexivity|].
  cbn [sweep]. rewrite verdict_sweep.
  destruct (verdict proj s) eqn:V; cbn [snd]; try exact IH.
  destruct (aimedAt side proj) eqn:Haim.
  - rewrite (verdict_no_box _ _ _ Hbox Haim) in V.
    destruct (outOfBounds (advance proj)); discriminate.
  - destruct (strike_frame (advance proj) (snd (sweep rest s)))
      as (_ & _ & H).
    change (owner (advance proj)) with (owner proj) in H.
    rewrite (aimedAt_false _ _ Haim) in H. now rewrite H.
Qed.

(** C10.  While the hurtbox of a player is null, the projectile update
    leaves that player's hp as it was; the projectiles aimed at the player
    are kept, advanced, exactly when they stay within the margin of the
    canvas; and the floating texts and both player records come out as if
    those projectiles had not been in the list at all. *)
Theorem null_hurtbox_no_collision (s : GameState) (side : Side) :
  boundingBox (player side s) = None ->
  exists s',
    updateProjectiles s = Ok tt s'
    /\ hp (player side s') = hp (player side s)
    /\ filter (aimedAt side) (projectiles s')
       = map advance (filter inBoundsNext
                        (filter (aimedAt side) (projectiles s)))
    /\ exists s'',
         updateProjectiles
           (set_projectiles
              (filter (fun proj => negb (aimedAt side proj)) (projectiles s))
              s) = Ok tt s''
         /\ floatingTexts s' = floatingTexts s''
         /\ leftPlayer s' = leftPlayer s''
         /\ rightPlayer s' = rightPlayer s''.
Proof.
  intros Hbox. eexists. split; [apply updateProjectiles_sweep|].
  split; [|split].
  - rewrite <- (sweep_no_box_hp side (projectiles s) s Hbox).
    destruct side; reflexivity.
  - cbn [projectiles set_projectiles]. now apply sweep_no_box_kept.
  - eexists. split; [apply updateProjectiles_sweep|].
    cbn [projectiles set_projectiles]. rewrite sweep_set_projectiles.
    cbn [fst snd]. rewrite <- (sweep_no_box_state side _ s Hbox).
    repeat split.
Qed.

Lemma null_hurtbox_no_collision_witness :
  exists s',
    updateProjectiles stateInFlight = Ok tt s'
    /\ hp (rightPlayer s') = hp (rightPlayer stateInFlight)
    /\ filter (aimedAt sideRight) (projectiles s') = [advance punchInFlight].
Proof.
  destruct (null_hurtbox_no_collision stateInFlight sideRight eq_refl)
    as (s' & Hrun & Hhp & Hkept & _).
  exists s'. split; [exact Hrun|]. split; [exact Hhp|].
  rewrite Hkept. reflexivity.
Defined.

(* ------------------------------------------------------------------ *)
(** ** Properties: weakest preconditions *)

Section WP.

Context (e : Prop) (side : Side) (s0 : GameState).

Lemma commit_player (p : PlayerState) (l : list Projectile) :
  player side (commit side p l s0) = p.
Proof. destruct side; reflexivity. Qed.

Lemma commit_other (p : PlayerState) (l : list Projectile) :
  player (opponent side) (commit side p l s0) = player (opponent side) s0.
Proof. destruct side; reflexivity. Qed.

Lemma commit_projectiles (p : PlayerState) (l : list Projectile) :
  projectiles (commit side p l s0) = projectiles s0 ++ l.
Proof. destruct side; reflexivity. Qed.

Lemma wp_ret {A} (a : A) Q p l : Q a p l -> wp e side s0 (ret a) Q p l.
Proof. intros H. unfold wp, ret. eauto. Qed.

Lemma wp_bind {A B} (m : M A) (k : A -> M B) Q p l :
  wp e side s0 m (fun a p' l' => wp e side s0 (k a) Q p' l') p l ->
  wp e side s0 (bind m k) Q p l.
Proof.
  unfold wp, bind. destruct (m (commit side p l s0)) as [a s'|]; [|trivial].
  intros (p' & l' & -> & H). exact H.
Qed.

Lemma wp_assign (f : PlayerState -> PlayerState) Q p l :
  Q tt (f p) l -> wp e side s0 (assign side f) Q p l.
Proof.
  intros H. unfold wp, assign. exists (f p), l. split; [|exact H].
  destruct side; reflexivity.
Qed.

Lemma wp_getPlayer Q p l :
  Q p p l -> wp e side s0 (getPlayer side) Q p l.
Proof.
  intros H. unfold wp, getPlayer. rewrite commit_player. eauto.
Qed.

Lemma wp_push (pr : Projectile) Q p l :
  Q tt p (l ++ [pr]) -> wp e side s0 (push_projectile pr) Q p l.
Proof.
  intros H. unfold wp, push_projectile. exists p, (l ++ [pr]).
  split; [|exact H]. rewrite commit_projectiles, <- app_assoc.
  destruct side; reflexivity.
Qed.

Lemma wp_deref (o : option Landmark) Q p l :
  with_opt e o (fun v => Q v p l) -> wp e side s0 (deref o) Q p l.
Proof. unfold with_opt, wp. destruct o; cbn; eauto. Qed.

Lemma wp_conseq {A} (m : M A) (Q Q' : A -> PlayerState -> list Projectile -> Prop)
  p l :
  wp e side s0 m Q p l ->
  (forall a p' l', Q a p' l' -> Q' a p' l') ->
  wp e side s0 m Q' p l.
Proof.
  unfold wp. destruct (m (commit side p l s0)); [|trivial].
  intros (p' & l' & E & H) HQ. eauto.
Qed.

Lemma with_opt_conseq (o : option Landmark) (k k' : Landmark -> Prop) :
  with_opt e o k ->
  (forall v, o = Some v -> k v -> k' v) ->
  with_opt e o k'.
Proof. unfold with_opt. destruct o; auto. Qed.

End WP.

Ltac wp_step :=
  lazymatch goal with
  | |- wp _ _ _ (bind _ _) _ _ _ => apply wp_bind
  | |- wp _ _ _ (ret _) _ _ _ => apply wp_ret
  | |- wp _ _ _ (assign _ _) _ _ _ => apply wp_assign
  | |- wp _ _ _ (getPlayer _) _ _ _ => apply wp_getPlayer
  | |- wp _ _ _ (push_projectile _) _ _ _ => apply wp_push
  | |- wp _ _ _ (deref _) _ _ _ => apply wp_deref
  end.

Ltac wp_land v E :=
  match goal with
  | H : with_opt _ _ _ |- with_opt _ _ _ =>
      eapply with_opt_conseq; [exact H|]; clear H; cbv beta;
      intros v E ?
  end.

Section Classifier.

Context (e : Prop) (side : Side) (s0 : GameState).

Lemma detectShield_wp (landmarks : Pose) Q p l :
  with_opt e (at_index landmarks 15) (fun lw =>
  with_opt e (at_index landmarks 16) (fun rw =>
  with_opt e (at_index landmarks 11) (fun ls =>
  with_opt e (at_index landmarks 12) (fun rs =>
    Q tt (shieldP lw rw ls rs p) l)))) ->
  wp e side s0 (detectShield side landmarks) Q p l.
Proof.
  intros H. unfold detectShield.
  repeat wp_step. wp_land lw Elw. repeat wp_step. wp_land rw Erw.
  repeat wp_step. wp_land ls Els. repeat wp_step. wp_land rs Ers.
  unfold shieldP, isShieldPose in *.
  match goal with |- context [if ?c then _ else _] => destruct c end;
    repeat wp_step; assumption.
Qed.

Lemma fireSpecial_wp (landmarks : Pose) Q p l :
  with_opt e (at_index landmarks 15) (fun lw =>
  with_opt e (at_index landmarks 16) (fun rw =>
    Q tt p (l ++ [specialProjectile side ((1 - midX lw rw) * width)
                    (midY lw rw * height)]))) ->
  wp e side s0 (fireSpecial side landmarks) Q p l.
Proof.
  intros H. unfold fireSpecial.
  repeat wp_step. wp_land lw Elw. repeat wp_step. wp_land rw Erw.
  repeat wp_step. assumption.
Qed.

Lemma detectSpecial_wp (landmarks : Pose) (now : Z) Q p l :
  with_opt e (at_index landmarks 15) (fun lw =>
  with_opt e (at_index landmarks 16) (fun rw =>
  with_opt e (at_index landmarks 11) (fun ls =>
  with_opt e (at_index landmarks 12) (fun rs =>
    Q tt (fst (specialP side lw rw ls rs now p))
         (l ++ snd (specialP side lw rw ls rs now p)))))) ->
  wp e side s0 (detectSpecial side landmarks now) Q p l.
Proof.
  intros H. unfold detectSpecial.
  repeat wp_step. wp_land lw Elw. repeat wp_step. wp_land rw Erw.
  repeat wp_step. wp_land ls Els. repeat wp_step. wp_land rs Ers.
  unfold specialP, isHoldingPose, discharged in *.
  match goal with |- context [if ?c then _ else _] => destruct c end.
  - destruct (negb (isCharging p)); repeat wp_step;
      cbn [fst snd] in *; rewrite app_nil_r in *; assumption.
  - destruct (isCharging p).
    + destruct (chargeLevel p >=? 1).
      * wp_step. apply fireSpecial_wp.
        unfold with_opt. rewrite Elw, Erw. repeat wp_step. assumption.
      * destruct (now - lastPoseTime p >? CHARGE_GRACE_PERIOD)%Z;
          repeat wp_step; cbn [fst snd] in *; rewrite app_nil_r in *;
          assumption.
    + repeat wp_step. cbn [fst snd] in *. rewrite app_nil_r in *.
      assumption.
Qed.

Lemma detectSword_wp (landmarks : Pose) (now : Z) Q p l :
  (isShielding p || isCharging p = true -> Q tt (set_hasSword false p) l) ->
  (isShielding p || isCharging p = false ->
   with_opt e (at_index landmarks 15) (fun lw =>
   with_opt e (at_index landmarks 16) (fun rw =>
     Q tt (fst (swordP side lw rw now p))
          (l ++ snd (swordP side lw rw now p))))) ->
  wp e side s0 (detectSword side landmarks now) Q p l.
Proof.
  intros Hguard H. unfold detectSword.
  repeat wp_step.
  destruct (isShielding p || isCharging p).
  - wp_step. now apply Hguard.
  - specialize (H eq_refl). clear Hguard.
    repeat wp_step. wp_land lw Elw. repeat wp_step. wp_land rw Erw.
    unfold swordP, isInStance, isSwing, midY, midX in *.
    match goal with |- context [if ?c then _ else _] => destruct c end.
    + destruct (negb (Qeq_bool (prevSwordY p) 0)); cbn [andb] in *.
      * match goal with |- context [if ?c then _ else _] => destruct c end;
          repeat wp_step; cbn [fst snd] in *; rewrite ?app_nil_r in *;
          assumption.
      * repeat wp_step; cbn [fst snd] in *; rewrite ?app_nil_r in *;
          assumption.
    + repeat wp_step; cbn [fst snd] in *; rewrite ?app_nil_r in *;
        assumption.
Qed.

Lemma checkHand_wp (handSide : Side) (wrist shoulder hip : option Landmark)
  (scale : Root) (now : Z) Q p l :
  (handBusy p || coolingDown now p = true -> Q tt p l) ->
  (handBusy p = false -> coolingDown now p = false ->
   with_opt e shoulder (fun sh =>
   with_opt e hip (fun hi =>
   with_opt e wrist (fun wr =>
     Q tt (fst (handP side handSide wr sh hi scale now p))
          (l ++ snd (handP side handSide wr sh hi scale now p)))))) ->
  wp e side s0 (checkHand side handSide wrist shoulder hip scale now) Q p l.
Proof.
  intros Hguard H. unfold checkHand, handBusy, coolingDown in *.
  repeat wp_step.
  destruct (isShielding p || isCharging p || hasSword p).
  - wp_step. now apply Hguard.
  - destruct (now - lastPunchTime p <? PUNCH_COOLDOWN)%Z.
    + wp_step. now apply Hguard.
    + specialize (H eq_refl eq_refl). clear Hguard.
      repeat wp_step. wp_land sh Esh. repeat wp_step. wp_land hi Ehi.
      repeat wp_step. wp_land wr Ewr.
      unfold handP, outsideChestBand, punchTrigger, punchSpeed,
        relativeWrist, punchFrom in *.
      match goal with |- context [if ?c then _ else _] => destruct c end.
      * repeat wp_step. cbn [fst snd] in *. rewrite app_nil_r in *.
        assumption.
      * repeat wp_step.
        match goal with |- context [if ?c then _ else _] => destruct c end;
          repeat wp_step; cbn [fst snd] in *; rewrite ?app_nil_r in *;
          assumption.
Qed.

Lemma hasExpected_at (landmarks : Pose) (i : nat) :
  hasExpected landmarks = true -> In i expectedIndices ->
  exists v, at_index landmarks i = Some v.
Proof.
  unfold hasExpected. rewrite forallb_forall. intros H Hi.
  specialize (H i Hi). destruct (at_index landmarks i); [eauto|discriminate].
Qed.

Lemma with_opt_expected (landmarks : Pose) (i : nat) (k : Landmark -> Prop) :
  e \/ hasExpected landmarks = true ->
  In i expectedIndices ->
  (forall v, at_index landmarks i = Some v -> k v) ->
  with_opt e (at_index landmarks i) k.
Proof.
  intros Hc Hi Hk. unfold with_opt.
  destruct (at_index landmarks i) as [v|] eqn:E; [now apply Hk|].
  destruct Hc as [He|Hc]; [exact He|].
  destruct (hasExpected_at _ _ Hc Hi) as (v & Ev). congruence.
Qed.

Lemma punchFrame_refl (p : PlayerState) : punchFrame p p.
Proof. unfold punchFrame. destruct p; reflexivity. Qed.

Lemma punchFrame_trans (p p' p'' : PlayerState) :
  punchFrame p p' -> punchFrame p' p'' -> punchFrame p p''.
Proof.
  unfold punchFrame. intros H1 H2. rewrite H2. rewrite H1. reflexivity.
Qed.

Lemma handP_frame (handSide : Side) (wr sh hi : Landmark) (scale : Root)
  (now : Z) (p : PlayerState) :
  punchFrame p (fst (handP side handSide wr sh hi scale now p))
  /\ Forall (standardBy side) (snd (handP side handSide wr sh hi scale now p))
  /\ (List.length (snd (handP side handSide wr sh hi scale now p)) <= 1)%nat.
Proof.
  unfold handP.
  destruct (outsideChestBand wr sh hi); cbn [fst snd].
  - split; [apply punchFrame_refl|]. split; [constructor|cbn; lia].
  - destruct (punchTrigger wr sh scale (wrist_of handSide (prevWrists p)));
      cbn [fst snd].
    + split; [unfold punchFrame; destruct p; reflexivity|].
      split; [|cbn; lia].
      constructor; [|constructor]. unfold standardBy, punchFrom. eauto.
    + split; [unfold punchFrame; destruct p; reflexivity|].
      split; [constructor|cbn; lia].
Qed.

Lemma checkHand_frame_wp (landmarks : Pose) (handSide : Side) (iw ish ihi : nat)
  (scale : Root) (now : Z) Q p l :
  e \/ hasExpected landmarks = true ->
  In iw expectedIndices -> In ish expectedIndices -> In ihi expectedIndices ->
  (forall p' lnew, punchFrame p p' -> Forall (standardBy side) lnew ->
                   Q tt p' (l ++ lnew)) ->
  wp e side s0
    (checkHand side handSide (at_index landmarks iw) (at_index landmarks ish)
       (at_index landmarks ihi) scale now) Q p l.
Proof.
  intros Hc Hw Hsh Hhi HQ. apply checkHand_wp.
  - intros _. rewrite <- (app_nil_r l).
    apply HQ; [apply punchFrame_refl|constructor].
  - intros _ _.
    apply with_opt_expected; trivial. intros sh _.
    apply with_opt_expected; trivial. intros hi _.
    apply with_opt_expected; trivial. intros wr _.
    destruct (handP_frame handSide wr sh hi scale now p) as (F & S & _).
    now apply HQ.
Qed.

Lemma detectPunch_frame_wp (landmarks : Pose) (nowLeft nowRight : Z) Q p l :
  e \/ hasExpected landmarks = true ->
  (forall p' lnew, punchFrame p p' -> Forall (standardBy side) lnew ->
                   Q tt p' (l ++ lnew)) ->
  wp e side s0 (detectPunch side landmarks nowLeft nowRight) Q p l.
Proof.
  intros Hc HQ. unfold detectPunch.
  repeat wp_step. apply with_opt_expected; trivial; [cbn; tauto|].
  intros ls _. repeat wp_step.
  apply with_opt_expected; trivial; [cbn; tauto|].
  intros rs _. repeat wp_step.
  apply with_opt_expected; trivial; [cbn; tauto|].
  intros lh _. wp_step.
  apply checkHand_frame_wp; trivial; try (cbn; tauto).
  intros p1 l1 F1 S1.
  apply checkHand_frame_wp; trivial; try (cbn; tauto).
  intros p2 l2 F2 S2. rewrite <- app_assoc.
  apply HQ; [eapply punchFrame_trans; eassumption|].
  apply Forall_app. now split.
Qed.

Lemma drawSkeleton_wp (landmarks : Pose) (pl : PlayerState) Q p l :
  e \/ hasExpected landmarks = true ->
  Q tt p l ->
  wp e side s0 (drawSkeleton landmarks pl) Q p l.
Proof.
  intros Hc HQ. unfold drawSkeleton.
  repeat first
    [ wp_step
    | apply with_opt_expected; [exact Hc | cbn; tauto | intros ? _]
    | match goal with
      | |- wp _ _ _ (if ?c then _ else _) _ _ _ => destruct c
      end ].
  all: exact HQ.
Qed.

Lemma processPlayer_wp (landmarks : Pose) (clk : Clock) Q p l :
  e \/ hasExpected landmarks = true ->
  (forall lw rw ls rs p' lnew,
     at_index landmarks 15 = Some lw -> at_index landmarks 16 = Some rw ->
     at_index landmarks 11 = Some ls -> at_index landmarks 12 = Some rs ->
     punchOutcome side
       (fst (gestureP side lw rw ls rs clk (boxed landmarks p))) p' lnew ->
     Q tt p'
       ((l ++ snd (gestureP side lw rw ls rs clk (boxed landmarks p)))
        ++ lnew)) ->
  wp e side s0 (processPlayer side landmarks clk) Q p l.
Proof.
  intros Hc HQ. unfold processPlayer.
  repeat wp_step.
  assert (Hbox : boxed landmarks p
                 = let '(minX, minY, maxX, maxY) :=
                     fold_left hitboxStep landmarks (1, 1, 0, 0) in
                   set_boundingBox
                     (Some (mkBox ((1 - maxX) * width) (minY * height)
                                  ((1 - minX) * width) (maxY * height)))
                     (set_detected true p)).
  { unfold boxed, hitbox.
    destruct (fold_left hitboxStep landmarks (1, 1, 0, 0)) as [[[a b] c] d].
    reflexivity. }
  destruct (fold_left hitboxStep landmarks (1, 1, 0, 0)) as [[[a b] c] d].
  repeat wp_step. rewrite <- Hbox. clear Hbox a b c d.
  set (p0 := boxed landmarks p) in *.
  apply detectShield_wp.
  apply with_opt_expected; trivial; [cbn; tauto|]. intros lw Elw.
  apply with_opt_expected; trivial; [cbn; tauto|]. intros rw Erw.
  apply with_opt_expected; trivial; [cbn; tauto|]. intros ls Els.
  apply with_opt_expected; trivial; [cbn; tauto|]. intros rs Ers.
  wp_step. apply detectSpecial_wp.
  unfold with_opt at 1 2 3 4. rewrite Elw, Erw, Els, Ers.
  specialize (HQ lw rw ls rs).
  unfold gestureP in HQ. cbv zeta in HQ.
  set (p1 := shieldP lw rw ls rs p0) in *.
  set (r2 := specialP side lw rw ls rs (nowSpecial clk) p1) in *.
  wp_step.
  assert (Htail : forall p3 l3,
    (forall p' lnew, punchOutcome side p3 p' lnew -> Q tt p' (l3 ++ lnew)) ->
    wp e side s0
      (player0 <- getPlayer side;;
       (if negb (isShielding player0) && negb (isCharging player0)
           && negb (hasSword player0)
        then detectPunch side landmarks (nowLeftHand clk) (nowRightHand clk)
        else ret tt);;
       player1 <- getPlayer side;; drawSkeleton landmarks player1)
      Q p3 l3).
  { intros p3 l3 H3. repeat wp_step.
    assert (Hb : negb (isShielding p3) && negb (isCharging p3)
                 && negb (hasSword p3) = negb (handBusy p3))
      by (unfold handBusy; destruct (isShielding p3), (isCharging p3),
            (hasSword p3); reflexivity).
    rewrite Hb. destruct (handBusy p3) eqn:B; cbn [negb].
    - repeat wp_step. apply drawSkeleton_wp; trivial.
      rewrite <- (app_nil_r l3). apply H3.
      split; [apply punchFrame_refl|]. split; [constructor|]. auto.
    - apply detectPunch_frame_wp; trivial. intros p4 l4 F4 S4.
      repeat wp_step. apply drawSkeleton_wp; trivial. apply H3.
      split; [exact F4|]. split; [exact S4|]. intros X. congruence. }
  apply detectSword_wp.
  - intros G. cbv beta. apply Htail. intros p' lnew O.
    rewrite G in HQ. cbn [fst snd] in HQ. rewrite app_nil_r in HQ.
    now apply HQ.
  - intros G. unfold with_opt. rewrite Elw, Erw. cbv beta. apply Htail.
    intros p' lnew O. rewrite G in HQ. cbn [fst snd] in HQ.
    rewrite app_assoc in HQ. now apply HQ.
Qed.

End Classifier.

(* ------------------------------------------------------------------ *)
(** ** Properties: one call of [processPlayer] *)

Lemma commit_eta (side : Side) (s : GameState) :
  commit side (player side s) [] s = s.
Proof.
  unfold commit. rewrite app_nil_r. destruct side, s; reflexivity.
Qed.

Lemma processPlayer_inv (side : Side) (landmarks : Pose) (clk : Clock)
  (s s' : GameState) :
  processPlayer side landmarks clk s = Ok tt s' ->
  exists lw rw ls rs p' lnew,
    at_index landmarks 15 = Some lw /\ at_index landmarks 16 = Some rw
    /\ at_index landmarks 11 = Some ls /\ at_index landmarks 12 = Some rs
    /\ punchOutcome side
         (fst (gestureP side lw rw ls rs clk
                 (boxed landmarks (player side s)))) p' lnew
    /\ s' = commit side p'
              (snd (gestureP side lw rw ls rs clk
                      (boxed landmarks (player side s))) ++ lnew) s.
Proof.
  intros H.
  pose proof (processPlayer_wp True side s landmarks clk
    (fun _ p' l' =>
       exists lw rw ls rs lnew,
         at_index landmarks 15 = Some lw /\ at_index landmarks 16 = Some rw
         /\ at_index landmarks 11 = Some ls /\ at_index landmarks 12 = Some rs
         /\ punchOutcome side
              (fst (gestureP side lw rw ls rs clk
                      (boxed landmarks (player side s)))) p' lnew
         /\ l' = snd (gestureP side lw rw ls rs clk
                        (boxed landmarks (player side s))) ++ lnew)
    (player side s) [] (or_introl I)) as W.
  unfold wp in W. rewrite commit_eta, H in W.
  destruct W as (p' & l' & -> & lw & rw & ls & rs & lnew & W).
  - intros lw rw ls rs p' lnew ? ? ? ? ?.
    exists lw, rw, ls, rs, lnew. cbn [app]. tauto.
  - exists lw, rw, ls, rs, p', lnew.
    destruct W as (? & ? & ? & ? & ? & ->). tauto.
Qed.

Lemma processPlayer_total (side : Side) (landmarks : Pose) (clk : Clock)
  (s : GameState) :
  hasExpected landmarks = true ->
  exists s', processPlayer side landmarks clk s = Ok tt s'.
Proof.
  intros Hc.
  pose proof (processPlayer_wp False side s landmarks clk
    (fun _ _ _ => True) (player side s) [] (or_intror Hc)) as W.
  unfold wp in W. rewrite commit_eta in W.
  destruct (processPlayer side landmarks clk s) as [[] s'|].
  - eauto.
  - exfalso. apply W. trivial.
Qed.

(* ------------------------------------------------------------------ *)
(** ** Properties: the action flags *)

Ltac psimpl :=
  cbn [id hp isAI color lastPunchTime detected isShielding isCharging
       chargeStartTime chargeLevel hasSword prevSwordY lastSwordFireTime
       lastPoseTime boundingBox prevWrists
       set_hp set_isAI set_lastPunchTime set_detected set_isShielding
       set_isCharging set_chargeStartTime set_chargeLevel set_hasSword
       set_prevSwordY set_lastSwordFireTime set_lastPoseTime
       set_boundingBox set_prevWrists
       discharged resetPlayerAction boxed action fst snd negb andb orb] in *.

Ltac split_ifs :=
  repeat match goal with
         | |- context [if ?c then _ else _] => destruct c eqn:?
         end.

Lemma punchFrame_action (p p' : PlayerState) :
  punchFrame p p' ->
  action p' = action p /\ hp p' = hp p /\ isAI p' = isAI p
  /\ boundingBox p' = boundingBox p /\ detected p' = detected p.
Proof. unfold punchFrame. intros ->. repeat split. Qed.

Lemma boxed_action (landmarks : Pose) (p : PlayerState) :
  action (boxed landmarks p) = action p.
Proof. reflexivity. Qed.

(** After [detectShield], [isShielding] says whether the shield geometry
    holds. *)
Lemma shieldP_isShielding (lw rw ls rs : Landmark) (p : PlayerState) :
  isShielding (shieldP lw rw ls rs p) = isShieldPose lw rw ls rs.
Proof. unfold shieldP. destruct (isShieldPose lw rw ls rs); reflexivity. Qed.

Lemma gestureP_flags (side : Side) (lw rw ls rs : Landmark) (clk : Clock)
  (p : PlayerState) :
  (hasSword p = true -> isCharging p = false) ->
  flags_ok (fst (gestureP side lw rw ls rs clk p)).
Proof.
  intros Hp. unfold flags_ok, gestureP, specialP, shieldP, swordP,
    isHoldingPose.
  destruct p. psimpl.
  destruct (isShieldPose lw rw ls rs); psimpl;
    destruct (isSpecialPoseRaw lw rw ls rs); psimpl;
    destruct isCharging0, hasSword0; psimpl;
    try (specialize (Hp eq_refl); discriminate);
    split_ifs; psimpl;
    repeat match goal with
           | H : (_ >=? _) = false |- _ => apply Qgeb_lt in H
           end;
    (split; [intros; split; congruence | intros; try congruence; try assumption]).
Qed.

(* ------------------------------------------------------------------ *)
(** ** Properties: the charge level *)

Lemma share_le (a b : Z) :
  (a <= b)%Z ->
  inject_Z a / inject_Z SPECIAL_CHARGE_TIME
  <= inject_Z b / inject_Z SPECIAL_CHARGE_TIME.
Proof.
  intros H. unfold Qdiv. apply Qmult_le_compat_r.
  - now rewrite <- Zle_Qle.
  - discriminate.
Qed.

Lemma share_zero : inject_Z 0 / inject_Z SPECIAL_CHARGE_TIME == 0.
Proof. reflexivity. Qed.

Lemma chargeLevelAt_bounds (now start : Z) :
  (start <= now)%Z ->
  0 <= chargeLevelAt now start /\ chargeLevelAt now start <= 1.
Proof.
  intros H. unfold chargeLevelAt. split.
  - apply Q.min_glb; [discriminate|].
    rewrite <- share_zero. apply share_le. lia.
  - apply Q.le_min_l.
Qed.

Lemma chargeLevelAt_mono (now now' start : Z) :
  (now <= now')%Z ->
  chargeLevelAt now start <= chargeLevelAt now' start.
Proof.
  intros H. unfold chargeLevelAt.
  apply Q.min_le_compat_l. apply share_le. lia.
Qed.

Lemma charge_ok_bounds (t : Z) (p : PlayerState) :
  charge_ok t p -> 0 <= chargeLevel p /\ chargeLevel p <= 1.
Proof.
  intros (H0 & H1 & _). destruct (isCharging p).
  - destruct (H1 eq_refl) as (Hle & ->). now apply chargeLevelAt_bounds.
  - rewrite (H0 eq_refl). split; discriminate.
Qed.

Lemma charge_ok_later (t t' : Z) (p : PlayerState) :
  (t <= t')%Z -> charge_ok t p -> charge_ok t' p.
Proof. intros Ht (H0 & H1 & H2). repeat split; auto; try apply H1; auto; lia. Qed.

Lemma gestureP_charge (side : Side) (lw rw ls rs : Landmark) (clk : Clock)
  (t : Z) (p : PlayerState) :
  charge_ok t p -> (t <= nowSpecial clk)%Z ->
  charge_ok (nowSpecial clk) (fst (gestureP side lw rw ls rs clk p)).
Proof.
  intros (H0 & H1 & H2) Ht.
  unfold charge_ok, gestureP, specialP, shieldP, swordP, isHoldingPose in *.
  destruct p. psimpl.
  destruct (isShieldPose lw rw ls rs); psimpl;
    destruct (isSpecialPoseRaw lw rw ls rs); psimpl;
    destruct isCharging0, hasSword0; psimpl;
    split_ifs; psimpl;
    repeat split; intros; try discriminate; try reflexivity;
    try (apply H0; reflexivity); try (apply H1; reflexivity);
    try lia.
  all: destruct (H1 eq_refl); lia.
Qed.

(** While the asymmetric pose is held without the shield geometry, a call of
    [processPlayer] does not lower the charge level. *)
Lemma gestureP_level_mono (side : Side) (lw rw ls rs : Landmark) (clk : Clock)
  (t : Z) (p : PlayerState) :
  (hasSword p = true -> isCharging p = false) ->
  charge_ok t p -> (t <= nowSpecial clk)%Z ->
  isSpecialPoseRaw lw rw ls rs = true ->
  isShieldPose lw rw ls rs = false ->
  chargeLevel p <= chargeLevel (fst (gestureP side lw rw ls rs clk p)).
Proof.
  intros Hs (H0 & H1 & H2) Ht Hraw Hsh.
  unfold gestureP, specialP, shieldP, swordP, isHoldingPose.
  rewrite Hraw, Hsh.
  destruct p. psimpl.
  destruct isCharging0, hasSword0; psimpl;
    try (specialize (Hs eq_refl); discriminate);
    split_ifs; psimpl; try apply Qle_refl.
  all: try (destruct (H1 eq_refl) as (Hle & ->);
            apply chargeLevelAt_mono; lia).
  all: rewrite (H0 eq_refl);
    apply (chargeLevelAt_bounds (nowSpecial clk) (nowSpecial clk)); lia.
Qed.

(* ------------------------------------------------------------------ *)
(** ** Properties: the stages of a tick *)

Lemma draw_gameOver (clock : nat -> Clock) (s : GameState) :
  isGameOver s = true -> draw clock s = Ok tt s.
Proof. intros H. unfold draw, bind, get. now rewrite H. Qed.

Lemma bind_pure {A B} (m : M A) (k : A -> M B) (s s1 : GameState) (a : A) :
  m s = Ok a s1 -> bind m k s = k a s1.
Proof. intros H. unfold bind. now rewrite H. Qed.

Lemma undetectedLeft_run (detectedLeft : bool) (s : GameState) :
  (if negb detectedLeft then
     assign sideLeft (set_detected false) ;;
     assign sideLeft (set_boundingBox None) ;;
     assign sideLeft resetPlayerAction
   else ret tt) s
  = Ok tt (if negb detectedLeft
           then set_leftPlayer (lost (leftPlayer s)) s else s).
Proof. destruct detectedLeft; reflexivity. Qed.

Lemma undetectedRight_run (detectedRight : bool) (s : GameState) :
  (if negb detectedRight then
     rightPlayer0 <- getPlayer sideRight ;;
     if negb (isAI rightPlayer0) then
       assign sideRight (set_detected false) ;;
       assign sideRight (set_boundingBox None) ;;
       assign sideRight resetPlayerAction
     else ret tt
   else assign sideRight (set_isAI false)) s
  = Ok tt (if negb detectedRight
           then if negb (isAI (rightPlayer s))
                then set_rightPlayer (lost (rightPlayer s)) s else s
           else set_rightPlayer (set_isAI false (rightPlayer s)) s).
Proof.
  destruct detectedRight; [reflexivity|]. cbn [negb].
  unfold bind at 1. unfold getPlayer at 1. cbn [player].
  destruct (isAI (rightPlayer s)); reflexivity.
Qed.

Lemma forceAI_run (detectedLeft detectedRight : bool) (s : GameState) :
  (if detectedLeft && negb detectedRight then
     assign sideRight (set_isAI true)
   else ret tt) s
  = Ok tt (if detectedLeft && negb detectedRight
           then set_rightPlayer (set_isAI true (rightPlayer s)) s else s).
Proof. destruct (detectedLeft && negb detectedRight); reflexivity. Qed.

Lemma gameOver_run (s : GameState) :
  (state' <- get ;;
   if (hp (leftPlayer state') <=? 0) || (hp (rightPlayer state') <=? 0)
   then fun s => Ok tt (set_isGameOver true s)
   else ret tt) s = Ok tt (gameOverStage s).
Proof.
  unfold bind, get, gameOverStage.
  destruct ((hp (leftPlayer s) <=? 0) || (hp (rightPlayer s) <=? 0));
    reflexivity.
Qed.

Lemma draw_stages (clock : nat -> Clock) (s : GameState) :
  isGameOver s = false ->
  draw clock s
  = match posePhase clock s with
    | Ok det s1 => Ok tt (finishTick det s1)
    | TypeError => TypeError
    end.
Proof.
  intros H. unfold draw. unfold bind at 1. unfold get at 1. rewrite H.
  unfold bind at 1.
  replace (match poseResults s with
           | Some ((_ :: _) as landmarks) =>
               poses <- mapPoses landmarks;;
               forEachPose poses clock 0 (false, false)
           | _ => ret (false, false)
           end s) with (posePhase clock s)
    by (unfold posePhase; destruct (poseResults s) as [[|]|]; reflexivity).
  destruct (posePhase clock s) as [[dl dr] s1|]; [|reflexivity].
  rewrite (bind_pure _ _ _ _ _ (undetectedLeft_run dl s1)).
  rewrite (bind_pure _ _ _ _ _ (undetectedRight_run dr _)).
  rewrite (bind_pure _ _ _ _ _ (forceAI_run dl dr _)).
  unfold finishTick, markUndetected. cbn [fst snd].
  match goal with |- _ ?st = _ => set (s2 := st) end.
  unfold bind at 1. unfold getPlayer at 1. cbn [player].
  assert (Hai : (if isAI (rightPlayer s2) then updateAI else ret tt) s2
                = Ok tt (aiStage s2))
    by (unfold aiStage; destruct (isAI (rightPlayer s2)); reflexivity).
  rewrite (bind_pure _ _ _ _ _ Hai).
  rewrite (bind_pure _ _ _ _ _ (updateProjectiles_sweep _)).
  fold (projectileStage (aiStage s2)).
  rewrite (bind_pure _ _ _ _ _ (eq_refl : updateFloatingText _ = Ok tt (textStage _))).
  apply gameOver_run.
Qed.


(* ------------------------------------------------------------------ *)
(** ** Properties: invariants of the reachable states *)

Lemma flags_ok_action (p q : PlayerState) :
  action q = action p -> flags_ok p -> flags_ok q.
Proof.
  unfold action, flags_ok. intros E. injection E as -> -> _ -> -> _. trivial.
Qed.

Lemma charge_ok_action (t : Z) (p q : PlayerState) :
  action q = action p -> charge_ok t p -> charge_ok t q.
Proof.
  unfold action, charge_ok. intros E. injection E as _ -> -> -> _ ->. trivial.
Qed.

Lemma standardBy_spawn (side : Side) (pr : Projectile) :
  standardBy side pr -> fromTable pr /\ owner pr = side /\ type pr = standard.
Proof. intros (sx & sy & ->). repeat split. Qed.

(** The projectiles the three detections push are a special shot, a sword
    beam, or nothing. *)
Lemma gestureP_emits (side : Side) (lw rw ls rs : Landmark) (clk : Clock)
  (p : PlayerState) :
  Forall (fun pr => fromTable pr /\ owner pr = side /\ type pr <> standard)
    (snd (gestureP side lw rw ls rs clk p)).
Proof.
  unfold gestureP, specialP, swordP. cbn [snd].
  apply Forall_app. split.
  - split_ifs; cbn [snd]; repeat constructor; discriminate.
  - match goal with
    | |- context [if ?c then (?a, []) else ?b] => destruct c
    end; cbn [snd]; [constructor|].
    split_ifs; cbn [snd]; repeat constructor; discriminate.
Qed.

Lemma processPlayer_ok (side : Side) (landmarks : Pose) (clk : Clock)
  (t : Z) (det : bool * bool) (s s' : GameState) :
  loop_ok t det s -> (t <= nowSpecial clk)%Z ->
  processPlayer side landmarks clk s = Ok tt s' ->
  loop_ok (nowSpecial clk)
    (match side with
     | sideLeft => (true, snd det)
     | sideRight => (fst det, true)
     end) s'.
Proof.
  intros (Hp & Hai & Hpr) Ht Hrun.
  destruct (processPlayer_inv _ _ _ _ _ Hrun)
    as (lw & rw & ls & rs & p' & lnew & _ & _ & _ & _ & (F & S & _) & ->).
  destruct (punchFrame_action _ _ F) as (Ea & _ & Ei & _).
  destruct (Hp side) as (Hf & Hc).
  assert (Hf' : flags_ok p').
  { apply (flags_ok_action _ _ Ea). apply gestureP_flags.
    intros Hs. now apply Hf. }
  assert (Hc' : charge_ok (nowSpecial clk) p').
  { apply (charge_ok_action _ _ _ Ea).
    apply gestureP_charge with (t := t); trivial. }
  split; [|split].
  - intros sd.
    destruct (Hp sd) as (Hfo & Hco).
    apply (charge_ok_later _ _ _ Ht) in Hco.
    destruct side, sd; cbn [player commit set_player set_projectiles
      leftPlayer rightPlayer set_leftPlayer set_rightPlayer]; auto.
  - destruct side; cbn [snd]; [|discriminate].
    exact Hai.
  - rewrite commit_projectiles. apply Forall_app. split; [exact Hpr|].
    apply Forall_app. split.
    + eapply Forall_impl; [|apply gestureP_emits]. cbv beta. tauto.
    + eapply Forall_impl; [|exact S]. intros pr Hs.
      now apply standardBy_spawn in Hs.
Qed.

Lemma mapPoses_state (ls : list Pose) (s s' : GameState)
  (poses : list (Pose * Q)) :
  mapPoses ls s = Ok poses s' -> s' = s.
Proof.
  revert poses. induction ls as [|l rest IH]; intros poses; cbn [mapPoses].
  - unfold ret. now intros [= _ <-].
  - unfold bind at 1. destruct (at_index l 11); [|discriminate].
    cbn [deref ret]. unfold bind at 1.
    destruct (at_index l 12); [|discriminate]. cbn [deref ret].
    unfold bind at 1. destruct (mapPoses rest s) as [r s1|] eqn:E;
      [|discriminate].
    unfold ret. intros [= _ <-]. now apply (IH r).
Qed.

Lemma forEachPose_ok (clock : nat -> Clock) (t' : Z)
  (poses : list (Pose * Q)) :
  forall (i : nat) (u : Z) (det det' : bool * bool) (s s' : GameState),
    loop_ok u det s ->
    (u <= nowSpecial (clock i))%Z ->
    (forall j, nowSpecial (clock j) <= nowSpecial (clock (S j)) <= t')%Z ->
    forEachPose poses clock i det s = Ok det' s' ->
    loop_ok t' det' s'.
Proof.
  induction poses as [|[landmarks centerX] rest IH];
    intros i u det det' s s' Hok Hu Hmono; cbn [forEachPose].
  - unfold ret. intros [= <- <-].
    destruct Hok as (Hp & Hrest). split; [|exact Hrest].
    intros sd. destruct (Hp sd) as (Hf & Hc). split; [exact Hf|].
    apply (charge_ok_later u); [|exact Hc].
    destruct (Hmono i). lia.
  - destruct (centerX >? 5 # 10).
    + unfold bind at 1.
      destruct (processPlayer sideLeft landmarks (clock i) s) as [[] s1|] eqn:E;
        [|discriminate].
      apply (IH (S i) (nowSpecial (clock i))); trivial.
      * apply (processPlayer_ok sideLeft _ _ _ _ _ _ Hok Hu E).
      * apply Hmono.
    + unfold bind at 1.
      destruct (processPlayer sideRight landmarks (clock i) s) as [[] s1|] eqn:E;
        [|discriminate].
      apply (IH (S i) (nowSpecial (clock i))); trivial.
      * apply (processPlayer_ok sideRight _ _ _ _ _ _ Hok Hu E).
      * apply Hmono.
Qed.

Lemma markUndetected_left (det : bool * bool) (s : GameState) :
  leftPlayer (markUndetected det s)
  = if negb (fst det) then lost (leftPlayer s) else leftPlayer s.
Proof.
  unfold markUndetected. destruct det as [[] []]; cbn [fst snd negb andb];
    try reflexivity; destruct (isAI (rightPlayer _)); reflexivity.
Qed.

Lemma markUndetected_right (det : bool * bool) (s : GameState) :
  rightPlayer (markUndetected det s)
  = let r := if negb (snd det)
             then if negb (isAI (rightPlayer s))
                  then lost (rightPlayer s) else rightPlayer s
             else set_isAI false (rightPlayer s) in
    if fst det && negb (snd det) then set_isAI true r else r.
Proof.
  unfold markUndetected. destruct det as [[] []]; cbn [fst snd negb andb];
    try reflexivity; cbn [rightPlayer set_leftPlayer];
    destruct (isAI (rightPlayer s)); reflexivity.
Qed.

Lemma markUndetected_projectiles (det : bool * bool) (s : GameState) :
  projectiles (markUndetected det s) = projectiles s.
Proof.
  unfold markUndetected. destruct det as [[] []]; cbn [fst snd negb andb];
    try reflexivity; destruct (isAI (rightPlayer _)); reflexivity.
Qed.

Lemma aiStage_frame (s : GameState) :
  leftPlayer (aiStage s) = leftPlayer s
  /\ rightPlayer (aiStage s)
     = set_boundingBox (boundingBox (rightPlayer (aiStage s))) (rightPlayer s)
  /\ projectiles (aiStage s) = projectiles s.
Proof.
  unfold aiStage. destruct (isAI (rightPlayer s)).
  - cbn [updateAI].
    destruct ((virtualTargetY s + virtualTargetSpeed s >? 7 # 10)
              || (virtualTargetY s + virtualTargetSpeed s <? 3 # 10));
      repeat split.
  - repeat split. destruct (rightPlayer s); reflexivity.
Qed.

Lemma projectileStage_player (side : Side) (s : GameState) :
  player side (projectileStage s)
  = set_hp (hp (player side (projectileStage s))) (player side s).
Proof.
  unfold projectileStage.
  replace (player side (set_projectiles (fst (sweep (projectiles s) s))
                          (snd (sweep (projectiles s) s))))
    with (player side (snd (sweep (projectiles s) s)))
    by (destruct side; reflexivity).
  apply sweep_player.
Qed.

Lemma late_stages_player (side : Side) (s : GameState) :
  player side (gameOverStage (textStage s)) = player side s.
Proof.
  unfold gameOverStage.
  match goal with |- context [if ?c then _ else _] => destruct c end;
    destruct side; reflexivity.
Qed.

Lemma late_stages_projectiles (s : GameState) :
  projectiles (gameOverStage (textStage s)) = projectiles s.
Proof.
  unfold gameOverStage.
  match goal with |- context [if ?c then _ else _] => destruct c end;
    reflexivity.
Qed.

(** After the pose loop a tick touches only hp and hurtbox of a player. *)
Lemma finishTick_player (side : Side) (det : bool * bool) (s : GameState) :
  action (player side (finishTick det s))
  = action (player side (markUndetected det s))
  /\ isAI (player side (finishTick det s))
     = isAI (player side (markUndetected det s))
  /\ lastPunchTime (player side (finishTick det s))
     = lastPunchTime (player side (markUndetected det s))
  /\ prevWrists (player side (finishTick det s))
     = prevWrists (player side (markUndetected det s)).
Proof.
  unfold finishTick. rewrite late_stages_player, projectileStage_player.
  destruct (aiStage_frame (markUndetected det s)) as (Hl & Hr & _).
  destruct side; cbn [player]; [rewrite Hl | rewrite Hr]; repeat split.
Qed.

Lemma finishTick_projectiles (det : bool * bool) (s : GameState)
  (q : Projectile) :
  In q (projectiles (finishTick det s)) ->
  exists pr, In pr (projectiles s) /\ q = advance pr.
Proof.
  unfold finishTick. rewrite late_stages_projectiles.
  unfold projectileStage. cbn [projectiles set_projectiles].
  destruct (aiStage_frame (markUndetected det s)) as (_ & _ & ->).
  rewrite markUndetected_projectiles. intros H.
  destruct (sweep_survivors _ _ _ H) as (pr & Hin & -> & _). eauto.
Qed.

Lemma lost_ok (t : Z) (p : PlayerState) :
  charge_ok t p -> flags_ok (lost p) /\ charge_ok t (lost p).
Proof.
  intros (_ & _ & H). unfold flags_ok, charge_ok. destruct p. psimpl.
  unfold lost. psimpl. repeat split; intros; try discriminate; trivial.
Qed.

Lemma finishTick_ok (t : Z) (det : bool * bool) (s : GameState) :
  loop_ok t det s -> state_ok t (finishTick det s).
Proof.
  intros (Hp & Hai & Hpr). split; [|split].
  - intros side. destruct (finishTick_player side det s) as (Ea & _).
    split; [apply (flags_ok_action _ _ Ea)|apply (charge_ok_action _ _ _ Ea)].
    all: destruct side; cbn [player];
      [rewrite markUndetected_left | rewrite markUndetected_right].
    all: destruct (Hp sideLeft) as (Hfl & Hcl);
      destruct (Hp sideRight) as (Hfr & Hcr); cbn [player] in *.
    all: destruct (lost_ok _ _ Hcl), (lost_ok _ _ Hcr).
    all: destruct det as [[] []]; cbn [fst snd negb andb];
      try destruct (isAI (rightPlayer s)); cbn [negb]; trivial.
    all: first [ eapply flags_ok_action; [|eassumption]; reflexivity
               | eapply charge_ok_action; [|eassumption]; reflexivity ].
  - intros _.
    destruct (finishTick_player sideRight det s) as (Ea & Ei & _).
    cbn [player] in *. rewrite Ei.
    assert (Ec : isCharging (rightPlayer (finishTick det s))
                 = isCharging (rightPlayer (markUndetected det s)))
      by (unfold action in Ea; congruence).
    rewrite Ec, markUndetected_right.
    destruct det as [[] []]; cbn [fst snd negb andb] in *;
      try (cbn; discriminate);
      destruct (isAI (rightPlayer s)) eqn:A; cbn [negb]; auto;
      intros; reflexivity.
  - apply Forall_forall. intros q Hq.
    destruct (finishTick_projectiles _ _ _ Hq) as (pr & Hin & ->).
    rewrite Forall_forall in Hpr. exact (Hpr pr Hin).
Qed.

Lemma posePhase_ok (clock : nat -> Clock) (t t' : Z) (det : bool * bool)
  (s s1 : GameState) :
  state_ok t s -> clock_from t t' clock ->
  posePhase clock s = Ok det s1 ->
  loop_ok t' det s1.
Proof.
  intros Hok Hclk. unfold posePhase.
  assert (Hlater : loop_ok t' (false, false) s).
  { destruct Hok as (Hp & Hrest). split; [|exact Hrest].
    intros sd. destruct (Hp sd) as (Hf & Hc). split; [exact Hf|].
    apply (charge_ok_later t); [|exact Hc]. destruct (Hclk 0%nat). lia. }
  destruct (poseResults s) as [[|l ls]|].
  - now intros [= <- <-].
  - unfold bind at 1.
    destruct (mapPoses (l :: ls) s) as [poses s0|] eqn:E; [|discriminate].
    apply mapPoses_state in E. subst s0.
    apply (forEachPose_ok clock t' poses 0 t); trivial.
    + destruct (Hclk 0%nat). lia.
    + intros j. destruct (Hclk j) as (? & ? & ? & ? & ? & ?).
      destruct (Hclk (S j)) as (? & ? & ? & ? & ? & ?). lia.
  - now intros [= <- <-].
Qed.

Lemma draw_ok (clock : nat -> Clock) (t t' : Z) (s s' : GameState) :
  state_ok t s -> clock_from t t' clock ->
  draw clock s = Ok tt s' -> state_ok t' s'.
Proof.
  intros Hok Hclk Hrun.
  destruct (isGameOver s) eqn:G.
  - rewrite (draw_gameOver _ _ G) in Hrun. injection Hrun as <-.
    destruct Hok as (Hp & Hrest). split; [|exact Hrest].
    intros sd. destruct (Hp sd) as (Hf & Hc). split; [exact Hf|].
    apply (charge_ok_later t); [|exact Hc].
    destruct (Hclk 0%nat). lia.
  - rewrite (draw_stages _ _ G) in Hrun.
    destruct (posePhase clock s) as [det s1|] eqn:E; [|discriminate].
    injection Hrun as <-. apply finishTick_ok.
    exact (posePhase_ok _ _ _ _ _ _ Hok Hclk E).
Qed.

Lemma initialState_ok (t : Z) : (0 <= t)%Z -> state_ok t initialState.
Proof.
  intros Ht. split; [|split].
  - intros [|]; (split; [split; intros; discriminate|]);
      repeat split; intros; try discriminate; trivial.
  - intros _ _. reflexivity.
  - constructor.
Qed.

Lemma resetGame_ok (t : Z) (s : GameState) :
  state_ok t s -> state_ok t (resetGame s).
Proof.
  intros (Hp & Hai & Hpr). split; [|split].
  - intros side. destruct (Hp side) as ((Ha & Hb) & (H0 & H1 & H2)).
    destruct side, s as [[] [] ? ? ? ? ? ?]; unfold flags_ok, charge_ok;
      cbn in *; repeat split; intros; try discriminate; trivial;
      now apply Ha.
  - intros _ _. destruct s as [[] [] ? ? ? ? ? ?]. reflexivity.
  - constructor.
Qed.

Lemma reachable_ok (t : Z) (s : GameState) :
  reachable t s -> state_ok t s.
Proof.
  induction 1 as [t Ht | t s results _ IH | t s _ IH
                 | t t' clock s s' _ IH Hclk Hrun].
  - now apply initialState_ok.
  - exact IH.
  - now apply resetGame_ok.
  - exact (draw_ok _ _ _ _ _ IH Hclk Hrun).
Qed.

(* ------------------------------------------------------------------ *)
(** ** The action flags of the reachable states *)

Lemma steady_clock (t t' : Z) : (t <= t')%Z -> clock_from t t' (steady t').
Proof. intros H i. cbn. lia. Qed.

Lemma reachable_afterCharge : reachable 1000 afterCharge.
Proof.
  apply (reach_draw 0 1000 (steady 1000)
           (set_poseResults (Some [chargePose]) initialState)).
  - apply reach_pose, reach_init. lia.
  - apply steady_clock. lia.
  - vm_compute. reflexivity.
Qed.

Lemma reachable_afterShield : reachable 1016 afterShield.
Proof.
  apply (reach_draw 1000 1016 (steady 1016)
           (set_poseResults (Some [shieldPose]) afterCharge)).
  - apply reach_pose, reachable_afterCharge.
  - apply steady_clock. lia.
  - vm_compute. reflexivity.
Qed.

(** C1, as stated, fails: a charge started at 1000 ms is still in its grace
    period when the shield geometry holds at 1016 ms, and the tick leaves
    both [isShielding] and [isCharging] true. *)
Lemma flags_not_exclusive :
  ~ (forall t s side, reachable t s -> exclusiveFlags (player side s)).
Proof.
  intros H.
  destruct (H 1016%Z afterShield sideLeft reachable_afterShield) as (Hs & _).
  destruct (Hs eq_refl) as (Hc & _). discriminate Hc.
Qed.

(** C1, amended.  In every reachable state and for either player, the sword
    stance excludes both the shield and the charge, and the shield and the
    charge are true together only below full charge. *)
Theorem flags_sword_exclusive (t : Z) (s : GameState) (side : Side) :
  reachable t s ->
  (hasSword (player side s) = true ->
   isShielding (player side s) = false /\ isCharging (player side s) = false)
  /\ (isShielding (player side s) = true ->
      isCharging (player side s) = true ->
      chargeLevel (player side s) < 1).
Proof.
  intros H. destruct (reachable_ok _ _ H) as (Hp & _).
  destruct (Hp side) as (Hf & _). exact Hf.
Qed.

Lemma flags_sword_exclusive_witness :
  isShielding (leftPlayer afterShield) = true
  /\ isCharging (leftPlayer afterShield) = true
  /\ chargeLevel (leftPlayer afterShield) < 1.
Proof.
  destruct (flags_sword_exclusive 1016 afterShield sideLeft
              reachable_afterShield) as (_ & H).
  split; [reflexivity|]. split; [reflexivity|].
  apply H; reflexivity.
Defined.

(* ------------------------------------------------------------------ *)
(** ** The two hands of a punch *)

Lemma handP_fires (side handSide : Side) (wr sh hi : Landmark) (scale : Root)
  (now : Z) (p : PlayerState) :
  snd (handP side handSide wr sh hi scale now p)
  = (if handFires handSide wr sh hi scale p then [punchFrom side wr] else [])
  /\ lastPunchTime (fst (handP side handSide wr sh hi scale now p))
     = (if handFires handSide wr sh hi scale p then now
        else lastPunchTime p)
  /\ handBusy (fst (handP side handSide wr sh hi scale now p)) = handBusy p
  /\ wrist_of (opponent handSide)
       (prevWrists (fst (handP side handSide wr sh hi scale now p)))
     = wrist_of (opponent handSide) (prevWrists p).
Proof.
  unfold handP, handFires.
  destruct (outsideChestBand wr sh hi); cbn [negb andb fst snd];
    [repeat split|].
  destruct (punchTrigger wr sh scale (wrist_of handSide (prevWrists p)));
    cbn [fst snd]; repeat split; destruct handSide; reflexivity.
Qed.

(** C2, as stated, fails: with both arms stretched at chest height, each
    hand meets the height band, velocity and extension conditions and the
    cooldown has elapsed when the tick starts, yet the tick spawns one
    standard projectile, the left hand's. *)
Lemma both_hands_one_punch :
  let p := leftPlayer initialState in
  let scale := bodyScale leftShoulderAt rightShoulderAt leftHipAt in
  coolingDown 1000 p = false
  /\ handFires sideLeft leftFist leftShoulderAt leftHipAt scale p = true
  /\ handFires sideRight rightFist rightShoulderAt rightHipAt scale p = true
  /\ exists s',
       processPlayer sideLeft punchPose (steady 1000 0%nat) initialState
       = Ok tt s'
       /\ handBusy (leftPlayer s') = false
       /\ projectiles s' = [punchFrom sideLeft leftFist].
Proof.
  cbv zeta. split; [reflexivity|]. split; [reflexivity|].
  split; [reflexivity|].
  eexists. split; [vm_compute; reflexivity|]. split; reflexivity.
Qed.

(** C2, amended.  When no gesture claims the player and the per-player
    cooldown has elapsed, the hands are checked in turn, left then right:
    the left hand fires when it meets the conditions, and the cooldown it
    resets keeps the right hand from firing on that tick; the right hand
    fires when the left does not. *)
Theorem punch_hands_in_turn (side : Side) (landmarks : Pose)
  (nowLeft nowRight : Z) (s : GameState) (ls rs lw rw lh rh : Landmark) :
  at_index landmarks 11 = Some ls -> at_index landmarks 12 = Some rs ->
  at_index landmarks 15 = Some lw -> at_index landmarks 16 = Some rw ->
  at_index landmarks 23 = Some lh -> at_index landmarks 24 = Some rh ->
  handBusy (player side s) = false ->
  coolingDown nowLeft (player side s) = false ->
  coolingDown nowRight (player side s) = false ->
  (nowRight - nowLeft < PUNCH_COOLDOWN)%Z ->
  let scale := bodyScale ls rs lh in
  exists s',
    detectPunch side landmarks nowLeft nowRight s = Ok tt s'
    /\ projectiles s'
       = projectiles s
         ++ (if handFires sideLeft lw ls lh scale (player side s)
             then [punchFrom side lw]
             else if handFires sideRight rw rs rh scale (player side s)
                  then [punchFrom side rw]
                  else []).
Proof.
  intros E11 E12 E15 E16 E23 E24 Hbusy HcoolL HcoolR Hgap scale.
  set (p := player side s) in *.
  set (out := if handFires sideLeft lw ls lh scale p
              then [punchFrom side lw]
              else if handFires sideRight rw rs rh scale p
                   then [punchFrom side rw]
                   else []).
  assert (W : wp False side s (detectPunch side landmarks nowLeft nowRight)
                (fun _ _ l' => l' = out) p []).
  { unfold detectPunch. rewrite E11, E12, E15, E16, E23, E24.
    repeat wp_step. cbn [with_opt]. repeat wp_step. cbn [with_opt].
    repeat wp_step. cbn [with_opt]. wp_step.
    fold (bodyScale ls rs lh). fold scale.
    apply checkHand_wp;
      [intros G; rewrite Hbusy, HcoolL in G; discriminate G|].
    intros _ _. cbn [with_opt].
    destruct (handP_fires side sideLeft lw ls lh scale nowLeft p)
      as (Hout & Htime & Hb & Hprev).
    set (p1 := fst (handP side sideLeft lw ls lh scale nowLeft p)) in *.
    rewrite Hout. cbn [app].
    apply checkHand_wp.
    - intros G. subst out.
      destruct (handFires sideLeft lw ls lh scale p) eqn:F; [reflexivity|].
      exfalso. unfold coolingDown in *. rewrite Hb, Hbusy, Htime in G.
      cbn [orb] in G. congruence.
    - intros _ Hcool. cbn [with_opt].
      destruct (handP_fires side sideRight rw rs rh scale nowRight p1)
        as (Hout2 & _). rewrite Hout2. subst out.
      destruct (handFires sideLeft lw ls lh scale p) eqn:F.
      + exfalso. unfold coolingDown in Hcool. rewrite Htime in Hcool.
        apply Z.ltb_ge in Hcool. lia.
      + cbn [app]. unfold handFires. cbn [opponent] in Hprev.
        cbn [wrist_of] in *. now rewrite Hprev. }
  unfold wp in W. subst p. rewrite commit_eta in W.
  destruct (detectPunch side landmarks nowLeft nowRight s) as [[] s'|];
    [|contradiction].
  destruct W as (p' & l' & -> & ->).
  exists (commit side p' out s). split; [reflexivity|].
  apply commit_projectiles.
Qed.

Lemma punch_hands_in_turn_witness :
  exists s',
    detectPunch sideLeft punchPose 1000 1000 initialState = Ok tt s'
    /\ projectiles s' = [punchFrom sideLeft leftFist].
Proof.
  destruct (punch_hands_in_turn sideLeft punchPose 1000 1000 initialState
              leftShoulderAt rightShoulderAt leftFist rightFist
              leftHipAt rightHipAt
              eq_refl eq_refl eq_refl eq_refl eq_refl eq_refl
              eq_refl eq_refl eq_refl eq_refl) as (s' & Hrun & Hout).
  exists s'. split; [exact Hrun|]. rewrite Hout. reflexivity.
Defined.

(* ------------------------------------------------------------------ *)
(** ** The special attack *)

Lemma isHoldingPose_shieldP (lw rw ls rs : Landmark) (p : PlayerState) :
  isHoldingPose lw rw ls rs (shieldP lw rw ls rs p) = chargeHeld lw rw ls rs p.
Proof.
  unfold isHoldingPose, chargeHeld, shieldP.
  destruct (isShieldPose lw rw ls rs), (isSpecialPoseRaw lw rw ls rs);
    reflexivity.
Qed.

Lemma gestureP_held (side : Side) (lw rw ls rs : Landmark) (clk : Clock)
  (p : PlayerState) :
  chargeHeld lw rw ls rs p = true ->
  snd (gestureP side lw rw ls rs clk p) = []
  /\ isCharging (fst (gestureP side lw rw ls rs clk p)) = true.
Proof.
  intros H. unfold gestureP, specialP.
  rewrite isHoldingPose_shieldP, H. cbn [fst snd].
  destruct (isCharging (shieldP lw rw ls rs p)) eqn:E; psimpl;
    rewrite ?E, orb_true_r; cbn [fst snd]; psimpl; rewrite ?E;
    split; reflexivity.
Qed.

Lemma gestureP_release (side : Side) (lw rw ls rs : Landmark) (clk : Clock)
  (p : PlayerState) :
  isCharging p = true ->
  chargeHeld lw rw ls rs p = false ->
  1 <= chargeLevel p ->
  isCharging (fst (gestureP side lw rw ls rs clk p)) = false
  /\ chargeLevel (fst (gestureP side lw rw ls rs clk p)) = 0
  /\ exists rest,
       snd (gestureP side lw rw ls rs clk p)
       = specialProjectile side ((1 - midX lw rw) * width)
           (midY lw rw * height) :: rest
       /\ Forall (fun pr => type pr <> special) rest.
Proof.
  intros Hc Hh Hl. unfold gestureP, specialP.
  rewrite isHoldingPose_shieldP, Hh.
  assert (E1 : isCharging (shieldP lw rw ls rs p) = true)
    by (unfold shieldP; destruct (isShieldPose lw rw ls rs); exact Hc).
  assert (E2 : chargeLevel (shieldP lw rw ls rs p) = chargeLevel p)
    by (unfold shieldP; destruct (isShieldPose lw rw ls rs); reflexivity).
  rewrite E1, E2. apply Qgeb_ge in Hl. rewrite Hl. cbn [fst snd].
  match goal with
  | |- context [if ?c then (?a, []) else ?b] => destruct c
  end.
  - cbn [fst snd]. repeat split. eexists. split; [reflexivity|constructor].
  - unfold swordP. split_ifs; cbn [fst snd]; repeat split;
      eexists; (split; [reflexivity|]); repeat constructor; discriminate.
Qed.

(** C3.  For a charging player whose body is processed: while the pose is
    held the tick pushes no projectile and the player stays charging,
    whatever the charge level; when the pose is not held and the charge
    level has reached 1, the tick pushes exactly one projectile of kind
    special, with damage 10 and blocked damage 3, and leaves [isCharging]
    false and [chargeLevel] 0. *)
Theorem special_fires_on_release (side : Side) (landmarks : Pose)
  (clk : Clock) (s : GameState) (lw rw ls rs : Landmark) :
  hasExpected landmarks = true ->
  at_index landmarks 15 = Some lw -> at_index landmarks 16 = Some rw ->
  at_index landmarks 11 = Some ls -> at_index landmarks 12 = Some rs ->
  isCharging (player side s) = true ->
  exists s',
    processPlayer side landmarks clk s = Ok tt s'
    /\ (chargeHeld lw rw ls rs (player side s) = true ->
        projectiles s' = projectiles s
        /\ isCharging (player side s') = true)
    /\ (chargeHeld lw rw ls rs (player side s) = false ->
        1 <= chargeLevel (player side s) ->
        isCharging (player side s') = false
        /\ chargeLevel (player side s') = 0
        /\ exists shot rest,
             projectiles s' = projectiles s ++ shot :: rest
             /\ type shot = special /\ damage shot = 10
             /\ blockDamage shot = 3 /\ owner shot = side
             /\ Forall (fun pr => type pr <> special) rest).
Proof.
  intros Hall E15 E16 E11 E12 Hc.
  destruct (processPlayer_total side landmarks clk s Hall) as (s' & Hrun).
  exists s'. split; [exact Hrun|].
  destruct (processPlayer_inv _ _ _ _ _ Hrun)
    as (lw' & rw' & ls' & rs' & p' & lnew & F15 & F16 & F11 & F12
        & (F & S & B) & ->).
  rewrite E15 in F15. rewrite E16 in F16. rewrite E11 in F11.
  rewrite E12 in F12.
  injection F15 as <-. injection F16 as <-. injection F11 as <-.
  injection F12 as <-.
  set (p0 := boxed landmarks (player side s)) in *.
  destruct (punchFrame_action _ _ F) as (Ea & _).
  unfold action in Ea.
  rewrite commit_player, commit_projectiles. split.
  - intros Hh.
    destruct (gestureP_held side lw rw ls rs clk p0 Hh) as (Hout & Hch).
    assert (Hb : handBusy (fst (gestureP side lw rw ls rs clk p0)) = true)
      by (unfold handBusy; rewrite Hch; apply orb_true_iff; left;
          apply orb_true_r).
    destruct (B Hb) as (-> & ->). rewrite Hout, app_nil_r.
    split; [reflexivity|exact Hch].
  - intros Hh Hl.
    destruct (gestureP_release side lw rw ls rs clk p0 Hc Hh Hl)
      as (Hch & Hlv & rest & Hout & Hrest).
    split; [congruence|]. split; [congruence|].
    eexists _, (rest ++ lnew). rewrite Hout. cbn [app].
    split; [reflexivity|]. repeat split.
    apply Forall_app. split; [exact Hrest|].
    eapply Forall_impl; [|exact S]. intros pr (sx & sy & ->). discriminate.
Qed.

Lemma special_fires_on_release_witness :
  exists s',
    processPlayer sideLeft restPose (steady 2616 0%nat) fullCharge = Ok tt s'
    /\ isCharging (leftPlayer s') = false
    /\ chargeLevel (leftPlayer s') = 0.
Proof.
  destruct (special_fires_on_release sideLeft restPose (steady 2616 0%nat)
              fullCharge
              (landmarkAt (8 # 10) (7 # 10)) (landmarkAt (5 # 10) (7 # 10))
              leftShoulderAt rightShoulderAt
              eq_refl eq_refl eq_refl eq_refl eq_refl eq_refl)
    as (s' & Hrun & _ & Hrel).
  exists s'. split; [exact Hrun|].
  destruct (Hrel eq_refl) as (Hc & Hl & _).
  - vm_compute. discriminate.
  - split; [exact Hc|exact Hl].
Defined.

(* ------------------------------------------------------------------ *)
(** ** The damage table *)

Lemma atSimulation_fromTable (s : GameState) :
  atSimulation s -> Forall fromTable (projectiles s).
Proof.
  intros (t & t' & clock & s0 & det & s1 & Hr & Hclk & _ & Hpose & ->).
  destruct (posePhase_ok _ _ _ _ _ _ (reachable_ok _ _ Hr) Hclk Hpose)
    as (_ & _ & H).
  destruct (aiStage_frame (markUndetected det s1)) as (_ & _ & ->).
  now rewrite markUndetected_projectiles.
Qed.

Lemma strike_hp (q : Projectile) (s : GameState) :
  fromTable q ->
  hp (player (opponent (owner q)) (strike q s))
  == hp (player (opponent (owner q)) s)
     - tableDamage (type q) (isShielding (player (opponent (owner q)) s)).
Proof.
  intros (Hd & Hb). unfold strike, actualDamage, tableDamage.
  rewrite Hd, Hb.
  destruct (isShielding (player (opponent (owner q)) s)), (type q);
    cbn [blockedDamage directDamage Qgtb Qltb Qle_bool Qnum Qden
         Z.leb Z.mul Z.compare Pos.mul negb Pos.compare Pos.compare_cont];
    destruct (owner q); cbn; ring.
Qed.

(* ------------------------------------------------------------------ *)
(** ** Properties: the pose loop, body by body *)

Lemma Side_eqb_eq (a b : Side) : Side_eqb a b = true <-> a = b.
Proof. destruct a, b; cbn; split; congruence. Qed.

Lemma Side_eqb_opponent (a : Side) : Side_eqb (opponent a) a = false.
Proof. destruct a; reflexivity. Qed.

Lemma Side_eqb_opponent' (a : Side) : Side_eqb a (opponent a) = false.
Proof. destruct a; reflexivity. Qed.

Lemma opponent_or (a b : Side) : a = b \/ a = opponent b.
Proof. destruct a, b; auto. Qed.

Lemma gestureP_rest (side : Side) (lw rw ls rs : Landmark) (clk : Clock)
  (p : PlayerState) :
  detected (fst (gestureP side lw rw ls rs clk p)) = detected p
  /\ isAI (fst (gestureP side lw rw ls rs clk p)) = isAI p
  /\ hp (fst (gestureP side lw rw ls rs clk p)) = hp p
  /\ boundingBox (fst (gestureP side lw rw ls rs clk p)) = boundingBox p.
Proof.
  unfold gestureP, specialP, shieldP, swordP. destruct p. psimpl.
  split_ifs; psimpl; repeat split.
Qed.

(** What one call of [processPlayer] does to the state. *)
Lemma processPlayer_effect (side : Side) (landmarks : Pose) (clk : Clock)
  (s s1 : GameState) :
  processPlayer side landmarks clk s = Ok tt s1 ->
  exists lw rw ls rs l,
    at_index landmarks 15 = Some lw /\ at_index landmarks 16 = Some rw
    /\ at_index landmarks 11 = Some ls /\ at_index landmarks 12 = Some rs
    /\ projectiles s1 = projectiles s ++ l
    /\ Forall (fun pr => owner pr = side) l
    /\ player (opponent side) s1 = player (opponent side) s
    /\ detected (player side s1) = true
    /\ action (player side s1)
       = action (fst (gestureP side lw rw ls rs clk
                        (boxed landmarks (player side s)))).
Proof.
  intros Hrun.
  destruct (processPlayer_inv _ _ _ _ _ Hrun)
    as (lw & rw & ls & rs & p' & lnew & E15 & E16 & E11 & E12
        & (F & S & _) & ->).
  exists lw, rw, ls, rs,
    (snd (gestureP side lw rw ls rs clk (boxed landmarks (player side s)))
     ++ lnew).
  do 4 (split; [assumption|]).
  split; [apply commit_projectiles|]. split; [|split; [|split]].
  - apply Forall_app. split.
    + eapply Forall_impl; [|apply gestureP_emits]. cbv beta. tauto.
    + eapply Forall_impl; [|exact S]. intros pr Hs.
      now apply standardBy_spawn in Hs.
  - apply commit_other.
  - rewrite commit_player.
    destruct (punchFrame_action _ _ F) as (_ & _ & _ & _ & ->).
    destruct (gestureP_rest side lw rw ls rs clk
                (boxed landmarks (player side s))) as (-> & _).
    reflexivity.
  - rewrite commit_player. now destruct (punchFrame_action _ _ F).
Qed.

Lemma forEachPose_cons (landmarks : Pose) (centerX : Q)
  (rest : list (Pose * Q)) (clock : nat -> Clock) (i : nat)
  (det : bool * bool) :
  forEachPose ((landmarks, centerX) :: rest) clock i det
  = (processPlayer (sideOfCenter centerX) landmarks (clock i) ;;
     forEachPose rest clock (S i) (mark (sideOfCenter centerX) det)).
Proof.
  cbn [forEachPose]. unfold sideOfCenter.
  destruct (centerX >? 5 # 10); reflexivity.
Qed.

(** Induction over the pose loop. *)
Lemma forEachPose_fold (clock : nat -> Clock)
  (inv : nat -> bool * bool -> GameState -> Prop) (poses : list (Pose * Q)) :
  (forall i det s landmarks centerX s1,
      In (landmarks, centerX) poses -> inv i det s ->
      processPlayer (sideOfCenter centerX) landmarks (clock i) s = Ok tt s1 ->
      inv (S i) (mark (sideOfCenter centerX) det) s1) ->
  forall i det s det' s',
    inv i det s ->
    forEachPose poses clock i det s = Ok det' s' ->
    exists n, inv n det' s'.
Proof.
  induction poses as [|[landmarks centerX] rest IH];
    intros Hstep i det s det' s' Hinv.
  - cbn [forEachPose]. unfold ret. intros [= <- <-]. eauto.
  - rewrite forEachPose_cons. unfold bind at 1.
    destruct (processPlayer (sideOfCenter centerX) landmarks (clock i) s)
      as [[] s1|] eqn:E; [|discriminate].
    apply IH.
    + intros j d st lm cx st1 Hin. apply Hstep. now right.
    + apply (Hstep i det s landmarks centerX s1); trivial. now left.
Qed.

Lemma mapPoses_result (ls : list Pose) (s s' : GameState)
  (poses : list (Pose * Q)) :
  mapPoses ls s = Ok poses s' -> poses = map withCenter ls.
Proof.
  revert poses. induction ls as [|l rest IH]; intros poses; cbn [mapPoses].
  - unfold ret. now intros [= <- _].
  - unfold bind at 1.
    destruct (at_index l 11) eqn:E11; [|discriminate].
    cbn [deref ret]. unfold bind at 1.
    destruct (at_index l 12) eqn:E12; [|discriminate]. cbn [deref ret].
    unfold bind at 1. destruct (mapPoses rest s) as [r s1|] eqn:E;
      [|discriminate].
    unfold ret. intros [= <- <-]. cbn [map].
    unfold withCenter at 1, centerXOf. rewrite E11, E12.
    f_equal. now apply IH.
Qed.

Lemma posePhase_frame (clock : nat -> Clock) (s s1 : GameState)
  (det : bool * bool) :
  posePhase clock s = Ok det s1 ->
  forEachPose (map withCenter (frame s)) clock 0 (false, false) s
  = Ok det s1.
Proof.
  unfold posePhase, frame. destruct (poseResults s) as [[|l ls]|];
    try (intros H; exact H).
  unfold bind at 1.
  destruct (mapPoses (l :: ls) s) as [poses s0|] eqn:E; [|discriminate].
  rewrite (mapPoses_result _ _ _ _ E).
  apply mapPoses_state in E. now subst s0.
Qed.

(** A side without a body in the frame goes through the pose loop
    untouched, and no projectile of that side is pushed. *)
Lemma posePhase_absent (clock : nat -> Clock) (side : Side)
  (s s1 : GameState) (det : bool * bool) :
  forallb (fun l => negb (assignedTo side l)) (frame s) = true ->
  posePhase clock s = Ok det s1 ->
  player side s1 = player side s
  /\ flagOf side det = false
  /\ filter (ownedBy side) (projectiles s1)
     = filter (ownedBy side) (projectiles s).
Proof.
  intros Habs Hrun. apply posePhase_frame in Hrun.
  rewrite forallb_forall in Habs.
  set (inv := fun (_ : nat) (d : bool * bool) (st : GameState) =>
                player side st = player side s
                /\ flagOf side d = false
                /\ filter (ownedBy side) (projectiles st)
                   = filter (ownedBy side) (projectiles s)).
  assert (Hstep : forall i d st landmarks centerX st1,
             In (landmarks, centerX) (map withCenter (frame s)) ->
             inv i d st ->
             processPlayer (sideOfCenter centerX) landmarks (clock i) st
             = Ok tt st1 ->
             inv (S i) (mark (sideOfCenter centerX) d) st1).
  { intros i d st landmarks centerX st1 Hin (Hp & Hf & Hpr) Hstep.
    apply in_map_iff in Hin. destruct Hin as (l & [= <- <-] & Hin).
    specialize (Habs l Hin). apply negb_true_iff in Habs.
    unfold assignedTo, sideOfPose in Habs.
    assert (Hside : side = opponent (sideOfCenter (centerXOf l))).
    { destruct (opponent_or side (sideOfCenter (centerXOf l))) as [E|E];
        [|exact E].
      subst side. destruct (sideOfCenter (centerXOf l)); discriminate. }
    destruct (processPlayer_effect _ _ _ _ _ Hstep)
      as (lw & rw & ls & rs & lnew & _ & _ & _ & _ & Hl & Hown & Hother & _).
    unfold inv. rewrite Hside in *. rewrite Hother, Hp.
    split; [reflexivity|]. split.
    + destruct (sideOfCenter (centerXOf l)); cbn in *; exact Hf.
    + rewrite Hl, filter_app, Hpr.
      replace (filter _ lnew) with (@nil Projectile);
        [apply app_nil_r|].
      symmetry. clear Hl. induction Hown as [|pr lnew' Ho _ IH];
        [reflexivity|].
      cbn [filter]. unfold ownedBy at 1. rewrite Ho, Side_eqb_opponent'.
      exact IH. }
  assert (Hinit : inv 0%nat (false, false) s)
    by (repeat split; destruct side; reflexivity).
  destruct (forEachPose_fold clock inv _ Hstep _ _ _ _ _ Hinit Hrun)
    as (n & H).
  exact H.
Qed.

Lemma finishTick_detected (side : Side) (det : bool * bool) (s : GameState) :
  detected (player side (finishTick det s))
  = detected (player side (markUndetected det s)).
Proof.
  unfold finishTick. rewrite late_stages_player, projectileStage_player.
  destruct (aiStage_frame (markUndetected det s)) as (Hl & Hr & _).
  destruct side; cbn [player]; [rewrite Hl | rewrite Hr]; reflexivity.
Qed.

(** A side with a body in the frame keeps, after the pose loop, the action
    state and the detection flag the loop gave it. *)
Lemma finishTick_present (side : Side) (det : bool * bool) (s : GameState) :
  flagOf side det = true ->
  action (player side (finishTick det s)) = action (player side s)
  /\ detected (player side (finishTick det s)) = detected (player side s).
Proof.
  intros Hf. destruct (finishTick_player side det s) as (-> & _).
  rewrite finishTick_detected.
  destruct side; cbn [player flagOf] in *;
    [rewrite markUndetected_left | rewrite markUndetected_right];
    rewrite Hf; cbn [negb andb]; [split; reflexivity|].
  rewrite andb_false_r. split; reflexivity.
Qed.

(** A side without a body in the frame ends the tick with its action flags
    cleared: by the reset, or, for the AI slot, because they were clear. *)
Lemma finishTick_absent (side : Side) (det : bool * bool) (s : GameState) :
  flagOf side det = false ->
  (side = sideRight ->
   isAI (rightPlayer s) = true -> isCharging (rightPlayer s) = false) ->
  (isCharging (player side s) = false -> chargeLevel (player side s) = 0) ->
  isCharging (player side (finishTick det s)) = false
  /\ chargeLevel (player side (finishTick det s)) = 0.
Proof.
  intros Hf Hai H0.
  destruct (finishTick_player side det s) as (Ea & _).
  unfold action in Ea. injection Ea as _ -> _ -> _ _.
  destruct side; cbn [player flagOf] in *;
    [rewrite markUndetected_left | rewrite markUndetected_right];
    rewrite Hf; cbn [negb].
  - split; reflexivity.
  - specialize (Hai eq_refl).
    destruct (isAI (rightPlayer s)) eqn:A; cbn [negb];
      destruct (fst det && true); cbn; auto.
Qed.

(* ------------------------------------------------------------------ *)
(** ** Loss of detection *)

Lemma reachable_fullCharge : reachable 2600 fullCharge.
Proof.
  apply (reach_draw 1000 2600 (steady 2600)
           (set_poseResults (Some [chargePose]) afterCharge)).
  - apply reach_pose, reachable_afterCharge.
  - apply steady_clock. lia.
  - vm_compute. reflexivity.
Qed.

(** C9.  On a tick that finds no body for a side, the player of that side
    ends with [isCharging] false and [chargeLevel] 0, whatever the charge
    level was; the pose loop pushes no projectile of that side, and every
    projectile of that side left after the tick is an older one, advanced:
    a full charge is dropped without a special projectile. *)
Theorem undetected_discards_charge (t : Z) (clock : nat -> Clock)
  (s s' : GameState) (side : Side) :
  reachable t s ->
  isGameOver s = false ->
  forallb (fun l => negb (assignedTo side l)) (frame s) = true ->
  draw clock s = Ok tt s' ->
  isCharging (player side s') = false
  /\ chargeLevel (player side s') = 0
  /\ (exists det s1,
        posePhase clock s = Ok det s1 /\ s' = finishTick det s1
        /\ filter (ownedBy side) (projectiles s1)
           = filter (ownedBy side) (projectiles s))
  /\ (forall q, In q (projectiles s') -> owner q = side ->
        exists pr, In pr (projectiles s) /\ owner pr = side
                   /\ q = advance pr).
Proof.
  intros Hr Hgo Habs Hrun. rewrite (draw_stages _ _ Hgo) in Hrun.
  destruct (posePhase clock s) as [det s1|] eqn:Hpose; [|discriminate].
  injection Hrun as <-.
  destruct (posePhase_absent _ _ _ _ _ Habs Hpose) as (Hp & Hf & Hpr).
  pose proof (reachable_ok _ _ Hr) as (Hinv & Hai & _).
  destruct (Hinv side) as (_ & (H0 & _)).
  assert (Hclear : isCharging (player side (finishTick det s1)) = false
                   /\ chargeLevel (player side (finishTick det s1)) = 0).
  { apply finishTick_absent; trivial; [|now rewrite Hp].
    intros ->. cbn [player] in Hp. rewrite Hp. now apply Hai. }
  destruct Hclear as (Hc & Hl).
  split; [exact Hc|]. split; [exact Hl|]. split.
  - exists det, s1. repeat split. exact Hpr.
  - intros q Hq Ho.
    destruct (finishTick_projectiles _ _ _ Hq) as (pr & Hin & ->).
    change (owner (advance pr)) with (owner pr) in Ho.
    exists pr. repeat split; trivial.
    assert (Hin' : In pr (filter (ownedBy side) (projectiles s1))).
    { apply filter_In. split; [exact Hin|].
      unfold ownedBy. now apply Side_eqb_eq. }
    rewrite Hpr in Hin'. now apply filter_In in Hin'.
Qed.

Lemma undetected_discards_charge_witness :
  isCharging (leftPlayer fullCharge) = true
  /\ 1 <= chargeLevel (leftPlayer fullCharge)
  /\ isCharging (leftPlayer afterLoss) = false
  /\ chargeLevel (leftPlayer afterLoss) = 0.
Proof.
  destruct (undetected_discards_charge 2600 (steady 2616)
              (set_poseResults (Some []) fullCharge) afterLoss sideLeft)
    as (Hc & Hl & _).
  - apply reach_pose, reachable_fullCharge.
  - reflexivity.
  - reflexivity.
  - vm_compute. reflexivity.
  - split; [reflexivity|]. split; [vm_compute; discriminate|].
    split; [exact Hc|exact Hl].
Defined.

(* ------------------------------------------------------------------ *)
(** ** The charge level over a tick *)

Lemma flagOf_mark (side sd : Side) (det : bool * bool) :
  flagOf side (mark sd det) = Side_eqb sd side || flagOf side det.
Proof. destruct side, sd; reflexivity. Qed.

Lemma forEachPose_flag (clock : nat -> Clock) (side : Side)
  (poses : list (Pose * Q)) :
  forall i det s det' s',
    forEachPose poses clock i det s = Ok det' s' ->
    flagOf side det'
    = existsb (fun pc => Side_eqb (sideOfCenter (snd pc)) side) poses
      || flagOf side det.
Proof.
  induction poses as [|[landmarks centerX] rest IH]; intros i det s det' s'.
  - cbn [forEachPose existsb]. unfold ret. now intros [= <- _].
  - rewrite forEachPose_cons. unfold bind at 1.
    destruct (processPlayer (sideOfCenter centerX) landmarks (clock i) s)
      as [[] s1|]; [|discriminate].
    intros H. rewrite (IH _ _ _ _ _ H), flagOf_mark. cbn [existsb snd].
    now rewrite orb_assoc, (orb_comm (existsb _ rest)).
Qed.

Lemma posePhase_flag (clock : nat -> Clock) (side : Side) (s s1 : GameState)
  (det : bool * bool) :
  posePhase clock s = Ok det s1 ->
  flagOf side det = existsb (assignedTo side) (frame s).
Proof.
  intros H. apply posePhase_frame in H.
  rewrite (forEachPose_flag _ side _ _ _ _ _ _ H).
  replace (flagOf side (false, false)) with false by (now destruct side).
  rewrite orb_false_r. clear H.
  induction (frame s) as [|l ls IH]; [reflexivity|].
  cbn [map existsb]. now rewrite IH.
Qed.

(** While every body of the side holds the charge pose, the pose loop does
    not lower the charge level of that side. *)
Lemma posePhase_level (clock : nat -> Clock) (t t' : Z) (side : Side)
  (s s1 : GameState) (det : bool * bool) :
  state_ok t s -> clock_from t t' clock ->
  (forall l, In l (frame s) -> assignedTo side l = true ->
             holdsChargePose l = true) ->
  posePhase clock s = Ok det s1 ->
  chargeLevel (player side s) <= chargeLevel (player side s1).
Proof.
  intros Hok Hclk Hheld Hrun. apply posePhase_frame in Hrun.
  set (inv := fun (i : nat) (d : bool * bool) (st : GameState) =>
                exists u, loop_ok u d st
                          /\ (u <= nowSpecial (clock i))%Z
                          /\ chargeLevel (player side s)
                             <= chargeLevel (player side st)).
  assert (Hstep : forall i d st landmarks centerX st1,
             In (landmarks, centerX) (map withCenter (frame s)) ->
             inv i d st ->
             processPlayer (sideOfCenter centerX) landmarks (clock i) st
             = Ok tt st1 ->
             inv (S i) (mark (sideOfCenter centerX) d) st1).
  { intros i d st landmarks centerX st1 Hin (u & Hloop & Hu & Hle) Hstep.
    apply in_map_iff in Hin. destruct Hin as (l & [= <- <-] & Hin).
    exists (nowSpecial (clock i)). split; [|split].
    - pose proof (processPlayer_ok _ _ _ _ _ _ _ Hloop Hu Hstep) as H.
      unfold mark. destruct (sideOfCenter (centerXOf l)); exact H.
    - destruct (Hclk i) as (? & ? & ? & ? & ? & ?). lia.
    - eapply Qle_trans; [exact Hle|].
      destruct (processPlayer_effect _ _ _ _ _ Hstep)
        as (lw & rw & ls & rs & lnew & E15 & E16 & E11 & E12 & _ & _
            & Hother & _ & Ea).
      destruct (opponent_or side (sideOfCenter (centerXOf l))) as [E|E].
      + rewrite <- E in *.
        assert (Ha : assignedTo side l = true)
          by (unfold assignedTo, sideOfPose; rewrite <- E;
              now apply Side_eqb_eq).
        specialize (Hheld l Hin Ha). unfold holdsChargePose in Hheld.
        rewrite E15, E16, E11, E12 in Hheld.
        apply andb_true_iff in Hheld. destruct Hheld as (Hraw & Hsh).
        apply negb_true_iff in Hsh.
        unfold action in Ea. injection Ea as _ _ _ -> _ _.
        destruct Hloop as (Hp & _). destruct (Hp side) as ((Hs & _) & Hc).
        change (chargeLevel (player side st))
          with (chargeLevel (boxed l (player side st))).
        apply gestureP_level_mono with (t := u); trivial.
        intros X. now apply Hs.
      + rewrite E, Hother. apply Qle_refl. }
  assert (Hinit : inv 0%nat (false, false) s).
  { exists t. split; [exact Hok|]. split; [|apply Qle_refl].
    destruct (Hclk 0%nat). lia. }
  destruct (forEachPose_fold clock inv _ Hstep _ _ _ _ _ Hinit Hrun)
    as (n & u & _ & _ & H).
  exact H.
Qed.

(** C8.  In every reachable state the charge level of either player lies
    in [0,1]; and over a tick in which the side has a body in the frame and
    every body of that side holds the charge pose, the charge level of
    that side does not decrease. *)
Theorem charge_level_bounded_monotone :
  (forall t s side,
      reachable t s ->
      0 <= chargeLevel (player side s) /\ chargeLevel (player side s) <= 1)
  /\ (forall t t' clock s s' side,
        reachable t s -> clock_from t t' clock ->
        draw clock s = Ok tt s' ->
        existsb (assignedTo side) (frame s) = true ->
        (forall l, In l (frame s) -> assignedTo side l = true ->
                   holdsChargePose l = true) ->
        chargeLevel (player side s) <= chargeLevel (player side s')).
Proof.
  split.
  - intros t s side Hr. destruct (reachable_ok _ _ Hr) as (Hp & _).
    destruct (Hp side) as (_ & Hc). exact (charge_ok_bounds _ _ Hc).
  - intros t t' clock s s' side Hr Hclk Hrun Hex Hheld.
    destruct (isGameOver s) eqn:G.
    + rewrite (draw_gameOver _ _ G) in Hrun. injection Hrun as <-.
      apply Qle_refl.
    + rewrite (draw_stages _ _ G) in Hrun.
      destruct (posePhase clock s) as [det s1|] eqn:Hpose; [|discriminate].
      injection Hrun as <-.
      pose proof (posePhase_level _ _ _ _ _ _ _ (reachable_ok _ _ Hr) Hclk
                    Hheld Hpose) as Hle.
      assert (Hf : flagOf side det = true)
        by (rewrite (posePhase_flag _ side _ _ _ Hpose); exact Hex).
      destruct (finishTick_present side det s1 Hf) as (Ea & _).
      unfold action in Ea. injection Ea as _ _ _ -> _ _. exact Hle.
Qed.

Lemma charge_level_bounded_monotone_witness :
  (0 <= chargeLevel (leftPlayer fullCharge)
   /\ chargeLevel (leftPlayer fullCharge) <= 1)
  /\ chargeLevel (leftPlayer afterCharge)
     <= chargeLevel (leftPlayer fullCharge).
Proof.
  destruct charge_level_bounded_monotone as (Hbound & Hmono). split.
  - exact (Hbound 2600%Z fullCharge sideLeft reachable_fullCharge).
  - apply (Hmono 1000%Z 2600%Z (steady 2600)
             (set_poseResults (Some [chargePose]) afterCharge) fullCharge
             sideLeft).
    + apply reach_pose, reachable_afterCharge.
    + apply steady_clock. lia.
    + vm_compute. reflexivity.
    + reflexivity.
    + intros l [<-|[]] _. reflexivity.
Defined.

(* ------------------------------------------------------------------ *)
(** ** Incomplete landmark arrays *)

Lemma mapPoses_total (ls : list Pose) (s : GameState) :
  (forall l, In l ls -> hasExpected l = true) ->
  mapPoses ls s = Ok (map withCenter ls) s.
Proof.
  induction ls as [|l rest IH]; intros Hall; [reflexivity|].
  cbn [mapPoses map]. unfold withCenter at 1, centerXOf.
  destruct (hasExpected_at l 11 (Hall l (or_introl eq_refl)))
    as (l11 & E11); [cbn; tauto|].
  destruct (hasExpected_at l 12 (Hall l (or_introl eq_refl)))
    as (l12 & E12); [cbn; tauto|].
  rewrite E11, E12. unfold bind, deref, ret.
  rewrite IH; [reflexivity|]. intros l' Hl'. apply Hall. now right.
Qed.

Lemma forEachPose_total (clock : nat -> Clock) (poses : list (Pose * Q)) :
  (forall pc, In pc poses -> hasExpected (fst pc) = true) ->
  forall i det s, exists det' s',
    forEachPose poses clock i det s = Ok det' s'.
Proof.
  induction poses as [|[landmarks centerX] rest IH]; intros Hall i det s.
  - cbn [forEachPose]. unfold ret. eauto.
  - rewrite forEachPose_cons. unfold bind at 1.
    destruct (processPlayer_total (sideOfCenter centerX) landmarks (clock i) s
                (Hall _ (or_introl eq_refl))) as (s1 & ->).
    apply IH. intros pc Hpc. apply Hall. now right.
Qed.

Lemma posePhase_total (clock : nat -> Clock) (s : GameState) :
  (forall l, In l (frame s) -> hasExpected l = true) ->
  exists det s1, posePhase clock s = Ok det s1.
Proof.
  unfold posePhase, frame. destruct (poseResults s) as [[|l ls]|];
    intros Hall; eauto.
  unfold bind at 1. rewrite (mapPoses_total _ _ Hall).
  apply forEachPose_total. intros pc Hpc.
  apply in_map_iff in Hpc. destruct Hpc as (l' & <- & Hl').
  now apply Hall.
Qed.

Lemma forEachPose_detected (clock : nat -> Clock) (side : Side)
  (poses : list (Pose * Q)) :
  forall i det s det' s',
    forEachPose poses clock i det s = Ok det' s' ->
    existsb (fun pc => Side_eqb (sideOfCenter (snd pc)) side) poses = true
    \/ detected (player side s) = true ->
    detected (player side s') = true.
Proof.
  induction poses as [|[landmarks centerX] rest IH]; intros i det s det' s'.
  - cbn [forEachPose existsb]. unfold ret. intros [= _ <-] [H|H];
      [discriminate|exact H].
  - rewrite forEachPose_cons. unfold bind at 1.
    destruct (processPlayer (sideOfCenter centerX) landmarks (clock i) s)
      as [[] s1|] eqn:E; [|discriminate].
    intros Hrun Hex. apply (IH _ _ _ _ _ Hrun).
    destruct (processPlayer_effect _ _ _ _ _ E)
      as (lw & rw & ls & rs & lnew & _ & _ & _ & _ & _ & _ & Hother
          & Hdet & _).
    cbn [existsb snd] in Hex.
    destruct (opponent_or side (sideOfCenter centerX)) as [->|Eq].
    + now right.
    + rewrite Eq, Hother, <- Eq.
      rewrite Eq in Hex at 1. rewrite Side_eqb_opponent', orb_false_l in Hex.
      exact Hex.
Qed.

Lemma posePhase_detected (clock : nat -> Clock) (side : Side)
  (s s1 : GameState) (det : bool * bool) :
  posePhase clock s = Ok det s1 ->
  existsb (assignedTo side) (frame s) = true ->
  detected (player side s1) = true.
Proof.
  intros H Hex. apply posePhase_frame in H.
  apply (forEachPose_detected _ side _ _ _ _ _ _ H). left.
  rewrite <- Hex. clear. induction (frame s) as [|l ls IH]; [reflexivity|].
  cbn [map existsb]. now rewrite IH.
Qed.

(** C6, as stated, fails: a body whose array stops after the right wrist
    lacks the hip landmarks, yet it is assigned to the left slot, marked
    detected and classified (it starts a charge); and a body whose array
    stops after the left shoulder makes the tick raise a [TypeError]. *)
Lemma partial_body_not_rejected :
  hasExpected partialPose = false
  /\ (exists s',
        draw (steady 1000) (set_poseResults (Some [partialPose]) initialState)
        = Ok tt s'
        /\ detected (leftPlayer s') = true
        /\ isCharging (leftPlayer s') = true)
  /\ draw (steady 1000) (set_poseResults (Some [stubPose]) initialState)
     = TypeError.
Proof.
  split; [reflexivity|]. split.
  - eexists. split; [vm_compute; reflexivity|]. split; reflexivity.
  - vm_compute. reflexivity.
Qed.

(** C6, amended.  When every body of the frame holds the landmarks at
    indices 11, 12, 15, 16, 23 and 24, the tick runs to its end; and
    whenever a tick runs to its end, with complete bodies or not, a side
    with a body in the frame is marked detected: there is no check that
    turns a body into "not detected". *)
Theorem complete_frame_processed (clock : nat -> Clock) (s : GameState) :
  ((forall l, In l (frame s) -> hasExpected l = true) ->
   exists s', draw clock s = Ok tt s')
  /\ (forall s',
        draw clock s = Ok tt s' -> isGameOver s = false ->
        forall side, existsb (assignedTo side) (frame s) = true ->
                     detected (player side s') = true).
Proof.
  split.
  - intros Hall. destruct (isGameOver s) eqn:G.
    + exists s. now apply draw_gameOver.
    + destruct (posePhase_total clock s Hall) as (det & s1 & Hpose).
      exists (finishTick det s1). now rewrite (draw_stages _ _ G), Hpose.
  - intros s' Hrun G side Hex. rewrite (draw_stages _ _ G) in Hrun.
    destruct (posePhase clock s) as [det s1|] eqn:Hpose; [|discriminate].
    injection Hrun as <-.
    assert (Hf : flagOf side det = true)
      by (rewrite (posePhase_flag _ side _ _ _ Hpose); exact Hex).
    destruct (finishTick_present side det s1 Hf) as (_ & ->).
    exact (posePhase_detected _ _ _ _ _ Hpose Hex).
Qed.

Lemma complete_frame_processed_witness :
  exists s',
    draw (steady 1000) (set_poseResults (Some [chargePose]) initialState)
    = Ok tt s'
    /\ detected (leftPlayer s') = true.
Proof.
  destruct (complete_frame_processed (steady 1000)
              (set_poseResults (Some [chargePose]) initialState))
    as (Htotal & Hdet).
  destruct Htotal as (s' & Hrun).
  - intros l [<-|[]]. reflexivity.
  - exists s'. split; [exact Hrun|].
    exact (Hdet s' Hrun eq_refl sideLeft eq_refl).
Defined.

(* ------------------------------------------------------------------ *)
(** ** The baseline of the punch velocity *)

(** C7 on two consecutive ticks of the left player, 16 ms apart.  On the
    first tick the body is processed with the left wrist just below the
    chest band: [checkHand] returns before it records the wrist, and the
    stored position stays the initial one.  On the second tick the wrist
    has moved by a hundredth, a one-frame speed below the threshold, yet
    the speed measured against the stored position passes it and a punch
    is fired. *)
Theorem punch_baseline_is_stale :
  draw (steady 1000) (set_poseResults (Some [lowFistPose]) initialState)
  = Ok tt afterLowFist
  /\ detected (leftPlayer afterLowFist) = true
  /\ prevWrists (leftPlayer afterLowFist) = zeroWrists
  /\ root_gtb
       (punchSpeed chestFist leftShoulderAt
          (relativeWrist lowFist leftShoulderAt))
       (root_of PUNCH_SPEED_THRESHOLD) = false
  /\ root_gtb
       (punchSpeed chestFist leftShoulderAt
          (w_left (prevWrists (leftPlayer afterLowFist))))
       (root_of PUNCH_SPEED_THRESHOLD) = true
  /\ exists s2,
       draw (steady 1016)
         (set_poseResults (Some [chestFistPose]) afterLowFist) = Ok tt s2
       /\ projectiles s2 = [advance (punchFrom sideLeft chestFist)].
Proof.
  split; [vm_compute; reflexivity|]. repeat (split; [reflexivity|]).
  eexists. split; [vm_compute; reflexivity|]. vm_compute. reflexivity.
Qed.

(* ------------------------------------------------------------------ *)
(** ** Properties: what the pose loop leaves alone *)

Lemma commit_scenery (side : Side) (p : PlayerState) (l : list Projectile)
  (s : GameState) :
  scenery (commit side p l s) = scenery s.
Proof. destruct side; reflexivity. Qed.

(** A call of [processPlayer] keeps hp and the AI flag of both players and
    everything outside the player records and the projectile list. *)
Lemma processPlayer_keeps (side : Side) (landmarks : Pose) (clk : Clock)
  (s s1 : GameState) :
  processPlayer side landmarks clk s = Ok tt s1 ->
  scenery s1 = scenery s
  /\ forall sd, hp (player sd s1) = hp (player sd s)
                /\ isAI (player sd s1) = isAI (player sd s).
Proof.
  intros Hrun.
  destruct (processPlayer_inv _ _ _ _ _ Hrun)
    as (lw & rw & ls & rs & p' & lnew & _ & _ & _ & _ & (F & _ & _) & ->).
  split; [apply commit_scenery|]. intros sd.
  destruct (opponent_or sd side) as [->| ->].
  - rewrite commit_player.
    destruct (punchFrame_action _ _ F) as (_ & -> & -> & _).
    destruct (gestureP_rest side lw rw ls rs clk
                (boxed landmarks (player side s))) as (_ & -> & -> & _).
    split; reflexivity.
  - rewrite commit_other. split; reflexivity.
Qed.

(** What every call of [processPlayer] keeps, the pose loop keeps. *)
Lemma posePhase_keeps (R : GameState -> Prop) (clock : nat -> Clock)
  (s s1 : GameState) (det : bool * bool) :
  R s ->
  (forall side landmarks clk st st1,
      R st -> processPlayer side landmarks clk st = Ok tt st1 -> R st1) ->
  posePhase clock s = Ok det s1 ->
  R s1.
Proof.
  intros H0 Hstep Hrun. apply posePhase_frame in Hrun.
  destruct (forEachPose_fold clock (fun _ _ st => R st)
              (map withCenter (frame s))) with (i := 0%nat)
    (det := (false, false)) (s := s) (det' := det) (s' := s1)
    as (_ & H); trivial.
  intros i d st landmarks centerX st1 _ HR Hp. exact (Hstep _ _ _ _ _ HR Hp).
Qed.

Lemma posePhase_scenery (clock : nat -> Clock) (s s1 : GameState)
  (det : bool * bool) :
  posePhase clock s = Ok det s1 ->
  scenery s1 = scenery s
  /\ forall sd, hp (player sd s1) = hp (player sd s)
                /\ isAI (player sd s1) = isAI (player sd s).
Proof.
  apply (posePhase_keeps
           (fun st => scenery st = scenery s
                      /\ forall sd, hp (player sd st) = hp (player sd s)
                                    /\ isAI (player sd st)
                                       = isAI (player sd s))).
  - split; [reflexivity|]. intros sd. split; reflexivity.
  - intros side landmarks clk st st1 (Hs & Hp) Hrun.
    destruct (processPlayer_keeps _ _ _ _ _ Hrun) as (Hs1 & Hp1).
    split; [congruence|]. intros sd.
    destruct (Hp sd), (Hp1 sd). split; congruence.
Qed.

(* ------------------------------------------------------------------ *)
(** ** The sample sessions *)

Lemma reachable_later (t t' : Z) (s : GameState) :
  reachable t s -> (t <= t')%Z -> reachable t' s.
Proof.
  intros H. revert t'.
  induction H as [t Ht|t s results _ IH|t s _ IH
                 |t0 t clock s s' H0 _ Hc Hrun]; intros t' Hle.
  - apply reach_init. lia.
  - apply reach_pose. now apply IH.
  - apply reach_reset. now apply IH.
  - apply (reach_draw t0 t' clock s s'); trivial.
    intros i. specialize (Hc i). lia.
Qed.

Lemma play_reachable (script : list (Z * list Pose)) :
  forall t s t' s',
    reachable t s -> play script t s = Some (t', s') -> reachable t' s'.
Proof.
  induction script as [|[t1 f] rest IH]; intros t s t' s' Hr H.
  - cbn in H. injection H as <- <-. exact Hr.
  - cbn [play] in H. destruct (t <=? t1)%Z eqn:Hle; [|discriminate].
    apply Z.leb_le in Hle.
    destruct (draw (steady t1) (set_poseResults (Some f) s))
      as [[] s1|] eqn:Hd; [|discriminate].
    apply (IH t1 s1); trivial.
    apply (reach_draw t t1 (steady t1) (set_poseResults (Some f) s)); trivial.
    + now apply reach_pose.
    + now apply steady_clock.
Qed.

Lemma reachable_afterHit : reachable 1000 afterHit.
Proof.
  apply (play_reachable [(1000%Z, [reachPose])] 0 initialState).
  - apply reach_init. lia.
  - vm_compute. reflexivity.
Qed.

Lemma reachable_afterPunch : reachable 1000 afterPunch.
Proof.
  apply (play_reachable [(1000%Z, [chestFistPose])] 0 initialState).
  - apply reach_init. lia.
  - vm_compute. reflexivity.
Qed.

Lemma reachable_afterMatch : reachable 20516 afterMatch.
Proof.
  apply (play_reachable (rounds 10 1000) 0 initialState).
  - apply reach_init. lia.
  - vm_compute. reflexivity.
Qed.

(* ------------------------------------------------------------------ *)
(** ** Properties: health and the end of the match *)

Lemma strike_hp_le (q : Projectile) (s : GameState) (sd : Side) :
  hp (player sd (strike q s)) <= hp (player sd s).
Proof.
  unfold strike.
  destruct (actualDamage q (player (opponent (owner q)) s) >? 0) eqn:D.
  - apply Qgtb_gt in D.
    destruct (opponent_or sd (opponent (owner q))) as [->|E].
    + replace (hp (player (opponent (owner q)) _))
        with (hp (player (opponent (owner q)) s)
              - actualDamage q (player (opponent (owner q)) s))
        by (destruct (owner q); reflexivity).
      lra.
    + replace (hp (player sd _)) with (hp (player sd s));
        [apply Qle_refl|].
      rewrite E. destruct (owner q); reflexivity.
  - replace (hp (player sd _)) with (hp (player sd s)); [apply Qle_refl|].
    destruct sd; reflexivity.
Qed.

Lemma sweep_hp_le (l : list Projectile) (s : GameState) (sd : Side) :
  hp (player sd (snd (sweep l s))) <= hp (player sd s).
Proof.
  induction l as [|proj rest IH]; cbn [sweep]; [apply Qle_refl|].
  destruct (verdict proj (snd (sweep rest s))); cbn [snd]; try exact IH.
  eapply Qle_trans; [apply strike_hp_le|exact IH].
Qed.

Lemma markUndetected_hp (det : bool * bool) (s : GameState) (sd : Side) :
  hp (player sd (markUndetected det s)) = hp (player sd s).
Proof.
  destruct sd; cbn [player];
    [rewrite markUndetected_left | rewrite markUndetected_right];
    destruct det as [[] []]; cbn [fst snd negb andb]; try reflexivity;
    destruct (isAI (rightPlayer s)); reflexivity.
Qed.

Lemma aiStage_hp (s : GameState) (sd : Side) :
  hp (player sd (aiStage s)) = hp (player sd s).
Proof.
  destruct (aiStage_frame s) as (Hl & Hr & _).
  destruct sd; cbn [player]; [now rewrite Hl | now rewrite Hr].
Qed.

Lemma player_set_projectiles (sd : Side) (l : list Projectile)
  (s : GameState) :
  player sd (set_projectiles l s) = player sd s.
Proof. destruct sd; reflexivity. Qed.

Lemma finishTick_hp_le (det : bool * bool) (s : GameState) (sd : Side) :
  hp (player sd (finishTick det s)) <= hp (player sd s).
Proof.
  unfold finishTick. rewrite late_stages_player.
  unfold projectileStage.
  rewrite player_set_projectiles.
  eapply Qle_trans; [apply sweep_hp_le|].
  rewrite aiStage_hp, markUndetected_hp. apply Qle_refl.
Qed.

(** X1.  A frame never raises the hp of a player. *)
Theorem hp_never_increases (clock : nat -> Clock) (s s' : GameState)
  (side : Side) :
  draw clock s = Ok tt s' ->
  hp (player side s') <= hp (player side s).
Proof.
  intros Hrun. destruct (isGameOver s) eqn:G.
  - rewrite (draw_gameOver _ _ G) in Hrun. injection Hrun as <-.
    apply Qle_refl.
  - rewrite (draw_stages _ _ G) in Hrun.
    destruct (posePhase clock s) as [det s1|] eqn:Hpose; [|discriminate].
    injection Hrun as <-.
    destruct (posePhase_scenery _ _ _ _ Hpose) as (_ & Hp).
    destruct (Hp side) as (<- & _). apply finishTick_hp_le.
Qed.

Lemma hp_never_increases_witness :
  draw (steady 1000) (set_poseResults (Some [reachPose]) initialState)
  = Ok tt afterHit
  /\ hp (rightPlayer afterHit) <= hp (rightPlayer initialState)
  /\ hp (rightPlayer afterHit) == 98.
Proof.
  split; [vm_compute; reflexivity|]. split; [|reflexivity].
  apply (hp_never_increases (steady 1000)
           (set_poseResults (Some [reachPose]) initialState) afterHit
           sideRight).
  vm_compute. reflexivity.
Defined.

Lemma strike_scenery (q : Projectile) (s : GameState) :
  poseResults (strike q s) = poseResults s
  /\ virtualTargetY (strike q s) = virtualTargetY s
  /\ virtualTargetSpeed (strike q s) = virtualTargetSpeed s
  /\ isGameOver (strike q s) = isGameOver s.
Proof.
  unfold strike.
  destruct (actualDamage q (player (opponent (owner q)) s) >? 0);
    [destruct (owner q)|]; repeat split.
Qed.

Lemma sweep_scenery (l : list Projectile) (s : GameState) :
  poseResults (snd (sweep l s)) = poseResults s
  /\ virtualTargetY (snd (sweep l s)) = virtualTargetY s
  /\ virtualTargetSpeed (snd (sweep l s)) = virtualTargetSpeed s
  /\ isGameOver (snd (sweep l s)) = isGameOver s.
Proof.
  induction l as [|proj rest IH]; cbn [sweep]; [repeat split|].
  destruct (verdict proj (snd (sweep rest s))); cbn [snd]; try exact IH.
  destruct (strike_scenery (advance proj) (snd (sweep rest s)))
    as (-> & -> & -> & ->).
  exact IH.
Qed.

Lemma markUndetected_scenery (det : bool * bool) (s : GameState) :
  scenery (markUndetected det s) = scenery s.
Proof.
  unfold markUndetected. destruct det as [[] []]; cbn [fst snd negb andb];
    try reflexivity; destruct (isAI (rightPlayer _)); reflexivity.
Qed.

Lemma aiStage_isGameOver (s : GameState) :
  isGameOver (aiStage s) = isGameOver s.
Proof.
  unfold aiStage. destruct (isAI (rightPlayer s)); [|reflexivity].
  cbn [updateAI].
  destruct ((virtualTargetY s + virtualTargetSpeed s >? 7 # 10)
            || (virtualTargetY s + virtualTargetSpeed s <? 3 # 10));
    reflexivity.
Qed.

(** The state a tick hands to the test that ends the match. *)
Lemma finishTick_gameOver (det : bool * bool) (s : GameState) :
  isGameOver s = false ->
  isGameOver (finishTick det s) = someoneDown (finishTick det s).
Proof.
  intros G. unfold finishTick.
  set (m := textStage (projectileStage (aiStage (markUndetected det s)))).
  assert (Gm : isGameOver m = false).
  { subst m. unfold textStage, projectileStage. cbn.
    destruct (sweep_scenery
                (projectiles (aiStage (markUndetected det s)))
                (aiStage (markUndetected det s))) as (_ & _ & _ & ->).
    rewrite aiStage_isGameOver.
    pose proof (markUndetected_scenery det s) as E. unfold scenery in E.
    injection E as _ _ _ _ ->. exact G. }
  unfold gameOverStage. fold (someoneDown m).
  destruct (someoneDown m) eqn:D.
  - cbn [isGameOver set_isGameOver]. symmetry. exact D.
  - rewrite Gm. symmetry. exact D.
Qed.

Lemma resetGame_up (s : GameState) :
  isGameOver (resetGame s) = false /\ someoneDown (resetGame s) = false.
Proof. destruct s as [[] [] ? ? ? ? ? ?]. split; reflexivity. Qed.

(** X2.  In every reachable state the match is marked over exactly when the
    hp of a player is at or below zero, and a frame drawn on a match that
    is over changes nothing. *)
Theorem match_over_iff_down (t : Z) (s : GameState) :
  reachable t s ->
  isGameOver s = someoneDown s
  /\ (isGameOver s = true -> forall clock, draw clock s = Ok tt s).
Proof.
  intros Hr. split; [|intros G clock; now apply draw_gameOver].
  induction Hr as [t Ht | t s results _ IH | t s _ IH
                  | t t' clock s s' _ IH Hclk Hrun].
  - reflexivity.
  - exact IH.
  - destruct (resetGame_up s) as (-> & ->). reflexivity.
  - destruct (isGameOver s) eqn:G.
    + rewrite (draw_gameOver _ _ G) in Hrun. injection Hrun as <-.
      now rewrite G.
    + rewrite (draw_stages _ _ G) in Hrun.
      destruct (posePhase clock s) as [det s1|] eqn:Hpose; [|discriminate].
      injection Hrun as <-. apply finishTick_gameOver.
      destruct (posePhase_scenery _ _ _ _ Hpose) as (E & _).
      unfold scenery in E. injection E as _ _ _ _ ->. exact G.
Qed.

Lemma match_over_iff_down_witness :
  reachable 20516 afterMatch
  /\ isGameOver afterMatch = true
  /\ someoneDown afterMatch = true
  /\ draw (steady 20532) afterMatch = Ok tt afterMatch.
Proof.
  split; [exact reachable_afterMatch|].
  destruct (match_over_iff_down 20516 afterMatch reachable_afterMatch)
    as (E & Hfrozen).
  split; [reflexivity|]. split; [exact (eq_trans (eq_sym E) eq_refl)|].
  apply Hfrozen. reflexivity.
Defined.

(* ------------------------------------------------------------------ *)
(** ** Properties: the right slot and the scripted target *)

Lemma aiStage_box (s : GameState) :
  isAI (rightPlayer s) = true ->
  boundingBox (rightPlayer (aiStage s))
  = Some (aiBox (virtualTargetY (aiStage s))).
Proof.
  intros H. unfold aiStage. rewrite H. cbn [updateAI].
  destruct ((virtualTargetY s + virtualTargetSpeed s >? 7 # 10)
            || (virtualTargetY s + virtualTargetSpeed s <? 3 # 10));
    reflexivity.
Qed.

Lemma aiStage_isAI (s : GameState) :
  isAI (rightPlayer (aiStage s)) = isAI (rightPlayer s).
Proof. destruct (aiStage_frame s) as (_ & -> & _). reflexivity. Qed.

Lemma finishTick_target (det : bool * bool) (s : GameState) :
  virtualTargetY (finishTick det s)
  = virtualTargetY (aiStage (markUndetected det s))
  /\ virtualTargetSpeed (finishTick det s)
     = virtualTargetSpeed (aiStage (markUndetected det s))
  /\ boundingBox (rightPlayer (finishTick det s))
     = boundingBox (rightPlayer (aiStage (markUndetected det s))).
Proof.
  unfold finishTick.
  set (m := aiStage (markUndetected det s)).
  pose proof (late_stages_player sideRight (projectileStage m)) as Hp.
  cbn [player] in Hp. rewrite Hp.
  pose proof (projectileStage_player sideRight m) as Hq.
  cbn [player] in Hq. rewrite Hq.
  destruct (sweep_scenery (projectiles m) m) as (_ & Hy & Hv & _).
  unfold gameOverStage.
  destruct ((hp (leftPlayer (textStage (projectileStage m))) <=? 0)
            || (hp (rightPlayer (textStage (projectileStage m))) <=? 0));
    cbn; rewrite Hy, Hv; repeat split.
Qed.

Lemma finishTick_aiBox (det : bool * bool) (s : GameState) :
  isAI (rightPlayer (finishTick det s)) = true ->
  boundingBox (rightPlayer (finishTick det s))
  = Some (aiBox (virtualTargetY (finishTick det s))).
Proof.
  intros A.
  destruct (finishTick_player sideRight det s) as (_ & Hai & _).
  cbn [player] in Hai.
  destruct (finishTick_target det s) as (Hy & _ & Hb).
  rewrite Hb, Hy. apply aiStage_box. now rewrite <- Hai.
Qed.

(** X3.  The mode of the right slot after a frame.  A body assigned to the
    right makes the slot human; failing that, a body assigned to the left
    makes it the scripted target; with no body at all the mode stays.  A
    slot left in scripted mode has the hurtbox of the target at its new
    height. *)
Theorem right_slot_mode (clock : nat -> Clock) (s s' : GameState) :
  draw clock s = Ok tt s' ->
  isGameOver s = false ->
  isAI (rightPlayer s')
  = (if existsb (assignedTo sideRight) (frame s) then false
     else if existsb (assignedTo sideLeft) (frame s) then true
          else isAI (rightPlayer s))
  /\ (isAI (rightPlayer s') = true ->
      boundingBox (rightPlayer s') = Some (aiBox (virtualTargetY s'))).
Proof.
  intros Hrun G. rewrite (draw_stages _ _ G) in Hrun.
  destruct (posePhase clock s) as [det s1|] eqn:Hpose; [|discriminate].
  injection Hrun as <-.
  destruct (finishTick_player sideRight det s1) as (_ & Hai & _).
  cbn [player] in Hai.
  split.
  - rewrite Hai, markUndetected_right.
    rewrite <- (posePhase_flag _ sideRight _ _ _ Hpose).
    rewrite <- (posePhase_flag _ sideLeft _ _ _ Hpose).
    destruct (posePhase_scenery _ _ _ _ Hpose) as (_ & Hp).
    destruct (Hp sideRight) as (_ & Hi). cbn [player] in Hi.
    cbn [flagOf]. rewrite <- Hi.
    destruct det as [[] []]; cbn [fst snd negb andb];
      try reflexivity; destruct (isAI (rightPlayer s1)) eqn:A;
      cbn [negb];
      try (change (isAI (lost (rightPlayer s1)))
             with (isAI (rightPlayer s1)));
      rewrite ?A; reflexivity.
  - apply finishTick_aiBox.
Qed.

Lemma right_slot_mode_witness :
  draw (steady 1000) (set_poseResults (Some [chargePose]) initialState)
  = Ok tt afterCharge
  /\ isAI (rightPlayer afterCharge) = true
  /\ boundingBox (rightPlayer afterCharge)
     = Some (aiBox (virtualTargetY afterCharge)).
Proof.
  split; [vm_compute; reflexivity|].
  destruct (right_slot_mode (steady 1000)
              (set_poseResults (Some [chargePose]) initialState) afterCharge)
    as (E & Hbox).
  - vm_compute. reflexivity.
  - reflexivity.
  - split; [reflexivity|]. apply Hbox. reflexivity.
Defined.



Lemma updateAI_sweep_ok (s : GameState) :
  sweep_ok s -> sweep_ok (aiStage s).
Proof.
  intros ((Hlo & Hhi) & Hv & Hup & Hdown). unfold aiStage.
  destruct (isAI (rightPlayer s)); [|repeat split; assumption].
  cbn [updateAI]. unfold sweep_ok.
  destruct (virtualTargetY s + virtualTargetSpeed s >? 7 # 10) eqn:A;
    [apply Qgtb_gt in A | apply Qgtb_le in A];
    (destruct (virtualTargetY s + virtualTargetSpeed s <? 3 # 10) eqn:B;
     [apply Qltb_lt in B | apply Qltb_ge in B]);
    cbn [orb virtualTargetY virtualTargetSpeed set_virtualTargetY
         set_virtualTargetSpeed set_rightPlayer];
    assert (C1 : 7 # 10 < virtualTargetY s \/ virtualTargetY s <= 7 # 10)
      by (destruct (Qlt_le_dec (7 # 10) (virtualTargetY s)); auto);
    assert (C2 : virtualTargetY s < 3 # 10 \/ 3 # 10 <= virtualTargetY s)
      by (destruct (Qlt_le_dec (virtualTargetY s) (3 # 10)); auto);
    destruct C1 as [C1|C1]; try specialize (Hup C1);
    destruct C2 as [C2|C2]; try specialize (Hdown C2);
    destruct Hv as [Hv|Hv];
    repeat split; try (left; lra); try (right; lra); intros; lra.
Qed.

Lemma draw_sweep_ok (clock : nat -> Clock) (s s' : GameState) :
  sweep_ok s -> draw clock s = Ok tt s' -> sweep_ok s'.
Proof.
  intros Hok Hrun. destruct (isGameOver s) eqn:G.
  - rewrite (draw_gameOver _ _ G) in Hrun. now injection Hrun as <-.
  - rewrite (draw_stages _ _ G) in Hrun.
    destruct (posePhase clock s) as [det s1|] eqn:Hpose; [|discriminate].
    injection Hrun as <-.
    destruct (finishTick_target det s1) as (Hy & Hv & _).
    unfold sweep_ok. rewrite Hy, Hv. apply updateAI_sweep_ok.
    pose proof (markUndetected_scenery det s1) as E1.
    destruct (posePhase_scenery _ _ _ _ Hpose) as (E2 & _).
    unfold scenery in E1, E2. unfold sweep_ok.
    injection E1 as _ _ -> -> _. injection E2 as _ _ -> -> _. exact Hok.
Qed.

Lemma reachable_sweep_ok (t : Z) (s : GameState) :
  reachable t s -> sweep_ok s.
Proof.
  induction 1 as [t Ht | t s results _ IH | t s _ IH
                 | t t' clock s s' _ IH Hclk Hrun].
  - unfold sweep_ok. cbn. repeat split; try (left; reflexivity);
      try discriminate; intros H; discriminate H.
  - exact IH.
  - destruct s as [[] [] ? ? ? ? ? ?]. exact IH.
  - exact (draw_sweep_ok _ _ _ IH Hrun).
Qed.

(** X4.  The scripted target keeps to its band.  In every reachable state
    its height is within half a step of [0.3, 0.7] and its speed is 0.005
    up or down; and after a frame that leaves the right slot in scripted
    mode, the hurtbox is a square of side 120 inside the canvas. *)
Theorem scripted_target_in_band (t : Z) (s : GameState) :
  reachable t s ->
  (295 # 1000 <= virtualTargetY s /\ virtualTargetY s <= 705 # 1000)
  /\ (virtualTargetSpeed s == 5 # 1000
      \/ virtualTargetSpeed s == - (5 # 1000))
  /\ (forall clock s',
        draw clock s = Ok tt s' -> isGameOver s = false ->
        isAI (rightPlayer s') = true ->
        exists b,
          boundingBox (rightPlayer s') = Some b
          /\ 0 <= minX b /\ maxX b <= width
          /\ 0 <= minY b /\ maxY b <= height
          /\ maxX b - minX b == 120 /\ maxY b - minY b == 120).
Proof.
  intros Hr. destruct (reachable_sweep_ok _ _ Hr) as (Hband & Hv & Hrest).
  split; [exact Hband|]. split; [exact Hv|].
  intros clock s' Hrun G A.
  exists (aiBox (virtualTargetY s')). split.
  { rewrite (draw_stages _ _ G) in Hrun.
    destruct (posePhase clock s) as [det s1|]; [|discriminate].
    injection Hrun as <-. now apply finishTick_aiBox. }
  destruct (draw_sweep_ok clock s s' (reachable_sweep_ok _ _ Hr) Hrun)
    as ((Hlo & Hhi) & _).
  unfold aiBox, width, height, CANVAS_WIDTH, CANVAS_HEIGHT.
  cbn [minX minY maxX maxY].
  assert (E : 120 / 2 == 60) by reflexivity.
  repeat split; rewrite E; lra.
Qed.

Lemma scripted_target_in_band_witness :
  reachable 1000 (set_poseResults (Some [chargePose]) afterCharge)
  /\ draw (steady 2600) (set_poseResults (Some [chargePose]) afterCharge)
     = Ok tt fullCharge
  /\ exists b,
       boundingBox (rightPlayer fullCharge) = Some b
       /\ 0 <= minX b /\ maxX b <= width
       /\ 0 <= minY b /\ maxY b <= height
       /\ maxX b - minX b == 120 /\ maxY b - minY b == 120.
Proof.
  assert (Hr : reachable 1000
                 (set_poseResults (Some [chargePose]) afterCharge))
    by apply reach_pose, reachable_afterCharge.
  split; [exact Hr|]. split; [vm_compute; reflexivity|].
  destruct (scripted_target_in_band 1000 _ Hr) as (_ & _ & Hbox).
  apply (Hbox (steady 2600) fullCharge).
  - vm_compute. reflexivity.
  - reflexivity.
  - reflexivity.
Defined.

(* ------------------------------------------------------------------ *)
(** ** Properties: a left player without a body *)

Lemma set_hp_same (p : PlayerState) : set_hp (hp p) p = p.
Proof. destruct p; reflexivity. Qed.

(** X5.  Over a frame that finds no body for the left slot, the left player
    ends undetected and without hurtbox, with [isShielding], [isCharging]
    and [hasSword] false and [chargeLevel] 0, whatever they were; the hp is
    as before, so no projectile damaged it on that frame, and so are the
    cooldown stamps, the charge stamps, the sword height and the wrist
    history. *)
Theorem undetected_left_untouched (clock : nat -> Clock) (s s' : GameState) :
  draw clock s = Ok tt s' ->
  isGameOver s = false ->
  forallb (fun l => negb (assignedTo sideLeft l)) (frame s) = true ->
  (detected (leftPlayer s') = false
   /\ boundingBox (leftPlayer s') = None)
  /\ (isShielding (leftPlayer s') = false
      /\ isCharging (leftPlayer s') = false
      /\ chargeLevel (leftPlayer s') = 0
      /\ hasSword (leftPlayer s') = false)
  /\ hp (leftPlayer s') = hp (leftPlayer s)
  /\ (id (leftPlayer s') = id (leftPlayer s)
      /\ isAI (leftPlayer s') = isAI (leftPlayer s)
      /\ color (leftPlayer s') = color (leftPlayer s)
      /\ lastPunchTime (leftPlayer s') = lastPunchTime (leftPlayer s)
      /\ chargeStartTime (leftPlayer s') = chargeStartTime (leftPlayer s)
      /\ prevSwordY (leftPlayer s') = prevSwordY (leftPlayer s)
      /\ lastSwordFireTime (leftPlayer s')
         = lastSwordFireTime (leftPlayer s)
      /\ lastPoseTime (leftPlayer s') = lastPoseTime (leftPlayer s)
      /\ prevWrists (leftPlayer s') = prevWrists (leftPlayer s)).
Proof.
  intros Hrun G Habs. rewrite (draw_stages _ _ G) in Hrun.
  destruct (posePhase clock s) as [det s1|] eqn:Hpose; [|discriminate].
  injection Hrun as <-.
  destruct (posePhase_absent _ _ _ _ _ Habs Hpose) as (Hp & Hf & _).
  cbn [player flagOf] in Hp, Hf.
  assert (E : leftPlayer (finishTick det s1) = lost (leftPlayer s)).
  { unfold finishTick.
    pose proof (late_stages_player sideLeft
                  (projectileStage (aiStage (markUndetected det s1)))) as H1.
    cbn [player] in H1. rewrite H1. clear H1.
    set (m := aiStage (markUndetected det s1)).
    assert (Hm : leftPlayer m = lost (leftPlayer s)).
    { subst m. destruct (aiStage_frame (markUndetected det s1)) as (-> & _).
      rewrite markUndetected_left, Hf, Hp. reflexivity. }
    pose proof (projectileStage_player sideLeft m) as H2.
    cbn [player] in H2. rewrite H2.
    unfold projectileStage.
    pose proof (player_set_projectiles sideLeft
                  (fst (sweep (projectiles m) m))
                  (snd (sweep (projectiles m) m))) as H3.
    cbn [player] in H3. rewrite H3.
    pose proof (sweep_no_box_hp sideLeft (projectiles m) m) as H4.
    cbn [player] in H4. rewrite H4 by (rewrite Hm; reflexivity).
    rewrite Hm. apply set_hp_same. }
  rewrite E. unfold lost, resetPlayerAction.
  destruct (leftPlayer s). repeat split.
Qed.

Lemma undetected_left_untouched_witness :
  draw (steady 2616) (set_poseResults (Some []) fullCharge) = Ok tt afterLoss
  /\ isCharging (leftPlayer fullCharge) = true
  /\ chargeLevel (leftPlayer fullCharge) == 1
  /\ isCharging (leftPlayer afterLoss) = false
  /\ chargeLevel (leftPlayer afterLoss) = 0
  /\ boundingBox (leftPlayer afterLoss) = None
  /\ lastPoseTime (leftPlayer afterLoss) = 2600%Z.
Proof.
  assert (Hrun : draw (steady 2616) (set_poseResults (Some []) fullCharge)
                 = Ok tt afterLoss) by (vm_compute; reflexivity).
  split; [exact Hrun|]. split; [reflexivity|]. split; [reflexivity|].
  destruct (undetected_left_untouched (steady 2616)
              (set_poseResults (Some []) fullCharge) afterLoss
              Hrun eq_refl eq_refl)
    as ((_ & Hbox) & (_ & Hc & Hl & _) & _ & Hkept).
  destruct Hkept as (_ & _ & _ & _ & _ & _ & _ & Ht & _).
  repeat split; trivial.
Defined.

(* ------------------------------------------------------------------ *)
(** ** Properties: the hurtbox of a body *)

Lemma hitboxStep_spec (acc : Q * Q * Q * Q) (lm : Landmark) :
  let '(a, b, c, d) := acc in
  let '(a', b', c', d') := hitboxStep acc lm in
  (a' <= a /\ a' <= lm_x lm) /\ (b' <= b /\ b' <= lm_y lm)
  /\ (c <= c' /\ lm_x lm <= c') /\ (d <= d' /\ lm_y lm <= d').
Proof.
  destruct acc as [[[a b] c] d]. unfold hitboxStep.
  destruct (lm_x lm <? a) eqn:A; [apply Qltb_lt in A|apply Qltb_ge in A];
    (destruct (lm_x lm >? c) eqn:C; [apply Qgtb_gt in C|apply Qgtb_le in C]);
    (destruct (lm_y lm <? b) eqn:B; [apply Qltb_lt in B|apply Qltb_ge in B]);
    (destruct (lm_y lm >? d) eqn:D; [apply Qgtb_gt in D|apply Qgtb_le in D]);
    repeat split; lra.
Qed.

Lemma hitbox_fold (l : list Landmark) :
  forall a b c d,
    let '(a', b', c', d') := fold_left hitboxStep l (a, b, c, d) in
    (a' <= a /\ b' <= b /\ c <= c' /\ d <= d')
    /\ forall lm, In lm l ->
         (a' <= lm_x lm /\ lm_x lm <= c')
         /\ (b' <= lm_y lm /\ lm_y lm <= d').
Proof.
  induction l as [|lm0 rest IH]; intros a b c d; cbn [fold_left].
  - split; [repeat split; apply Qle_refl|intros lm []].
  - pose proof (hitboxStep_spec (a, b, c, d) lm0) as Hs.
    cbv beta iota in Hs.
    destruct (hitboxStep (a, b, c, d) lm0) as [[[a1 b1] c1] d1].
    specialize (IH a1 b1 c1 d1).
    destruct (fold_left hitboxStep rest (a1, b1, c1, d1))
      as [[[a' b'] c'] d'].
    destruct IH as ((Ha & Hb & Hc & Hd) & Hin).
    destruct Hs as ((? & ?) & (? & ?) & (? & ?) & (? & ?)).
    split; [repeat split; lra|].
    intros lm [<-|Hlm]; [repeat split; lra|now apply Hin].
Qed.

(** X6.  The hurtbox a processed body gets contains the mirrored canvas
    position of every landmark of the body. *)
Theorem hurtbox_contains_body (side : Side) (landmarks : Pose) (clk : Clock)
  (s s' : GameState) :
  processPlayer side landmarks clk s = Ok tt s' ->
  exists b,
    boundingBox (player side s') = Some b
    /\ forall lm, In lm landmarks ->
         (minX b <= (1 - lm_x lm) * width
          /\ (1 - lm_x lm) * width <= maxX b)
         /\ (minY b <= lm_y lm * height /\ lm_y lm * height <= maxY b).
Proof.
  intros Hrun.
  destruct (processPlayer_inv _ _ _ _ _ Hrun)
    as (lw & rw & ls & rs & p' & lnew & _ & _ & _ & _ & (F & _ & _) & ->).
  exists (hitbox landmarks). split.
  - rewrite commit_player.
    destruct (punchFrame_action _ _ F) as (_ & _ & _ & -> & _).
    destruct (gestureP_rest side lw rw ls rs clk
                (boxed landmarks (player side s))) as (_ & _ & _ & ->).
    reflexivity.
  - intros lm Hlm. unfold hitbox.
    pose proof (hitbox_fold landmarks 1 1 0 0) as H.
    destruct (fold_left hitboxStep landmarks (1, 1, 0, 0))
      as [[[a b] c] d].
    destruct H as (_ & Hin). destruct (Hin lm Hlm) as ((? & ?) & (? & ?)).
    cbn [minX minY maxX maxY]. unfold width, height, CANVAS_WIDTH,
      CANVAS_HEIGHT. repeat split; lra.
Qed.

Lemma hurtbox_contains_body_witness :
  processPlayer sideLeft chargePose (steady 1000 0%nat) initialState
  = Ok tt processedCharge
  /\ exists b,
       boundingBox (leftPlayer processedCharge) = Some b
       /\ forall lm, In lm chargePose ->
            (minX b <= (1 - lm_x lm) * width
             /\ (1 - lm_x lm) * width <= maxX b)
            /\ (minY b <= lm_y lm * height /\ lm_y lm * height <= maxY b).
Proof.
  split; [vm_compute; reflexivity|].
  apply (hurtbox_contains_body sideLeft chargePose (steady 1000 0%nat)
           initialState processedCharge).
  vm_compute. reflexivity.
Defined.

(* ------------------------------------------------------------------ *)
(** ** Properties: the flight of a projectile *)

Lemma gestureP_inFlight (side : Side) (lw rw ls rs : Landmark) (clk : Clock)
  (p : PlayerState) :
  Forall inFlight (snd (gestureP side lw rw ls rs clk p)).
Proof.
  unfold gestureP, specialP, swordP. cbn [snd].
  apply Forall_app. split.
  - split_ifs; cbn [snd]; repeat constructor.
  - match goal with
    | |- context [if ?c then (?a, []) else ?b] => destruct c
    end; cbn [snd]; [constructor|].
    split_ifs; cbn [snd]; repeat constructor.
Qed.

Lemma processPlayer_inFlight (side : Side) (landmarks : Pose) (clk : Clock)
  (s s1 : GameState) :
  Forall inFlight (projectiles s) ->
  processPlayer side landmarks clk s = Ok tt s1 ->
  Forall inFlight (projectiles s1).
Proof.
  intros H0 Hrun.
  destruct (processPlayer_inv _ _ _ _ _ Hrun)
    as (lw & rw & ls & rs & p' & lnew & _ & _ & _ & _ & (_ & S & _) & ->).
  rewrite commit_projectiles. apply Forall_app. split; [exact H0|].
  apply Forall_app. split; [apply gestureP_inFlight|].
  eapply Forall_impl; [|exact S]. intros pr (sx & sy & ->). repeat split.
Qed.

Lemma advance_inFlight (pr : Projectile) : inFlight pr -> inFlight (advance pr).
Proof. destruct pr. unfold inFlight, advance. cbn. trivial. Qed.

Lemma finishTick_flying (det : bool * bool) (s : GameState) (q : Projectile) :
  In q (projectiles (finishTick det s)) ->
  exists pr, In pr (projectiles s) /\ q = advance pr
             /\ outOfBounds q = false.
Proof.
  unfold finishTick. rewrite late_stages_projectiles.
  unfold projectileStage. cbn [projectiles set_projectiles].
  destruct (aiStage_frame (markUndetected det s)) as (_ & _ & ->).
  rewrite markUndetected_projectiles. intros H.
  destruct (sweep_survivors _ _ _ H) as (pr & Hin & -> & V).
  exists pr. repeat split; trivial. exact (verdict_Flying_inbounds _ _ V).
Qed.

Lemma reachable_inFlight (t : Z) (s : GameState) :
  reachable t s ->
  Forall (fun pr => inFlight pr /\ outOfBounds pr = false) (projectiles s).
Proof.
  induction 1 as [t Ht|t s results _ IH|t s _ IH|t t' clock s s' _ IH Hc Hrun].
  - constructor.
  - exact IH.
  - constructor.
  - destruct (isGameOver s) eqn:G.
    + rewrite (draw_gameOver _ _ G) in Hrun. injection Hrun as <-. exact IH.
    + rewrite (draw_stages _ _ G) in Hrun.
      destruct (posePhase clock s) as [det s1|] eqn:Hpose; [|discriminate].
      injection Hrun as <-.
      assert (H1 : Forall inFlight (projectiles s1)).
      { apply (posePhase_keeps (fun st => Forall inFlight (projectiles st))
                 clock s s1 det); trivial.
        - eapply Forall_impl; [|exact IH]. cbv beta. tauto.
        - intros side landmarks clk st st1.
          apply processPlayer_inFlight. }
      apply Forall_forall. intros q Hq.
      destruct (finishTick_flying _ _ _ Hq) as (pr & Hin & -> & Hb).
      split; [|exact Hb]. apply advance_inFlight.
      rewrite Forall_forall in H1. now apply H1.
Qed.

Lemma vxOf_speed (side : Side) (k : AttackType) :
  (side = sideLeft -> 10 <= vxOf side k)
  /\ (side = sideRight -> vxOf side k <= -10).
Proof.
  split; intros ->; destruct k;
    unfold vxOf, dir, PROJECTILE_SPEED, SPECIAL_SPEED; lra.
Qed.

(** X7.  Every projectile of a reachable state is active and in bounds, does
    not move vertically, and moves away from its owner's side of the canvas
    by the speed of its kind, at least 10 a frame. *)
Theorem projectiles_fly_level (t : Z) (s : GameState) (pr : Projectile) :
  reachable t s -> In pr (projectiles s) ->
  active pr = true
  /\ outOfBounds pr = false
  /\ y (advance pr) == y pr
  /\ x (advance pr) == x pr + vxOf (owner pr) (type pr)
  /\ (owner pr = sideLeft -> 10 <= vxOf (owner pr) (type pr))
  /\ (owner pr = sideRight -> vxOf (owner pr) (type pr) <= -10).
Proof.
  intros Hr Hin. pose proof (reachable_inFlight _ _ Hr) as H.
  rewrite Forall_forall in H. destruct (H pr Hin) as ((Ha & Hy & Hx) & Hb).
  split; [exact Ha|]. split; [exact Hb|].
  destruct (vxOf_speed (owner pr) (type pr)) as (Hl & Hrt).
  split; [|split; [|split; assumption]].
  - destruct pr. cbn in *. subst. lra.
  - destruct pr. cbn in *. subst. lra.
Qed.

Lemma projectiles_fly_level_witness :
  reachable 1000 afterPunch /\ In shot (projectiles afterPunch)
  /\ active shot = true /\ outOfBounds shot = false
  /\ y (advance shot) == y shot
  /\ x (advance shot) == x shot + 15.
Proof.
  split; [exact reachable_afterPunch|].
  assert (Hin : In shot (projectiles afterPunch)) by (left; reflexivity).
  split; [exact Hin|].
  destruct (projectiles_fly_level 1000 afterPunch shot reachable_afterPunch
              Hin) as (Ha & Hb & Hy & Hx & _).
  repeat split; trivial.
Defined.

Lemma iter_advance (n : nat) (pr : Projectile) :
  inFlight pr ->
  inFlight (Nat.iter n advance pr)
  /\ owner (Nat.iter n advance pr) = owner pr
  /\ type (Nat.iter n advance pr) = type pr
  /\ x (Nat.iter n advance pr)
     == x pr + inject_Z (Z.of_nat n) * vxOf (owner pr) (type pr).
Proof.
  intros H. induction n as [|n (IH & Ho & Ht & Hx)].
  - change (Nat.iter 0 advance pr) with pr. repeat split; try apply H.
    change (inject_Z (Z.of_nat 0)) with 0. lra.
  - change (Nat.iter (S n) advance pr) with (advance (Nat.iter n advance pr)).
    split; [now apply advance_inFlight|].
    destruct IH as (_ & _ & Hv). rewrite Ho, Ht in Hv.
    set (q := Nat.iter n advance pr) in *.
    assert (Ex : x (advance q) = x q + vx q) by (destruct q; reflexivity).
    assert (Eo : owner (advance q) = owner q) by (destruct q; reflexivity).
    assert (Et : type (advance q) = type q) by (destruct q; reflexivity).
    rewrite Eo, Et, Ex, Hv, Hx. repeat split; trivial.
    rewrite Nat2Z.inj_succ. unfold Z.succ. rewrite inject_Z_plus.
    change (inject_Z 1) with 1. lra.
Qed.

Lemma first_true (f : nat -> bool) (n : nat) :
  f n = true ->
  exists k, (k <= n)%nat /\ f k = true
            /\ forall m, (m < k)%nat -> f m = false.
Proof.
  induction n as [n IH] using lt_wf_ind. intros Hn.
  destruct (existsb f (seq 0 n)) eqn:E.
  - apply existsb_exists in E. destruct E as (m & Hm & Hf).
    apply in_seq in Hm. destruct (IH m ltac:(lia) Hf) as (k & ? & ? & ?).
    exists k. repeat split; trivial. lia.
  - exists n. repeat split; trivial. intros m Hm.
    destruct (f m) eqn:Fm; trivial.
    assert (existsb f (seq 0 n) = true); [|congruence].
    apply existsb_exists. exists m. split; trivial. apply in_seq. lia.
Qed.

(** X8.  A projectile of a reachable state leaves the canvas margin within
    149 frames: there is a first position update, no later than the 149th,
    after which the bounds test removes it (unless it struck before). *)
Theorem projectile_leaves_canvas (t : Z) (s : GameState) (pr : Projectile) :
  reachable t s -> In pr (projectiles s) ->
  exists n, (1 <= n <= 149)%nat
    /\ outOfBounds (Nat.iter n advance pr) = true
    /\ forall m, (m < n)%nat -> outOfBounds (Nat.iter m advance pr) = false.
Proof.
  intros Hr Hin. pose proof (reachable_inFlight _ _ Hr) as H.
  rewrite Forall_forall in H. destruct (H pr Hin) as (Hf & Hb).
  assert (Hend : outOfBounds (Nat.iter 149 advance pr) = true).
  { destruct (iter_advance 149 pr Hf) as (_ & _ & _ & Hx).
    change (inject_Z (Z.of_nat 149)) with 149 in Hx.
    unfold outOfBounds in Hb |- *.
    apply Bool.orb_false_iff in Hb. destruct Hb as (B1 & B2).
    apply Qltb_ge in B1. apply Qgtb_le in B2.
    unfold width, CANVAS_WIDTH in *.
    destruct (vxOf_speed (owner pr) (type pr)) as (Hl & Hrt).
    apply Bool.orb_true_iff.
    destruct (owner pr).
    - right. apply Qgtb_gt. specialize (Hl eq_refl). lra.
    - left. apply Qltb_lt. specialize (Hrt eq_refl). lra. }
  destruct (first_true (fun n => outOfBounds (Nat.iter n advance pr)) 149 Hend)
    as (k & Hk & Hout & Hfirst).
  exists k. repeat split; trivial.
  destruct k; [|lia]. change (Nat.iter 0 advance pr) with pr in Hout.
  congruence.
Qed.

Lemma projectile_leaves_canvas_witness :
  reachable 1000 afterPunch /\ In shot (projectiles afterPunch)
  /\ exists n, (1 <= n <= 149)%nat
       /\ outOfBounds (Nat.iter n advance shot) = true
       /\ forall m, (m < n)%nat ->
                    outOfBounds (Nat.iter m advance shot) = false.
Proof.
  split; [exact reachable_afterPunch|].
  assert (Hin : In shot (projectiles afterPunch)) by (left; reflexivity).
  split; [exact Hin|].
  exact (projectile_leaves_canvas 1000 afterPunch shot reachable_afterPunch
           Hin).
Defined.

(* ------------------------------------------------------------------ *)
(** ** Properties: the account of a projectile sweep *)

Lemma strike_texts (q : Projectile) (s : GameState) :
  exists ft, floatingTexts (strike q s) = floatingTexts s ++ [ft]
             /\ freshText ft /\ ft_x ft = x q /\ ft_y ft = y q.
Proof.
  unfold strike.
  exists (mkFloatingText (x q) (y q)
            (hitText q (player (opponent (owner q)) s))
            (hitColor (player (opponent (owner q)) s)) 40 40 (-3)).
  split; [|repeat split].
  match goal with |- context [if ?c then _ else _] => destruct c end;
    [destruct (opponent (owner q))|]; reflexivity.
Qed.

Lemma advance_keeps (pr : Projectile) :
  owner (advance pr) = owner pr /\ type (advance pr) = type pr
  /\ (fromTable pr -> fromTable (advance pr)).
Proof. destruct pr. repeat split; cbn in *; apply H. Qed.

Lemma sweep_isShielding (l : list Projectile) (s : GameState) (side : Side) :
  isShielding (player side (snd (sweep l s))) = isShielding (player side s).
Proof. rewrite sweep_player. destruct (player side s); reflexivity. Qed.

Lemma damageTo_cons (side : Side) (s : GameState) (pr : Projectile)
  (rest : list Projectile) :
  damageTo side s (pr :: rest)
  = if strikes s pr && aimedAt side pr
    then tableDamage (type pr) (isShielding (player side s))
         + damageTo side s rest
    else damageTo side s rest.
Proof.
  unfold damageTo. cbn [filter].
  destruct (strikes s pr && aimedAt side pr); reflexivity.
Qed.

Lemma sweep_texts (l : list Projectile) (s : GameState) :
  exists new,
    floatingTexts (snd (sweep l s)) = floatingTexts s ++ new
    /\ Forall freshText new
    /\ List.length new = List.length (filter (strikes s) l).
Proof.
  induction l as [|pr rest (new & IHt & IHf & IHn)].
  - exists []. cbn. rewrite app_nil_r. repeat split. constructor.
  - cbn [sweep filter]. unfold strikes at 1. rewrite verdict_sweep.
    destruct (verdict pr s); cbn [fst snd List.length]; [exists new; auto| |
      exists new; auto].
    destruct (strike_texts (advance pr) (snd (sweep rest s)))
      as (ft & -> & Hft & _).
    exists (new ++ [ft]). rewrite IHt, <- app_assoc.
    split; [reflexivity|]. split.
    + apply Forall_app. split; [exact IHf|repeat constructor; apply Hft].
    + rewrite length_app, IHn. cbn. lia.
Qed.

Lemma sweep_account (l : list Projectile) (s : GameState) :
  Forall fromTable l ->
  fst (sweep l s) = map advance (filter (flies s) l)
  /\ forall side,
       hp (player side (snd (sweep l s)))
       == hp (player side s) - damageTo side s l.
Proof.
  induction 1 as [|pr rest Hpr _ (IHs & IHh)].
  - cbn. split; [reflexivity|].
    intros side. unfold damageTo. cbn. lra.
  - assert (Hd : forall side, damageTo side s (pr :: rest)
                 = if strikes s pr && aimedAt side pr
                   then tableDamage (type pr) (isShielding (player side s))
                        + damageTo side s rest
                   else damageTo side s rest)
      by (intros; apply damageTo_cons).
    cbn [sweep filter]. unfold flies at 1.
    unfold strikes at 1 in Hd.
    rewrite verdict_sweep.
    destruct (verdict pr s) eqn:V; cbn [fst snd andb map] in *.
    + split; [exact IHs|]. intros side. rewrite Hd. apply IHh.
    + split; [exact IHs|].
      intros side. rewrite Hd.
      destruct (advance_keeps pr) as (Eo & Et & Hk).
      unfold aimedAt.
      destruct (Side_eqb (opponent (owner pr)) side) eqn:E.
      * apply Side_eqb_eq in E. subst side.
        pose proof (strike_hp (advance pr) (snd (sweep rest s)) (Hk Hpr))
          as Hs.
        rewrite Eo, Et, sweep_isShielding in Hs. rewrite Hs, IHh. lra.
      * assert (Es : side = owner pr).
        { destruct side, (owner pr); try reflexivity; discriminate. }
        subst side.
        destruct (strike_frame (advance pr) (snd (sweep rest s)))
          as (_ & _ & Hs).
        rewrite Eo in Hs. rewrite Hs. apply IHh.
    + split; [now rewrite IHs|]. intros side. rewrite Hd. apply IHh.
Qed.

(** X9.  One run of [updateProjectiles] decides every projectile against the
    state it started in: the survivors are the projectiles that neither left
    nor struck, advanced and in their order, every strike adds one floating
    text, and a player loses the table damage of the strikes aimed at it. *)
Theorem updateProjectiles_accounts (s : GameState) :
  Forall fromTable (projectiles s) ->
  exists s',
    updateProjectiles s = Ok tt s'
    /\ projectiles s' = map advance (filter (flies s) (projectiles s))
    /\ List.length (floatingTexts s')
       = (List.length (floatingTexts s)
          + List.length (filter (strikes s) (projectiles s)))%nat
    /\ forall side,
         hp (player side s')
         == hp (player side s) - damageTo side s (projectiles s).
Proof.
  intros H. rewrite updateProjectiles_sweep. eexists. split; [reflexivity|].
  destruct (sweep_account (projectiles s) s H) as (Hs & Hh).
  destruct (sweep_texts (projectiles s) s) as (new & Ht & _ & Hn).
  split; [exact Hs|]. split.
  - change (floatingTexts (set_projectiles ?l ?st)) with (floatingTexts st).
    rewrite Ht, length_app, Hn. reflexivity.
  - intros side. rewrite player_set_projectiles. apply Hh.
Qed.

Lemma updateProjectiles_accounts_witness :
  Forall fromTable (projectiles stateInFlight)
  /\ exists s',
       updateProjectiles stateInFlight = Ok tt s'
       /\ projectiles s' = [advance punchInFlight].
Proof.
  assert (H : Forall fromTable (projectiles stateInFlight))
    by (repeat constructor).
  split; [exact H|].
  destruct (updateProjectiles_accounts stateInFlight H)
    as (s' & Hrun & Hp & _).
  exists s'. split; [exact Hrun|]. rewrite Hp. reflexivity.
Defined.

(* ------------------------------------------------------------------ *)
(** ** Properties: the floating texts *)

Lemma aiStage_texts (s : GameState) :
  floatingTexts (aiStage s) = floatingTexts s.
Proof.
  unfold aiStage, updateAI.
  repeat match goal with
         | |- context [if ?c then _ else _] => destruct c
         end; reflexivity.
Qed.

Lemma textStage_shown (s : GameState) :
  Forall (fun ft => shownText ft \/ freshText ft) (floatingTexts s) ->
  Forall shownText (floatingTexts (textStage s)).
Proof.
  unfold textStage, updateFloatingText. cbn [floatingTexts set_floatingTexts].
  induction 1 as [|ft rest Hft _ IH]; [constructor|].
  cbn [map filter ft_life].
  destruct (ft_life ft - 1 <=? 0)%Z eqn:E; cbn [negb]; [exact IH|].
  constructor; [|exact IH]. apply Z.leb_gt in E.
  unfold shownText, freshText in *. cbn [ft_life ft_maxLife ft_vy].
  destruct Hft as [(? & ? & ?)|(? & ? & ?)]; repeat split; trivial; lia.
Qed.

Lemma finishTick_texts (det : bool * bool) (s : GameState) :
  Forall shownText (floatingTexts s) ->
  Forall shownText (floatingTexts (finishTick det s)).
Proof.
  intros H. unfold finishTick.
  assert (E : forall st, floatingTexts (gameOverStage st) = floatingTexts st).
  { intros st. unfold gameOverStage.
    match goal with |- context [if ?c then _ else _] => destruct c end;
      reflexivity. }
  rewrite E. apply textStage_shown. unfold projectileStage.
  change (floatingTexts (set_projectiles ?l ?st)) with (floatingTexts st).
  set (m := aiStage (markUndetected det s)).
  destruct (sweep_texts (projectiles m) m) as (new & -> & Hnew & _).
  apply Forall_app. split.
  - subst m. rewrite aiStage_texts.
    pose proof (markUndetected_scenery det s) as Hs. unfold scenery in Hs.
    injection Hs as -> _ _ _ _.
    eapply Forall_impl; [|exact H]. cbv beta. tauto.
  - eapply Forall_impl; [|exact Hnew]. cbv beta. tauto.
Qed.

(** X10.  Every floating text of a reachable state has between 1 and 39 frames
    left of the 40 it is made with and rises by 3 a frame, so the opacity
    computed from life over maxLife lies strictly between 0 and 1. *)
Theorem floating_texts_alive (t : Z) (s : GameState) (ft : FloatingText) :
  reachable t s -> In ft (floatingTexts s) ->
  (0 < ft_life ft <= 39)%Z /\ ft_maxLife ft = 40%Z /\ ft_vy ft = -3
  /\ 0 < inject_Z (ft_life ft) / inject_Z (ft_maxLife ft) < 1.
Proof.
  intros Hr Hin.
  assert (H : Forall shownText (floatingTexts s)).
  { clear ft Hin.
    induction Hr as [t Ht|t s results _ IH|t s _ IH
                    |t t' clock s s' _ IH Hc Hrun].
    - constructor.
    - exact IH.
    - constructor.
    - destruct (isGameOver s) eqn:G.
      + rewrite (draw_gameOver _ _ G) in Hrun. injection Hrun as <-.
        exact IH.
      + rewrite (draw_stages _ _ G) in Hrun.
        destruct (posePhase clock s) as [det s1|] eqn:Hpose; [|discriminate].
        injection Hrun as <-. apply finishTick_texts.
        destruct (posePhase_scenery _ _ _ _ Hpose) as (Hs & _).
        unfold scenery in Hs. injection Hs as -> _ _ _ _. exact IH. }
  rewrite Forall_forall in H. destruct (H ft Hin) as (Hl & Hm & Hv).
  repeat split; trivial; try lia.
  - rewrite Hm. apply Qlt_shift_div_l; [reflexivity|].
    rewrite Qmult_0_l. change 0 with (inject_Z 0). rewrite <- Zlt_Qlt. lia.
  - rewrite Hm. apply Qlt_shift_div_r; [reflexivity|].
    rewrite Qmult_1_l. rewrite <- Zlt_Qlt. lia.
Qed.

Lemma floating_texts_alive_witness :
  reachable 1000 afterHit /\ In hitMark (floatingTexts afterHit)
  /\ ft_life hitMark = 39%Z
  /\ 0 < inject_Z (ft_life hitMark) / inject_Z (ft_maxLife hitMark) < 1.
Proof.
  split; [exact reachable_afterHit|].
  assert (Hin : In hitMark (floatingTexts afterHit)) by (left; reflexivity).
  split; [exact Hin|]. split; [reflexivity|].
  exact (proj2 (proj2 (proj2
    (floating_texts_alive 1000 afterHit hitMark reachable_afterHit Hin)))).
Defined.

(* ------------------------------------------------------------------ *)
(** ** Properties: what a launch needs *)

Lemma shieldP_keeps (lw rw ls rs : Landmark) (p : PlayerState) :
  isCharging (shieldP lw rw ls rs p) = isCharging p
  /\ chargeLevel (shieldP lw rw ls rs p) = chargeLevel p
  /\ chargeStartTime (shieldP lw rw ls rs p) = chargeStartTime p
  /\ lastPoseTime (shieldP lw rw ls rs p) = lastPoseTime p
  /\ lastSwordFireTime (shieldP lw rw ls rs p) = lastSwordFireTime p
  /\ prevSwordY (shieldP lw rw ls rs p) = prevSwordY p
  /\ lastPunchTime (shieldP lw rw ls rs p) = lastPunchTime p
  /\ prevWrists (shieldP lw rw ls rs p) = prevWrists p.
Proof.
  unfold shieldP. destruct (isShieldPose lw rw ls rs); repeat split.
Qed.

(** [detectSpecial] pushes nothing, or one special shot from a full charge
    whose pose is not held; it leaves the sword and punch fields alone. *)
Lemma specialP_launch (side : Side) (lw rw ls rs : Landmark) (now : Z)
  (p : PlayerState) :
  (snd (specialP side lw rw ls rs now p) = []
   \/ (snd (specialP side lw rw ls rs now p)
       = [specialProjectile side ((1 - midX lw rw) * width)
            (midY lw rw * height)]
       /\ isCharging p = true /\ 1 <= chargeLevel p
       /\ isHoldingPose lw rw ls rs p = false
       /\ fst (specialP side lw rw ls rs now p) = discharged p))
  /\ lastSwordFireTime (fst (specialP side lw rw ls rs now p))
     = lastSwordFireTime p
  /\ prevSwordY (fst (specialP side lw rw ls rs now p)) = prevSwordY p
  /\ isShielding (fst (specialP side lw rw ls rs now p)) = isShielding p
  /\ lastPunchTime (fst (specialP side lw rw ls rs now p)) = lastPunchTime p
  /\ prevWrists (fst (specialP side lw rw ls rs now p)) = prevWrists p.
Proof.
  unfold specialP.
  destruct (isHoldingPose lw rw ls rs p) eqn:H; cbn [fst snd].
  - split; [now left|]. destruct (isCharging p); repeat split.
  - destruct (isCharging p) eqn:C; [|split; [now left|repeat split]].
    destruct (chargeLevel p >=? 1) eqn:L; cbn [fst snd].
    + apply Qgeb_ge in L. split; [right|]; repeat split; trivial.
    + destruct (now - lastPoseTime p >? CHARGE_GRACE_PERIOD)%Z;
        (split; [now left|repeat split]).
Qed.

(** [detectSword] past its guard pushes nothing and keeps the cooldown
    stamp, or pushes one beam, stamps the cooldown and has found the stamp
    more than the cooldown old and a previous hand height. *)
Lemma swordP_launch (side : Side) (lw rw : Landmark) (now : Z)
  (p : PlayerState) :
  ((snd (swordP side lw rw now p) = []
    /\ lastSwordFireTime (fst (swordP side lw rw now p))
       = lastSwordFireTime p)
   \/ (snd (swordP side lw rw now p)
       = [swordProjectile side ((1 - midX lw rw) * width)
            (midY lw rw * height)]
       /\ lastSwordFireTime (fst (swordP side lw rw now p)) = now
       /\ (SWORD_COOLDOWN < now - lastSwordFireTime p)%Z
       /\ ~ prevSwordY p == 0
       /\ SWORD_SWING_THRESHOLD < Qabs (midY lw rw - prevSwordY p)
       /\ hasSword (fst (swordP side lw rw now p)) = true))
  /\ isShielding (fst (swordP side lw rw now p)) = isShielding p
  /\ isCharging (fst (swordP side lw rw now p)) = isCharging p
  /\ chargeLevel (fst (swordP side lw rw now p)) = chargeLevel p
  /\ lastPunchTime (fst (swordP side lw rw now p)) = lastPunchTime p
  /\ prevWrists (fst (swordP side lw rw now p)) = prevWrists p
  /\ prevSwordY (fst (swordP side lw rw now p)) = midY lw rw.
Proof.
  unfold swordP.
  destruct (isInStance lw rw); [|split; [left|]; repeat split].
  destruct (isSwing lw rw now p) eqn:S; cbn [fst snd];
    [|split; [left|]; repeat split].
  unfold isSwing in S.
  apply andb_true_iff in S. destruct S as (S1 & S2).
  apply andb_true_iff in S2. destruct S2 as (S2 & S3).
  apply negb_true_iff in S1. apply Qgtb_gt in S2. apply Z.gtb_lt in S3.
  split; [right|]; repeat split; trivial.
  intros E. apply Qeq_bool_iff in E. congruence.
Qed.


(** The three detections of a call together. *)
Lemma gestureP_launch (side : Side) (lw rw ls rs : Landmark) (clk : Clock)
  (p : PlayerState) :
  let g := gestureP side lw rw ls rs clk p in
  exists S W,
    snd g = S ++ W
    /\ (S = []
        \/ (S = [specialProjectile side ((1 - midX lw rw) * width)
                   (midY lw rw * height)]
            /\ isCharging p = true /\ 1 <= chargeLevel p
            /\ chargeHeld lw rw ls rs p = false
            /\ isCharging (fst g) = false /\ chargeLevel (fst g) = 0))
    /\ ((W = [] /\ lastSwordFireTime (fst g) = lastSwordFireTime p)
        \/ (W = [swordProjectile side ((1 - midX lw rw) * width)
                   (midY lw rw * height)]
            /\ lastSwordFireTime (fst g) = nowSword clk
            /\ (SWORD_COOLDOWN < nowSword clk - lastSwordFireTime p)%Z
            /\ ~ prevSwordY p == 0
            /\ SWORD_SWING_THRESHOLD < Qabs (midY lw rw - prevSwordY p)
            /\ hasSword (fst g) = true
            /\ isShielding (fst g) = false /\ isCharging (fst g) = false))
    /\ lastPunchTime (fst g) = lastPunchTime p
    /\ prevWrists (fst g) = prevWrists p.
Proof.
  cbv zeta. unfold gestureP.
  set (p1 := shieldP lw rw ls rs p).
  destruct (shieldP_keeps lw rw ls rs p)
    as (Kc & Kl & _ & _ & Kf & Ky & Kp & Kw). fold p1 in Kc, Kl, Kf, Ky, Kp, Kw.
  destruct (specialP_launch side lw rw ls rs (nowSpecial clk) p1)
    as (HS & Sf & Sy & Ss & Sp & Sw).
  set (r2 := specialP side lw rw ls rs (nowSpecial clk) p1) in *.
  exists (snd r2).
  destruct (swordP_launch side lw rw (nowSword clk) (fst r2))
    as (HW & Ws & Wc & Wl & Wp & Ww & _).
  destruct (isShielding (fst r2) || isCharging (fst r2)) eqn:G.
  - exists []. cbn [fst snd]. split; [reflexivity|]. split; [|split].
    + destruct HS as [HS|(HS & C & L & Hh & Hd)]; [now left|right].
      subst p1. rewrite isHoldingPose_shieldP in Hh.
      rewrite Hd. repeat split; trivial; congruence.
    + left. split; [reflexivity|]. cbn. congruence.
    + split; cbn; congruence.
  - exists (snd (swordP side lw rw (nowSword clk) (fst r2))).
    cbn [fst snd]. split; [reflexivity|].
    apply orb_false_iff in G. destruct G as (G1 & G2).
    split; [|split].
    + destruct HS as [HS|(HS & C & L & Hh & Hd)]; [now left|right].
      subst p1. rewrite isHoldingPose_shieldP in Hh.
      rewrite Wc, Wl, Hd. repeat split; trivial; congruence.
    + destruct HW as [(HW & E)|(HW & E & Hc & Hy & Hsw & Hh)]; [left|right].
      * split; [exact HW|]. congruence.
      * rewrite Sf, Kf in Hc. rewrite Sy, Ky in Hy, Hsw.
        repeat split; trivial; congruence.
    + split; congruence.
Qed.

Lemma punchFrame_sword (p p' : PlayerState) :
  punchFrame p p' ->
  lastSwordFireTime p' = lastSwordFireTime p /\ prevSwordY p' = prevSwordY p.
Proof. unfold punchFrame. intros ->. split; reflexivity. Qed.

Lemma standardBy_kind (side : Side) (l : list Projectile) (k : AttackType) :
  Forall (standardBy side) l -> k <> standard -> filter (isKind k) l = [].
Proof.
  intros H Hk. induction H as [|pr rest (sx & sy & ->) _ IH]; [reflexivity|].
  cbn [filter]. rewrite IH. unfold isKind. cbn.
  destruct k; try reflexivity. congruence.
Qed.

(** X11.  A call of [processPlayer] pushes at most one special shot, and only
    for a player that was charging at full level and does not hold the
    pose on this tick; the shot starts midway between the wrists, mirrored,
    and the call leaves the player discharged. *)
Theorem special_only_from_full_charge (side : Side) (landmarks : Pose)
  (clk : Clock) (s s' : GameState) (lw rw ls rs : Landmark) :
  at_index landmarks 15 = Some lw -> at_index landmarks 16 = Some rw ->
  at_index landmarks 11 = Some ls -> at_index landmarks 12 = Some rs ->
  processPlayer side landmarks clk s = Ok tt s' ->
  exists new,
    projectiles s' = projectiles s ++ new
    /\ (List.length (filter (isKind special) new) <= 1)%nat
    /\ forall pr, In pr new -> type pr = special ->
         pr = specialProjectile side ((1 - midX lw rw) * width)
                (midY lw rw * height)
         /\ isCharging (player side s) = true
         /\ 1 <= chargeLevel (player side s)
         /\ chargeHeld lw rw ls rs (player side s) = false
         /\ isCharging (player side s') = false
         /\ chargeLevel (player side s') = 0.
Proof.
  intros E15 E16 E11 E12 Hrun.
  destruct (processPlayer_inv _ _ _ _ _ Hrun)
    as (lw' & rw' & ls' & rs' & p' & lnew & F15 & F16 & F11 & F12
        & (F & St & _) & ->).
  assert (lw' = lw) by congruence. assert (rw' = rw) by congruence.
  assert (ls' = ls) by congruence. assert (rs' = rs) by congruence.
  subst lw' rw' ls' rs'.
  set (p := boxed landmarks (player side s)) in *.
  destruct (gestureP_launch side lw rw ls rs clk p)
    as (S & W & Hg & HS & HW & _).
  set (g := gestureP side lw rw ls rs clk p) in *.
  exists (snd g ++ lnew). split; [apply commit_projectiles|].
  rewrite commit_player.
  destruct (punchFrame_action _ _ F) as (Ha & _).
  unfold action in Ha. injection Ha as _ Ec _ El _ _.
  assert (Wk : filter (isKind special) W = []).
  { destruct HW as [(-> & _)|(-> & _)]; reflexivity. }
  split.
  - rewrite Hg, !filter_app, Wk, (standardBy_kind side lnew special St)
      by discriminate.
    rewrite !app_nil_r.
    destruct HS as [->|(-> & _)]; cbn; lia.
  - intros pr Hin Hk. rewrite Hg in Hin.
    apply in_app_or in Hin. destruct Hin as [Hin|Hin].
    + apply in_app_or in Hin. destruct Hin as [Hin|Hin].
      * destruct HS as [->|(-> & C & L & Hh & C' & L')]; [destruct Hin|].
        destruct Hin as [<-|[]].
        rewrite Ec, El. repeat split; trivial.
      * destruct HW as [(-> & _)|(-> & _)]; [destruct Hin|].
        destruct Hin as [<-|[]]. discriminate Hk.
    + rewrite Forall_forall in St. destruct (St pr Hin) as (sx & sy & ->).
      discriminate Hk.
Qed.

Lemma special_only_from_full_charge_witness :
  processPlayer sideLeft restPose (steady 2616 0%nat) fullCharge
  = Ok tt processedRelease
  /\ In releasedShot (projectiles processedRelease)
  /\ type releasedShot = special
  /\ 1 <= chargeLevel (leftPlayer fullCharge)
  /\ isCharging (leftPlayer processedRelease) = false.
Proof.
  assert (Hrun : processPlayer sideLeft restPose (steady 2616 0%nat)
                   fullCharge = Ok tt processedRelease)
    by (vm_compute; reflexivity).
  split; [exact Hrun|].
  destruct (special_only_from_full_charge sideLeft restPose
              (steady 2616 0%nat) fullCharge processedRelease
              (landmarkAt (8 # 10) (7 # 10)) (landmarkAt (5 # 10) (7 # 10))
              leftShoulderAt rightShoulderAt
              eq_refl eq_refl eq_refl eq_refl Hrun)
    as (new & Hp & _ & Hall).
  assert (Hin : In releasedShot (projectiles processedRelease))
    by (left; reflexivity).
  split; [exact Hin|]. split; [reflexivity|].
  rewrite Hp in Hin. cbn in Hin.
  destruct (Hall releasedShot Hin eq_refl) as (_ & _ & Hl & _ & Hc & _).
  split; assumption.
Defined.

(** X12.  A call of [processPlayer] pushes at most one sword beam; when it
    pushes one, more than the sword cooldown has passed since the stamp, a
    previous hand height was recorded, the stamp becomes the reading of this
    call and the player is in the stance without shield or charge; when it
    pushes none the stamp stays. *)
Theorem sword_beam_needs_cooldown (side : Side) (landmarks : Pose)
  (clk : Clock) (s s' : GameState) :
  processPlayer side landmarks clk s = Ok tt s' ->
  exists new,
    projectiles s' = projectiles s ++ new
    /\ (List.length (filter (isKind sword) new) <= 1)%nat
    /\ ((exists pr, In pr new /\ type pr = sword) ->
        (SWORD_COOLDOWN
         < nowSword clk - lastSwordFireTime (player side s))%Z
        /\ ~ prevSwordY (player side s) == 0
        /\ lastSwordFireTime (player side s') = nowSword clk
        /\ hasSword (player side s') = true
        /\ isShielding (player side s') = false
        /\ isCharging (player side s') = false)
    /\ ((forall pr, In pr new -> type pr <> sword) ->
        lastSwordFireTime (player side s')
        = lastSwordFireTime (player side s)).
Proof.
  intros Hrun.
  destruct (processPlayer_inv _ _ _ _ _ Hrun)
    as (lw & rw & ls & rs & p' & lnew & _ & _ & _ & _ & (F & St & _) & ->).
  set (p := boxed landmarks (player side s)) in *.
  destruct (gestureP_launch side lw rw ls rs clk p)
    as (S & W & Hg & HS & HW & _).
  set (g := gestureP side lw rw ls rs clk p) in *.
  exists (snd g ++ lnew). split; [apply commit_projectiles|].
  rewrite commit_player.
  destruct (punchFrame_action _ _ F) as (Ha & _).
  unfold action in Ha. injection Ha as Es Ec _ _ Eh _.
  destruct (punchFrame_sword _ _ F) as (Ef & _).
  assert (Sk : filter (isKind sword) S = []).
  { destruct HS as [->|(-> & _)]; reflexivity. }
  rewrite Es, Ec, Eh, Ef. split; [|split].
  - rewrite Hg, !filter_app, Sk, (standardBy_kind side lnew sword St)
      by discriminate.
    rewrite app_nil_r. cbn [app].
    destruct HW as [(-> & _)|(-> & _)]; cbn; lia.
  - intros (pr & Hin & Hk).
    destruct HW as [(-> & _)|(_ & E & Hc & Hy & _ & Hh & Hs & Hg')].
    + exfalso. rewrite Hg, app_nil_r in Hin.
      apply in_app_or in Hin. destruct Hin as [Hin|Hin].
      * destruct HS as [->|(-> & _)]; [destruct Hin|].
        destruct Hin as [<-|[]]. discriminate Hk.
      * rewrite Forall_forall in St. destruct (St pr Hin) as (sx & sy & ->).
        discriminate Hk.
    + repeat split; trivial.
  - intros Hno.
    destruct HW as [(_ & E)|(-> & _)]; [exact E|].
    exfalso. apply (Hno (swordProjectile side ((1 - midX lw rw) * width)
                           (midY lw rw * height))); [|reflexivity].
    rewrite Hg. apply in_or_app. left. apply in_or_app. right. now left.
Qed.

Lemma sword_beam_needs_cooldown_witness :
  processPlayer sideLeft swingPose (steady 1816 0%nat) afterStance
  = Ok tt afterSwing
  /\ In beam (projectiles afterSwing) /\ type beam = sword
  /\ (SWORD_COOLDOWN
      < 1816 - lastSwordFireTime (leftPlayer afterStance))%Z
  /\ lastSwordFireTime (leftPlayer afterSwing) = 1816%Z.
Proof.
  split; [vm_compute; reflexivity|].
  destruct (sword_beam_needs_cooldown sideLeft swingPose (steady 1816 0%nat)
              afterStance afterSwing)
    as (new & Hp & _ & Hfire & _).
  - vm_compute. reflexivity.
  - assert (Hin : In beam (projectiles afterSwing)) by (left; reflexivity).
    split; [exact Hin|]. split; [reflexivity|].
    rewrite Hp in Hin. cbn in Hin.
    destruct Hfire as (Hc & _ & Hs & _).
    + exists beam. split; [exact Hin|reflexivity].
    + split; assumption.
Defined.

(* ------------------------------------------------------------------ *)
(** ** Properties: the punch phase, hand by hand *)

Section PunchPhase.

Context (e : Prop) (side : Side) (s0 : GameState).

Lemma checkHand_step_wp (landmarks : Pose) (handSide : Side)
  (iw ish ihi : nat) (scale : Root) (now : Z) Q p l :
  e \/ hasExpected landmarks = true ->
  In iw expectedIndices -> In ish expectedIndices -> In ihi expectedIndices ->
  (forall p' lnew,
      handStep side landmarks handSide iw ish ihi scale now p p' lnew ->
      Q tt p' (l ++ lnew)) ->
  wp e side s0
    (checkHand side handSide (at_index landmarks iw) (at_index landmarks ish)
       (at_index landmarks ihi) scale now) Q p l.
Proof.
  intros Hc Hw Hsh Hhi HQ. apply checkHand_wp.
  - intros G. rewrite <- (app_nil_r l). apply HQ. left. auto.
  - intros B C.
    apply with_opt_expected; trivial. intros sh Esh.
    apply with_opt_expected; trivial. intros hi Ehi.
    apply with_opt_expected; trivial. intros wr Ewr.
    apply HQ. right. do 2 (split; [assumption|]).
    exists wr, sh, hi. auto.
Qed.

Lemma detectPunch_step_wp (landmarks : Pose) (nowLeft nowRight : Z) Q p l :
  e \/ hasExpected landmarks = true ->
  (forall p' lnew,
      punchSteps side landmarks nowLeft nowRight p p' lnew ->
      Q tt p' (l ++ lnew)) ->
  wp e side s0 (detectPunch side landmarks nowLeft nowRight) Q p l.
Proof.
  intros Hc HQ. unfold detectPunch.
  repeat wp_step. apply with_opt_expected; trivial; [cbn; tauto|].
  intros ls Els. repeat wp_step.
  apply with_opt_expected; trivial; [cbn; tauto|].
  intros rs Ers. repeat wp_step.
  apply with_opt_expected; trivial; [cbn; tauto|].
  intros lh Elh. wp_step.
  apply checkHand_step_wp; trivial; try (cbn; tauto).
  intros p1 l1 H1.
  apply checkHand_step_wp; trivial; try (cbn; tauto).
  intros p2 l2 H2. rewrite <- app_assoc.
  apply HQ. exists ls, rs, lh, p1, l1, l2. auto 10.
Qed.

Lemma processPlayer_step_wp (landmarks : Pose) (clk : Clock) Q p l :
  e \/ hasExpected landmarks = true ->
  (forall lw rw ls rs p' lnew,
     at_index landmarks 15 = Some lw -> at_index landmarks 16 = Some rw ->
     at_index landmarks 11 = Some ls -> at_index landmarks 12 = Some rs ->
     punchPhase side landmarks clk
       (fst (gestureP side lw rw ls rs clk (boxed landmarks p))) p' lnew ->
     Q tt p'
       ((l ++ snd (gestureP side lw rw ls rs clk (boxed landmarks p)))
        ++ lnew)) ->
  wp e side s0 (processPlayer side landmarks clk) Q p l.
Proof.
  intros Hc HQ. unfold processPlayer.
  repeat wp_step.
  assert (Hbox : boxed landmarks p
                 = let '(minX, minY, maxX, maxY) :=
                     fold_left hitboxStep landmarks (1, 1, 0, 0) in
                   set_boundingBox
                     (Some (mkBox ((1 - maxX) * width) (minY * height)
                                  ((1 - minX) * width) (maxY * height)))
                     (set_detected true p)).
  { unfold boxed, hitbox.
    destruct (fold_left hitboxStep landmarks (1, 1, 0, 0)) as [[[a b] c] d].
    reflexivity. }
  destruct (fold_left hitboxStep landmarks (1, 1, 0, 0)) as [[[a b] c] d].
  repeat wp_step. rewrite <- Hbox. clear Hbox a b c d.
  set (p0 := boxed landmarks p) in *.
  apply detectShield_wp.
  apply with_opt_expected; trivial; [cbn; tauto|]. intros lw Elw.
  apply with_opt_expected; trivial; [cbn; tauto|]. intros rw Erw.
  apply with_opt_expected; trivial; [cbn; tauto|]. intros ls Els.
  apply with_opt_expected; trivial; [cbn; tauto|]. intros rs Ers.
  wp_step. apply detectSpecial_wp.
  unfold with_opt at 1 2 3 4. rewrite Elw, Erw, Els, Ers.
  specialize (HQ lw rw ls rs).
  unfold gestureP in HQ. cbv zeta in HQ.
  set (p1 := shieldP lw rw ls rs p0) in *.
  set (r2 := specialP side lw rw ls rs (nowSpecial clk) p1) in *.
  wp_step.
  assert (Htail : forall p3 l3,
    (forall p' lnew, punchPhase side landmarks clk p3 p' lnew ->
                     Q tt p' (l3 ++ lnew)) ->
    wp e side s0
      (player0 <- getPlayer side;;
       (if negb (isShielding player0) && negb (isCharging player0)
           && negb (hasSword player0)
        then detectPunch side landmarks (nowLeftHand clk) (nowRightHand clk)
        else ret tt);;
       player1 <- getPlayer side;; drawSkeleton landmarks player1)
      Q p3 l3).
  { intros p3 l3 H3. repeat wp_step.
    assert (Hb : negb (isShielding p3) && negb (isCharging p3)
                 && negb (hasSword p3) = negb (handBusy p3))
      by (unfold handBusy; destruct (isShielding p3), (isCharging p3),
            (hasSword p3); reflexivity).
    rewrite Hb. destruct (handBusy p3) eqn:B; cbn [negb].
    - repeat wp_step. apply drawSkeleton_wp; trivial.
      rewrite <- (app_nil_r l3). apply H3. left. auto.
    - apply detectPunch_step_wp; trivial. intros p4 l4 H4.
      repeat wp_step. apply drawSkeleton_wp; trivial. apply H3.
      right. auto. }
  apply detectSword_wp.
  - intros G. cbv beta. apply Htail. intros p' lnew O.
    rewrite G in HQ. cbn [fst snd] in HQ. rewrite app_nil_r in HQ.
    now apply HQ.
  - intros G. unfold with_opt. rewrite Elw, Erw. cbv beta. apply Htail.
    intros p' lnew O. rewrite G in HQ. cbn [fst snd] in HQ.
    rewrite app_assoc in HQ. now apply HQ.
Qed.

End PunchPhase.

(** A call of [processPlayer] that returns: the three detections, then the
    punch phase hand by hand. *)
Lemma processPlayer_steps (side : Side) (landmarks : Pose) (clk : Clock)
  (s s' : GameState) :
  processPlayer side landmarks clk s = Ok tt s' ->
  exists lw rw ls rs p' lnew,
    at_index landmarks 15 = Some lw /\ at_index landmarks 16 = Some rw
    /\ at_index landmarks 11 = Some ls /\ at_index landmarks 12 = Some rs
    /\ punchPhase side landmarks clk
         (fst (gestureP side lw rw ls rs clk
                 (boxed landmarks (player side s)))) p' lnew
    /\ s' = commit side p'
              (snd (gestureP side lw rw ls rs clk
                      (boxed landmarks (player side s))) ++ lnew) s.
Proof.
  intros H.
  pose proof (processPlayer_step_wp True side s landmarks clk
    (fun _ p' l' =>
       exists lw rw ls rs lnew,
         at_index landmarks 15 = Some lw /\ at_index landmarks 16 = Some rw
         /\ at_index landmarks 11 = Some ls /\ at_index landmarks 12 = Some rs
         /\ punchPhase side landmarks clk
              (fst (gestureP side lw rw ls rs clk
                      (boxed landmarks (player side s)))) p' lnew
         /\ l' = snd (gestureP side lw rw ls rs clk
                        (boxed landmarks (player side s))) ++ lnew)
    (player side s) [] (or_introl I)) as W.
  unfold wp in W. rewrite commit_eta, H in W.
  destruct W as (p' & l' & -> & lw & rw & ls & rs & lnew & W).
  - intros lw rw ls rs p' lnew ? ? ? ? ?.
    exists lw, rw, ls, rs, lnew. cbn [app]. tauto.
  - exists lw, rw, ls, rs, p', lnew.
    destruct W as (? & ? & ? & ? & ? & ->). tauto.
Qed.

Lemma handStep_launch (side : Side) (landmarks : Pose) (handSide : Side)
  (iw ish ihi : nat) (scale : Root) (now : Z) (p p' : PlayerState)
  (l : list Projectile) :
  handStep side landmarks handSide iw ish ihi scale now p p' l ->
  handBusy p' = handBusy p
  /\ ((l = [] /\ lastPunchTime p' = lastPunchTime p)
      \/ (exists wr, at_index landmarks iw = Some wr
                     /\ l = [punchFrom side wr]
                     /\ lastPunchTime p' = now
                     /\ handBusy p = false
                     /\ (PUNCH_COOLDOWN <= now - lastPunchTime p)%Z)).
Proof.
  intros [(_ & -> & ->)|(B & C & wr & sh & hi & Ew & _ & _ & -> & ->)].
  - split; [reflexivity|]. left. split; reflexivity.
  - destruct (handP_fires side handSide wr sh hi scale now p)
      as (Hl & Ht & Hb & _).
    split; [exact Hb|]. rewrite Hl, Ht.
    destruct (handFires handSide wr sh hi scale p); [right|left; auto].
    exists wr. repeat split; trivial.
    unfold coolingDown in C. now apply Z.ltb_ge in C.
Qed.

(** X13.  A call of [processPlayer] pushes at most two punches, at most one
    when the two hands read the clock less than the cooldown apart; when it
    pushes one, no gesture claims the player, the cooldown had elapsed at
    the reading of a hand, and the stamp becomes that reading; when it
    pushes none the stamp stays. *)
Theorem punch_needs_cooldown (side : Side) (landmarks : Pose)
  (clk : Clock) (s s' : GameState) :
  processPlayer side landmarks clk s = Ok tt s' ->
  exists new,
    projectiles s' = projectiles s ++ new
    /\ (List.length (filter (isKind standard) new) <= 2)%nat
    /\ ((nowRightHand clk - nowLeftHand clk < PUNCH_COOLDOWN)%Z ->
        (List.length (filter (isKind standard) new) <= 1)%nat)
    /\ ((exists pr, In pr new /\ type pr = standard) ->
        handBusy (player side s') = false
        /\ (lastPunchTime (player side s') = nowLeftHand clk
            \/ lastPunchTime (player side s') = nowRightHand clk)
        /\ (PUNCH_COOLDOWN
            <= nowLeftHand clk - lastPunchTime (player side s)
            \/ PUNCH_COOLDOWN
               <= nowRightHand clk - lastPunchTime (player side s))%Z)
    /\ ((forall pr, In pr new -> type pr <> standard) ->
        lastPunchTime (player side s') = lastPunchTime (player side s)).
Proof.
  intros Hrun.
  destruct (processPlayer_steps _ _ _ _ _ Hrun)
    as (lw & rw & ls & rs & p' & lnew & _ & _ & _ & _ & HP & ->).
  set (p := boxed landmarks (player side s)) in *.
  destruct (gestureP_launch side lw rw ls rs clk p)
    as (S & W & Hg & HS & HW & Ep & _).
  set (g := gestureP side lw rw ls rs clk p) in *.
  change (lastPunchTime p) with (lastPunchTime (player side s)) in Ep.
  exists (snd g ++ lnew). split; [apply commit_projectiles|].
  rewrite commit_player.
  assert (Gk : filter (isKind standard) (snd g) = []).
  { rewrite Hg, filter_app.
    destruct HS as [->|(-> & _)]; destruct HW as [(-> & _)|(-> & _)];
      reflexivity. }
  assert (Gn : forall pr, In pr (snd g) -> type pr <> standard).
  { intros pr Hin Hk.
    assert (Hf : In pr (filter (isKind standard) (snd g))).
    { apply filter_In. split; [exact Hin|]. unfold isKind. now rewrite Hk. }
    rewrite Gk in Hf. destruct Hf. }
  rewrite filter_app, Gk. cbn [app].
  destruct HP as [(B & -> & ->)|(B & Hsteps)].
  - cbn [filter List.length]. split; [lia|]. split; [lia|]. split.
    + intros (pr & Hin & Hk). rewrite app_nil_r in Hin.
      now destruct (Gn pr Hin).
    + intros _. exact Ep.
  - destruct Hsteps as (ls' & rs' & lh & p1 & l1 & l2 & _ & _ & _
                        & H1 & H2 & ->).
    apply handStep_launch in H1. apply handStep_launch in H2.
    destruct H1 as (B1 & H1). destruct H2 as (B2 & H2).
    rewrite Ep in *.
    destruct H1 as [(-> & T1)|(w1 & _ & -> & T1 & _ & C1)];
      destruct H2 as [(-> & T2)|(w2 & _ & -> & T2 & _ & C2)];
      cbn [app filter isKind type punchFrom standardProjectile
           AttackType_eqb List.length].
    + split; [lia|]. split; [lia|]. split.
      * intros (pr & Hin & Hk). rewrite app_nil_r in Hin.
        now destruct (Gn pr Hin).
      * intros _. congruence.
    + split; [lia|]. split; [lia|]. split.
      * intros _. split; [congruence|]. split; [now right|].
        right. rewrite T1 in C2. exact C2.
      * intros Hno. exfalso. apply (Hno (punchFrom side w2)); [|reflexivity].
        apply in_or_app. right. now left.
    + split; [lia|]. split; [lia|]. split.
      * intros _. split; [congruence|]. split; [left; congruence|].
        now left.
      * intros Hno. exfalso. apply (Hno (punchFrom side w1)); [|reflexivity].
        apply in_or_app. right. now left.
    + split; [lia|]. split; [|split].
      * intros Hgap. rewrite T1 in C2. lia.
      * intros _. split; [congruence|]. split; [now right|]. now left.
      * intros Hno. exfalso. apply (Hno (punchFrom side w1)); [|reflexivity].
        apply in_or_app. right. now left.
Qed.

Lemma punch_needs_cooldown_witness :
  processPlayer sideLeft punchPose (steady 1000 0%nat) initialState
  = Ok tt processedPunch
  /\ In (punchFrom sideLeft leftFist) (projectiles processedPunch)
  /\ handBusy (leftPlayer processedPunch) = false
  /\ (PUNCH_COOLDOWN <= 1000 - lastPunchTime (leftPlayer initialState))%Z.
Proof.
  split; [vm_compute; reflexivity|].
  destruct (punch_needs_cooldown sideLeft punchPose (steady 1000 0%nat)
              initialState processedPunch)
    as (new & Hp & _ & _ & Hfire & _).
  - vm_compute. reflexivity.
  - assert (Hin : In (punchFrom sideLeft leftFist)
                    (projectiles processedPunch)) by (left; reflexivity).
    split; [exact Hin|].
    rewrite Hp in Hin. cbn in Hin.
    destruct Hfire as (Hb & _ & Hc).
    + exists (punchFrom sideLeft leftFist). split; [exact Hin|reflexivity].
    + split; [exact Hb|]. cbn in Hc. destruct Hc; assumption.
Defined.

(* ------------------------------------------------------------------ *)
(** ** Properties: the grace period of a charge *)

Lemma gestureP_grace (side : Side) (lw rw ls rs : Landmark) (clk : Clock)
  (p : PlayerState) :
  isCharging p = true ->
  chargeHeld lw rw ls rs p = false ->
  chargeLevel p < 1 ->
  let g := gestureP side lw rw ls rs clk p in
  if (nowSpecial clk - lastPoseTime p >? CHARGE_GRACE_PERIOD)%Z
  then isCharging (fst g) = false /\ chargeLevel (fst g) = 0
       /\ filter (isKind special) (snd g) = []
  else isCharging (fst g) = true /\ chargeLevel (fst g) = chargeLevel p
       /\ chargeStartTime (fst g) = chargeStartTime p
       /\ lastPoseTime (fst g) = lastPoseTime p
       /\ hasSword (fst g) = false
       /\ snd g = [].
Proof.
  intros Hc Hh Hl. cbv zeta. unfold gestureP, specialP.
  rewrite isHoldingPose_shieldP, Hh.
  destruct (shieldP_keeps lw rw ls rs p) as (-> & -> & Ks & Kt & _).
  rewrite Hc, Kt. apply Qgeb_lt in Hl. rewrite Hl.
  destruct (nowSpecial clk - lastPoseTime p >? CHARGE_GRACE_PERIOD)%Z;
    cbn [fst snd].
  - match goal with
    | |- context [if ?c then (?a, []) else ?b] => destruct c
    end; cbn [fst snd]; [repeat split|].
    destruct (swordP_launch side lw rw (nowSword clk)
                (discharged (shieldP lw rw ls rs p)))
      as (HW & _ & -> & -> & _).
    repeat split.
    destruct HW as [(-> & _)|(-> & _)]; reflexivity.
  - assert (G : isShielding (shieldP lw rw ls rs p)
                || isCharging (shieldP lw rw ls rs p) = true).
    { destruct (shieldP_keeps lw rw ls rs p) as (-> & _).
      rewrite Hc. apply orb_true_r. }
    rewrite G. cbn [fst snd].
    destruct (shieldP_keeps lw rw ls rs p) as (Kc & Kl & _).
    repeat split; cbn; try congruence.
Qed.

(** X14.  For a charging player below full level whose pose is not held on
    this tick: within the grace period after the last tick the pose was
    held the charge is kept as it was and the call pushes nothing; past the
    grace period the charge is dropped without a special shot. *)
Theorem charge_grace_period (side : Side) (landmarks : Pose)
  (clk : Clock) (s s' : GameState) (lw rw ls rs : Landmark) :
  at_index landmarks 15 = Some lw -> at_index landmarks 16 = Some rw ->
  at_index landmarks 11 = Some ls -> at_index landmarks 12 = Some rs ->
  processPlayer side landmarks clk s = Ok tt s' ->
  isCharging (player side s) = true ->
  chargeHeld lw rw ls rs (player side s) = false ->
  chargeLevel (player side s) < 1 ->
  ((nowSpecial clk - lastPoseTime (player side s) <= CHARGE_GRACE_PERIOD)%Z ->
   isCharging (player side s') = true
   /\ chargeLevel (player side s') = chargeLevel (player side s)
   /\ chargeStartTime (player side s') = chargeStartTime (player side s)
   /\ lastPoseTime (player side s') = lastPoseTime (player side s)
   /\ projectiles s' = projectiles s)
  /\ ((CHARGE_GRACE_PERIOD < nowSpecial clk - lastPoseTime (player side s))%Z ->
      isCharging (player side s') = false
      /\ chargeLevel (player side s') = 0
      /\ forall pr, In pr (projectiles s') -> type pr = special ->
                    In pr (projectiles s)).
Proof.
  intros E15 E16 E11 E12 Hrun Hc Hh Hl.
  destruct (processPlayer_inv _ _ _ _ _ Hrun)
    as (lw' & rw' & ls' & rs' & p' & lnew & F15 & F16 & F11 & F12
        & (F & St & Hb) & ->).
  assert (lw' = lw) by congruence. assert (rw' = rw) by congruence.
  assert (ls' = ls) by congruence. assert (rs' = rs) by congruence.
  subst lw' rw' ls' rs'.
  set (p := boxed landmarks (player side s)) in *.
  pose proof (gestureP_grace side lw rw ls rs clk p Hc Hh Hl) as HG.
  cbv zeta in HG.
  set (g := gestureP side lw rw ls rs clk p) in *.
  change (lastPoseTime p) with (lastPoseTime (player side s)) in HG.
  change (chargeLevel p) with (chargeLevel (player side s)) in HG.
  change (chargeStartTime p) with (chargeStartTime (player side s)) in HG.
  rewrite commit_player, commit_projectiles.
  destruct (punchFrame_action _ _ F) as (Ha & _).
  unfold action in Ha. injection Ha as _ Ec Es El _ Et.
  rewrite Ec, Es, El, Et.
  destruct (nowSpecial clk - lastPoseTime (player side s)
            >? CHARGE_GRACE_PERIOD)%Z eqn:T.
  - apply Z.gtb_lt in T. split; [lia|]. intros _.
    destruct HG as (G1 & G2 & G3). repeat split; trivial.
    intros pr Hin Hk. apply in_app_or in Hin.
    destruct Hin as [Hin|Hin]; [exact Hin|exfalso].
    apply in_app_or in Hin. destruct Hin as [Hin|Hin].
    + assert (Hf : In pr (filter (isKind special) (snd g))).
      { apply filter_In. split; [exact Hin|]. unfold isKind. now rewrite Hk. }
      rewrite G3 in Hf. destruct Hf.
    + rewrite Forall_forall in St. destruct (St pr Hin) as (sx & sy & ->).
      discriminate Hk.
  - assert (T' : (nowSpecial clk - lastPoseTime (player side s)
                  <= CHARGE_GRACE_PERIOD)%Z).
    { destruct (Z.gtb_spec (nowSpecial clk - lastPoseTime (player side s))
                  CHARGE_GRACE_PERIOD); [discriminate|lia]. }
    split; [|lia]. intros _.
    destruct HG as (G1 & G2 & G3 & G4 & G5 & G6).
    repeat split; trivial.
    destruct Hb as (_ & ->).
    + unfold handBusy. rewrite G1. apply orb_true_iff. left.
      apply orb_true_r.
    + rewrite G6. cbn [app]. apply app_nil_r.
Qed.

Lemma charge_grace_period_witness :
  processPlayer sideLeft restPose (steady 1016 0%nat) afterCharge
  = Ok tt processedRest
  /\ isCharging (leftPlayer afterCharge) = true
  /\ chargeLevel (leftPlayer afterCharge) < 1
  /\ isCharging (leftPlayer processedRest) = true
  /\ projectiles processedRest = projectiles afterCharge.
Proof.
  assert (Hrun : processPlayer sideLeft restPose (steady 1016 0%nat)
                   afterCharge = Ok tt processedRest)
    by (vm_compute; reflexivity).
  assert (Hlow : chargeLevel (leftPlayer afterCharge) < 1) by reflexivity.
  split; [exact Hrun|]. split; [reflexivity|]. split; [exact Hlow|].
  destruct (charge_grace_period sideLeft restPose (steady 1016 0%nat)
              afterCharge processedRest
              (landmarkAt (8 # 10) (7 # 10)) (landmarkAt (5 # 10) (7 # 10))
              leftShoulderAt rightShoulderAt
              eq_refl eq_refl eq_refl eq_refl Hrun eq_refl eq_refl Hlow)
    as (Hin & _).
  destruct Hin as (Hc & _ & _ & _ & Hp); [vm_compute; discriminate|].
  split; assumption.
Defined.

(* ------------------------------------------------------------------ *)
(** ** Properties: the reach of a punch *)

(** The scale of [detectPunch] is at least 0.1, and a hand that fires is in
    the chest band, moved more than the speed threshold against the stored
    position, and is further from its shoulder than 0.8 of the shoulder
    width, of the torso height and of 0.1 (distances by their squares). *)
Lemma handFires_reach (handSide : Side) (wr sh hi ls rs lh : Landmark)
  (p : PlayerState) :
  handFires handSide wr sh hi (bodyScale ls rs lh) p = true ->
  (lm_y sh - (1 # 10) <= lm_y wr /\ lm_y wr <= lm_y hi - (1 # 10))
  /\ (4 # 100) * (4 # 100)
     < radicand (punchSpeed wr sh (wrist_of handSide (prevWrists p)))
  /\ (64 # 100) * radicand (getDist ls rs) < radicand (getDist wr sh)
  /\ (64 # 100) * radicand (getDist ls lh) < radicand (getDist wr sh)
  /\ (8 # 100) * (8 # 100) < radicand (getDist wr sh).
Proof.
  unfold handFires, punchTrigger, outsideChestBand.
  intros H. apply andb_true_iff in H. destruct H as (Hb & Ht).
  apply negb_true_iff, orb_false_iff in Hb. destruct Hb as (B1 & B2).
  apply Qltb_ge in B1. apply Qgtb_le in B2.
  apply andb_true_iff in Ht. destruct Ht as (Hs & He).
  unfold root_gtb, root_of, PUNCH_SPEED_THRESHOLD, EXTENSION_THRESHOLD in *.
  cbn [radicand] in Hs, He. apply Qgtb_gt in Hs. apply Qgtb_gt in He.
  split; [split; assumption|]. split; [exact Hs|].
  unfold root_div, bodyScale, root_max, root_of in He. cbn [radicand] in He.
  set (a := radicand (getDist ls rs)) in *.
  set (b := radicand (getDist ls lh)) in *.
  set (d := radicand (getDist wr sh)) in *.
  set (m := Qmax (Qmax a b) ((1 # 10) * (1 # 10))) in *.
  assert (Hm : (1 # 10) * (1 # 10) <= m) by apply Q.le_max_r.
  assert (Hab : Qmax a b <= m) by apply Q.le_max_l.
  assert (Ha : a <= Qmax a b) by apply Q.le_max_l.
  assert (Hb' : b <= Qmax a b) by apply Q.le_max_r.
  assert (Hpos : 0 < m) by lra.
  assert (Hd : (8 # 10) * (8 # 10) * m < d).
  { assert (E : d / m * m == d) by (field; lra).
    rewrite <- E. apply Qmult_lt_r; assumption. }
  repeat split; lra.
Qed.

Lemma handStep_reach (side : Side) (landmarks : Pose) (handSide : Side)
  (iw ish ihi : nat) (ls rs lh : Landmark) (now : Z) (p p' : PlayerState)
  (l : list Projectile) (pr : Projectile) :
  handStep side landmarks handSide iw ish ihi (bodyScale ls rs lh) now
    p p' l ->
  In pr l ->
  exists wr sh hi,
    at_index landmarks iw = Some wr /\ at_index landmarks ish = Some sh
    /\ at_index landmarks ihi = Some hi
    /\ pr = punchFrom side wr
    /\ handFires handSide wr sh hi (bodyScale ls rs lh) p = true.
Proof.
  intros [(_ & _ & ->)|(_ & _ & wr & sh & hi & Ew & Es & Eh & _ & ->)] Hin;
    [destruct Hin|].
  destruct (handP_fires side handSide wr sh hi (bodyScale ls rs lh) now p)
    as (Hl & _).
  rewrite Hl in Hin.
  destruct (handFires handSide wr sh hi (bodyScale ls rs lh) p) eqn:Hf;
    [|destruct Hin].
  destruct Hin as [<-|[]]. exists wr, sh, hi. auto.
Qed.

(** X15.  Every punch [detectPunch] pushes starts at the mirrored canvas
    position of a wrist that is in the chest band of its side and further
    from its shoulder than 0.8 of the shoulder width, of the torso height
    and of the floor 0.1 of the scale, whatever the size of the body. *)
Theorem punch_needs_reach (side : Side) (landmarks : Pose)
  (nowLeft nowRight : Z) (s s' : GameState) :
  detectPunch side landmarks nowLeft nowRight s = Ok tt s' ->
  exists new ls rs lh,
    projectiles s' = projectiles s ++ new
    /\ at_index landmarks 11 = Some ls /\ at_index landmarks 12 = Some rs
    /\ at_index landmarks 23 = Some lh
    /\ forall pr, In pr new ->
         exists wr sh hi,
           ((at_index landmarks 15 = Some wr /\ sh = ls /\ hi = lh)
            \/ (at_index landmarks 16 = Some wr /\ sh = rs
                /\ at_index landmarks 24 = Some hi))
           /\ pr = standardProjectile side ((1 - lm_x wr) * width)
                     (lm_y wr * height)
           /\ (lm_y sh - (1 # 10) <= lm_y wr /\ lm_y wr <= lm_y hi - (1 # 10))
           /\ (64 # 100) * radicand (getDist ls rs)
              < radicand (getDist wr sh)
           /\ (64 # 100) * radicand (getDist ls lh)
              < radicand (getDist wr sh)
           /\ (8 # 100) * (8 # 100) < radicand (getDist wr sh).
Proof.
  intros H.
  pose proof (detectPunch_step_wp True side s landmarks nowLeft nowRight
    (fun _ p' l' =>
       punchSteps side landmarks nowLeft nowRight (player side s) p' l')
    (player side s) [] (or_introl I)) as W.
  unfold wp in W. rewrite commit_eta, H in W.
  destruct W as (p' & l' & -> & ls & rs & lh & p1 & l1 & l2
                 & E11 & E12 & E23 & H1 & H2 & ->).
  { intros p' lnew Hs. exact Hs. }
  exists (l1 ++ l2), ls, rs, lh.
  split; [apply commit_projectiles|]. do 3 (split; [assumption|]).
  intros pr Hin. apply in_app_or in Hin. destruct Hin as [Hin|Hin].
  - destruct (handStep_reach _ _ _ _ _ _ _ _ _ _ _ _ _ _ H1 Hin)
      as (wr & sh & hi & Ew & Es & Eh & -> & Hf).
    assert (sh = ls) by congruence. assert (hi = lh) by congruence.
    subst sh hi.
    destruct (handFires_reach _ _ _ _ _ _ _ _ Hf) as (Hb & _ & R1 & R2 & R3).
    exists wr, ls, lh. split; [left; auto|]. split; [reflexivity|]. auto.
  - destruct (handStep_reach _ _ _ _ _ _ _ _ _ _ _ _ _ _ H2 Hin)
      as (wr & sh & hi & Ew & Es & Eh & -> & Hf).
    assert (sh = rs) by congruence. subst sh.
    destruct (handFires_reach _ _ _ _ _ _ _ _ Hf) as (Hb & _ & R1 & R2 & R3).
    exists wr, rs, hi. split; [right; auto|]. split; [reflexivity|]. auto.
Qed.

Lemma punch_needs_reach_witness :
  detectPunch sideLeft punchPose 1000 1000 initialState = Ok tt punched
  /\ In (punchFrom sideLeft leftFist) (projectiles punched)
  /\ exists wr sh,
       punchFrom sideLeft leftFist
       = standardProjectile sideLeft ((1 - lm_x wr) * width)
           (lm_y wr * height)
       /\ (8 # 100) * (8 # 100) < radicand (getDist wr sh).
Proof.
  split; [vm_compute; reflexivity|].
  destruct (punch_needs_reach sideLeft punchPose 1000 1000 initialState
              punched)
    as (new & ls & rs & lh & Hp & _ & _ & _ & Hall).
  - vm_compute. reflexivity.
  - assert (Hin : In (punchFrom sideLeft leftFist) (projectiles punched))
      by (left; reflexivity).
    split; [exact Hin|].
    rewrite Hp in Hin. cbn in Hin.
    destruct (Hall _ Hin) as (wr & sh & hi & _ & E & _ & _ & _ & R).
    exists wr, sh. split; assumption.
Defined.

(* ------------------------------------------------------------------ *)
(** ** Properties: the bodies of a frame, in order *)

Lemma processPlayer_box (side sd : Side) (landmarks : Pose) (clk : Clock)
  (s s1 : GameState) :
  processPlayer side landmarks clk s = Ok tt s1 ->
  hasUpperBody landmarks = true
  /\ boundingBox (player sd s1)
     = if Side_eqb side sd then Some (hitbox landmarks)
       else boundingBox (player sd s).
Proof.
  intros Hrun.
  destruct (processPlayer_inv _ _ _ _ _ Hrun)
    as (lw & rw & ls & rs & p' & lnew & E15 & E16 & E11 & E12
        & (F & _ & _) & ->).
  split.
  - unfold hasUpperBody. cbn [forallb]. now rewrite E11, E12, E15, E16.
  - destruct (opponent_or sd side) as [->| ->].
    + rewrite commit_player.
      destruct (punchFrame_action _ _ F) as (_ & _ & _ & -> & _).
      destruct (gestureP_rest side lw rw ls rs clk
                  (boxed landmarks (player side s))) as (_ & _ & _ & ->).
      destruct side; reflexivity.
    + rewrite commit_other. destruct side; reflexivity.
Qed.

Lemma forEachPose_run (clock : nat -> Clock) (ls : list Pose) :
  forall i det s det' s',
    forEachPose (map withCenter ls) clock i det s = Ok det' s' ->
    forallb hasUpperBody ls = true
    /\ forall sd, boundingBox (player sd s')
                  = boxAfter sd ls (boundingBox (player sd s)).
Proof.
  induction ls as [|l rest IH]; intros i det s det' s' H.
  - cbn in H. injection H as _ <-. split; reflexivity.
  - cbn [map] in H. unfold withCenter at 1 in H.
    rewrite forEachPose_cons in H. unfold bind in H.
    destruct (processPlayer (sideOfCenter (centerXOf l)) l (clock i) s)
      as [[] s1|] eqn:Hp; [|discriminate].
    destruct (IH _ _ _ _ _ H) as (Hall & Hbox).
    split.
    + cbn [forallb]. rewrite Hall.
      now destruct (processPlayer_box _ sideLeft _ _ _ _ Hp) as (-> & _).
    + intros sd. rewrite Hbox. unfold boxAfter. cbn [fold_left].
      destruct (processPlayer_box _ sd _ _ _ _ Hp) as (_ & ->).
      reflexivity.
Qed.

Lemma boxAfter_last (side : Side) (ls : list Pose)
  (b : option BoundingBox) :
  boxAfter side ls b
  = match lastAssigned side ls with
    | Some l => Some (hitbox l)
    | None => b
    end.
Proof.
  unfold boxAfter, lastAssigned.
  induction ls as [|l rest IH] using rev_ind; [reflexivity|].
  rewrite !fold_left_app. cbn [fold_left].
  destruct (assignedTo side l); [reflexivity|exact IH].
Qed.

Lemma lastAssigned_some (side : Side) (ls : list Pose) :
  existsb (assignedTo side) ls = true ->
  exists l, lastAssigned side ls = Some l /\ In l ls
            /\ assignedTo side l = true.
Proof.
  unfold lastAssigned.
  induction ls as [|l rest IH] using rev_ind; [discriminate|].
  rewrite existsb_app, fold_left_app. cbn [fold_left existsb].
  destruct (assignedTo side l) eqn:A.
  - intros _. exists l. split; [reflexivity|]. split; [|exact A].
    apply in_or_app. right. now left.
  - rewrite !orb_false_r. intros H. destruct (IH H) as (l' & E & Hin & A').
    exists l'. split; [exact E|]. split; [|exact A'].
    apply in_or_app. now left.
Qed.

Lemma finishTick_box (side : Side) (det : bool * bool) (s : GameState) :
  flagOf side det = true ->
  boundingBox (player side (finishTick det s)) = boundingBox (player side s).
Proof.
  intros Hf. unfold finishTick.
  rewrite late_stages_player, projectileStage_player.
  change (boundingBox (set_hp ?h ?p)) with (boundingBox p).
  destruct side; cbn [flagOf player] in *.
  - destruct (aiStage_frame (markUndetected det s)) as (-> & _).
    rewrite markUndetected_left, Hf. reflexivity.
  - unfold aiStage, markUndetected. rewrite Hf. cbn [negb andb].
    rewrite andb_false_r.
    destruct (negb (fst det)); reflexivity.
Qed.

(** X16.  A tick that runs to its end has found both shoulders and both
    wrists on every body of the frame; and the hurtbox of a side with a
    body in the frame is, after the tick, the box of the last body assigned
    to that side. *)
Theorem last_body_sets_hurtbox (clock : nat -> Clock) (s s' : GameState) :
  draw clock s = Ok tt s' ->
  isGameOver s = false ->
  (forall l, In l (frame s) -> hasUpperBody l = true)
  /\ forall side,
       existsb (assignedTo side) (frame s) = true ->
       exists l,
         lastAssigned side (frame s) = Some l /\ In l (frame s)
         /\ assignedTo side l = true
         /\ boundingBox (player side s') = Some (hitbox l).
Proof.
  intros Hrun G. rewrite (draw_stages _ _ G) in Hrun.
  destruct (posePhase clock s) as [det s1|] eqn:Hpose; [|discriminate].
  injection Hrun as <-.
  pose proof (posePhase_frame _ _ _ _ Hpose) as Hloop.
  destruct (forEachPose_run _ _ _ _ _ _ _ Hloop) as (Hall & Hbox).
  split.
  - intros l Hin. rewrite forallb_forall in Hall. now apply Hall.
  - intros side Hex.
    destruct (lastAssigned_some _ _ Hex) as (l & El & Hin & A).
    exists l. do 3 (split; [assumption|]).
    rewrite finishTick_box by (rewrite (posePhase_flag _ side _ _ _ Hpose);
                               exact Hex).
    rewrite Hbox, boxAfter_last, El. reflexivity.
Qed.

Lemma last_body_sets_hurtbox_witness :
  draw (steady 1000) (set_poseResults (Some [chargePose]) initialState)
  = Ok tt afterCharge
  /\ hasUpperBody chargePose = true
  /\ boundingBox (leftPlayer afterCharge) = Some (hitbox chargePose).
Proof.
  split; [vm_compute; reflexivity|].
  destruct (last_body_sets_hurtbox (steady 1000)
              (set_poseResults (Some [chargePose]) initialState) afterCharge)
    as (Hall & Hbox).
  - vm_compute. reflexivity.
  - reflexivity.
  - split; [apply Hall; left; reflexivity|].
    destruct (Hbox sideLeft eq_refl) as (l & El & _ & _ & E).
    injection El as <-. exact E.
Defined.

(* ------------------------------------------------------------------ *)
(** ** Properties: the health bar *)

(** X17.  In every reachable state the hp of either player is at most the
    maximum, so the share shown by the health bar is at most 1. *)
Theorem hp_at_most_max (t : Z) (s : GameState) (side : Side) :
  reachable t s -> hp (player side s) <= MAX_HP.
Proof.
  intros Hr. revert side.
  induction Hr as [t Ht|t s results _ IH|t s _ IH
                  |t t' clock s s' _ IH Hc Hrun]; intros side.
  - destruct side; apply Qle_refl.
  - destruct side; apply (IH sideLeft) || apply (IH sideRight).
  - destruct side; apply Qle_refl.
  - destruct (isGameOver s) eqn:G.
    + rewrite (draw_gameOver _ _ G) in Hrun. injection Hrun as <-. apply IH.
    + rewrite (draw_stages _ _ G) in Hrun.
      destruct (posePhase clock s) as [det s1|] eqn:Hpose; [|discriminate].
      injection Hrun as <-.
      destruct (posePhase_scenery _ _ _ _ Hpose) as (_ & Hp).
      destruct (Hp side) as (Eh & _).
      eapply Qle_trans; [apply finishTick_hp_le|]. rewrite Eh. apply IH.
Qed.

Lemma hp_at_most_max_witness :
  reachable 1000 afterHit /\ hp (rightPlayer afterHit) <= MAX_HP.
Proof.
  split; [exact reachable_afterHit|].
  exact (hp_at_most_max 1000 afterHit sideRight reachable_afterHit).
Defined.

(* ------------------------------------------------------------------ *)
(** ** Properties: the shield *)

Lemma gestureP_shield (side : Side) (lw rw ls rs : Landmark) (clk : Clock)
  (p : PlayerState) :
  let g := gestureP side lw rw ls rs clk p in
  isShielding (fst g) = isShieldPose lw rw ls rs
  /\ (isShieldPose lw rw ls rs = true ->
      hasSword (fst g) = false
      /\ Forall (fun pr => type pr = special) (snd g)).
Proof.
  cbv zeta. unfold gestureP.
  set (p1 := shieldP lw rw ls rs p).
  assert (E1 : isShielding p1 = isShieldPose lw rw ls rs)
    by apply shieldP_isShielding.
  destruct (specialP_launch side lw rw ls rs (nowSpecial clk) p1)
    as (HS & _ & _ & Ss & _).
  set (r2 := specialP side lw rw ls rs (nowSpecial clk) p1) in *.
  destruct (swordP_launch side lw rw (nowSword clk) (fst r2))
    as (_ & Ws & _).
  assert (HSk : Forall (fun pr => type pr = special) (snd r2)).
  { destruct HS as [->|(-> & _)]; repeat constructor. }
  destruct (isShielding (fst r2) || isCharging (fst r2)) eqn:G;
    cbn [fst snd].
  - split; [cbn; congruence|]. intros _. split; [reflexivity|].
    now rewrite app_nil_r.
  - split; [congruence|]. intros Hsh. exfalso.
    apply orb_false_iff in G. destruct G as (G & _). congruence.
Qed.

(** X18.  After a call of [processPlayer] the shield flag says whether the
    shield geometry holds on this body, whatever the flag was before; and
    a body in the shield geometry ends without the sword and pushes no
    sword beam and no punch. *)
Theorem shield_is_geometry (side : Side) (landmarks : Pose) (clk : Clock)
  (s s' : GameState) (lw rw ls rs : Landmark) :
  at_index landmarks 15 = Some lw -> at_index landmarks 16 = Some rw ->
  at_index landmarks 11 = Some ls -> at_index landmarks 12 = Some rs ->
  processPlayer side landmarks clk s = Ok tt s' ->
  isShielding (player side s') = isShieldPose lw rw ls rs
  /\ (isShieldPose lw rw ls rs = true ->
      hasSword (player side s') = false
      /\ exists new,
           projectiles s' = projectiles s ++ new
           /\ Forall (fun pr => type pr = special) new).
Proof.
  intros E15 E16 E11 E12 Hrun.
  destruct (processPlayer_inv _ _ _ _ _ Hrun)
    as (lw' & rw' & ls' & rs' & p' & lnew & F15 & F16 & F11 & F12
        & (F & _ & Hb) & ->).
  assert (lw' = lw) by congruence. assert (rw' = rw) by congruence.
  assert (ls' = ls) by congruence. assert (rs' = rs) by congruence.
  subst lw' rw' ls' rs'.
  set (p := boxed landmarks (player side s)) in *.
  destruct (gestureP_shield side lw rw ls rs clk p) as (Es & Hsh).
  set (g := gestureP side lw rw ls rs clk p) in *.
  rewrite commit_player, commit_projectiles.
  destruct (punchFrame_action _ _ F) as (Ha & _).
  unfold action in Ha. injection Ha as Ei _ _ _ Eh _.
  rewrite Ei, Eh. split; [exact Es|].
  intros Hpose. destruct (Hsh Hpose) as (Hw & Hk).
  split; [exact Hw|]. exists (snd g ++ lnew). split; [reflexivity|].
  destruct Hb as (_ & ->).
  - unfold handBusy. now rewrite Es, Hpose.
  - now rewrite app_nil_r.
Qed.

Lemma shield_is_geometry_witness :
  processPlayer sideLeft shieldPose (steady 1016 0%nat) afterCharge
  = Ok tt processedShield
  /\ isShieldPose (landmarkAt (7 # 10) (35 # 100))
       (landmarkAt (6 # 10) (35 # 100)) leftShoulderAt rightShoulderAt
     = true
  /\ isShielding (leftPlayer processedShield) = true
  /\ hasSword (leftPlayer processedShield) = false.
Proof.
  assert (Hrun : processPlayer sideLeft shieldPose (steady 1016 0%nat)
                   afterCharge = Ok tt processedShield)
    by (vm_compute; reflexivity).
  assert (Hpose : isShieldPose (landmarkAt (7 # 10) (35 # 100))
                    (landmarkAt (6 # 10) (35 # 100)) leftShoulderAt
                    rightShoulderAt = true) by reflexivity.
  split; [exact Hrun|]. split; [exact Hpose|].
  destruct (shield_is_geometry sideLeft shieldPose (steady 1016 0%nat)
              afterCharge processedShield
              (landmarkAt (7 # 10) (35 # 100))
              (landmarkAt (6 # 10) (35 # 100))
              leftShoulderAt rightShoulderAt
              eq_refl eq_refl eq_refl eq_refl Hrun)
    as (Es & Hsh).
  split; [exact (eq_trans Es Hpose)|]. exact (proj1 (Hsh Hpose)).
Defined.

(* ------------------------------------------------------------------ *)
(** ** The damage table over a frame *)

Lemma reachable_charged : reachable 2500 charged.
Proof.
  apply (play_reachable [(1000%Z, [chargePose]); (2500%Z, [chargePose])]
           0 initialState).
  - apply reach_init. lia.
  - vm_compute. reflexivity.
Qed.

(** C5.  Over every frame drawn from a reachable state: the simulator
    [updateProjectiles] runs on the state [s2] the pose loop, the
    undetected handling and the scripted target leave; every projectile it
    resolves carries the damage pair of its kind from the table; and the hp
    of each player after the simulator, which is its hp after the frame,
    is its hp before the frame less, for every projectile that strikes it,
    the blocked value of the kind when the player is shielding and the
    direct value otherwise.  For every kind the blocked value is strictly
    below the direct one. *)
Theorem damage_follows_table (t t' : Z) (clock : nat -> Clock)
  (s s' : GameState) :
  reachable t s -> clock_from t t' clock -> isGameOver s = false ->
  draw clock s = Ok tt s' ->
  (exists det s1 s2 s3,
     posePhase clock s = Ok det s1
     /\ s2 = aiStage (markUndetected det s1)
     /\ updateProjectiles s2 = Ok tt s3
     /\ (forall pr, In pr (projectiles s2) ->
           damage pr = directDamage (type pr)
           /\ blockDamage pr = blockedDamage (type pr))
     /\ forall side,
          hp (player side s2) = hp (player side s)
          /\ hp (player side s3)
             == hp (player side s)
                - fold_right Qplus 0
                    (map (fun pr =>
                            if isShielding (player side s2)
                            then blockedDamage (type pr)
                            else directDamage (type pr))
                       (filter (fun pr => strikes s2 pr && aimedAt side pr)
                          (projectiles s2)))
          /\ hp (player side s') = hp (player side s3))
  /\ forall k, blockedDamage k < directDamage k.
Proof.
  intros Hr Hc G Hrun. split; [|intros []; reflexivity].
  rewrite (draw_stages _ _ G) in Hrun.
  destruct (posePhase clock s) as [det s1|] eqn:Hpose; [|discriminate].
  injection Hrun as <-.
  set (s2 := aiStage (markUndetected det s1)).
  exists det, s1, s2, (projectileStage s2).
  split; [reflexivity|]. split; [reflexivity|].
  split; [apply updateProjectiles_sweep|].
  assert (Hall : Forall fromTable (projectiles s2)).
  { apply atSimulation_fromTable.
    exists t, t', clock, s, det, s1. auto. }
  split; [intros pr Hin; rewrite Forall_forall in Hall; exact (Hall pr Hin)|].
  intros side.
  assert (E2 : hp (player side s2) = hp (player side s)).
  { subst s2. rewrite aiStage_hp, markUndetected_hp.
    destruct (posePhase_scenery _ _ _ _ Hpose) as (_ & Hp).
    now destruct (Hp side). }
  split; [exact E2|]. split.
  - destruct (sweep_account (projectiles s2) s2 Hall) as (_ & Hh).
    unfold projectileStage. rewrite player_set_projectiles.
    rewrite (Hh side), E2. reflexivity.
  - unfold finishTick. fold s2. now rewrite late_stages_player.
Qed.

Lemma damage_follows_table_witness :
  reachable 2500 openFrame /\ reachable 2500 guardedFrame
  /\ draw (steady 2516) openFrame = Ok tt afterOpenHit
  /\ draw (steady 2516) guardedFrame = Ok tt afterGuardedHit
  /\ hp (rightPlayer afterOpenHit) == hp (rightPlayer charged) - (2 + 10)
  /\ hp (rightPlayer afterGuardedHit) == hp (rightPlayer charged) - 3.
Proof.
  assert (R1 : reachable 2500 openFrame)
    by apply reach_pose, reachable_charged.
  assert (R2 : reachable 2500 guardedFrame)
    by apply reach_pose, reachable_charged.
  assert (Hclk : clock_from 2500 2516 (steady 2516))
    by (apply steady_clock; lia).
  assert (D1 : draw (steady 2516) openFrame = Ok tt afterOpenHit)
    by (vm_compute; reflexivity).
  assert (D2 : draw (steady 2516) guardedFrame = Ok tt afterGuardedHit)
    by (vm_compute; reflexivity).
  do 4 (split; [assumption|]).
  split.
  - destruct (damage_follows_table 2500 2516 (steady 2516) openFrame
                afterOpenHit R1 Hclk eq_refl D1)
      as ((det & s1 & s2 & s3 & Hpose & -> & _ & _ & Hhp) & _).
    assert (P : posePhase (steady 2516) openFrame
                = Ok (true, false) posedOpen) by (vm_compute; reflexivity).
    rewrite P in Hpose. injection Hpose as <- <-.
    destruct (Hhp sideRight) as (_ & E3 & E4).
    cbn [player] in E3, E4. rewrite E4, E3.
    apply Qplus_inj_l, Qopp_comp. vm_compute. reflexivity.
  - destruct (damage_follows_table 2500 2516 (steady 2516) guardedFrame
                afterGuardedHit R2 Hclk eq_refl D2)
      as ((det & s1 & s2 & s3 & Hpose & -> & _ & _ & Hhp) & _).
    assert (P : posePhase (steady 2516) guardedFrame
                = Ok (true, true) posedGuarded) by (vm_compute; reflexivity).
    rewrite P in Hpose. injection Hpose as <- <-.
    destruct (Hhp sideRight) as (_ & E3 & E4).
    cbn [player] in E3, E4. rewrite E4, E3.
    apply Qplus_inj_l, Qopp_comp. vm_compute. reflexivity.
Defined.
